(** * Verification of [examples/calibrate.py]

    The script drives an IDS camera through a grid of exposure and gain
    settings.  The development embeds the [camera] wrapper class and the
    [main] sweep as functions in a state-and-exception monad over an explicit
    world: the device behind the driver, the store of dict objects, the log
    of every driver call with its outcome, the terminal and the file system.

    The driver [ids.Camera] is an external collaborator: it is a record of
    operations on an abstract device state, so every theorem holds for every
    driver, and stand-in drivers instantiate it for concrete runs.

    Python [float] is IEEE 754 binary64; it is modelled by [spec_float] with
    the correctly rounded operations of the Standard Library. *)

From Stdlib Require Import ZArith List String Ascii Lia Bool.
From Stdlib Require Import Floats.SpecFloat.
From Stdlib Require Import Decimal DecimalString DecimalN.
From stdpp Require Import gmap strings list fin_maps.

Local Open Scope Z_scope.

(** ** Exceptions and results *)

Inductive exn : Type :=
| ZeroDivisionError
| OverflowError
| TypeError
| IndexError
| KeyError
| ValueError
| AttributeError
| UnboundLocalError
| DriverError (code : Z).

Inductive result (A : Type) : Type :=
| Ok (a : A)
| Raise (e : exn).

Arguments Ok {A} a.
Arguments Raise {A} e.

Definition is_ok {A} (r : result A) : bool :=
  match r with Ok _ => true | Raise _ => false end.

(** ** Python floats: IEEE 754 binary64 *)

Module Float.

Definition prec : Z := 53.
Definition emax : Z := 1024.

Definition float : Type := spec_float.

Definition of_Z (z : Z) : float := binary_normalize prec emax z 0 false.
Definition add : float -> float -> float := SFadd prec emax.
Definition mul : float -> float -> float := SFmul prec emax.
Definition div : float -> float -> float := SFdiv prec emax.
Definition ltb : float -> float -> bool := SFltb.

Definition is_zero (f : float) : bool :=
  match f with S754_zero _ => true | _ => false end.

Definition is_finite (f : float) : bool :=
  match f with S754_zero _ | S754_finite _ _ _ => true | _ => false end.

(** The literals of the script.  [1e6] and [1e3] are integers below [2^53],
    hence exact; [1e-3] is the double nearest to 1/1000, which is what the
    correctly rounded quotient of the exact doubles 1 and 1000 yields. *)
Definition f_1e6 : float := Eval vm_compute in of_Z 1000000.
Definition f_1e3 : float := Eval vm_compute in of_Z 1000.
Definition f_1e_3 : float := Eval vm_compute in div (of_Z 1) (of_Z 1000).
Definition nan : float := S754_nan.

(** [float(z)] for a Python int: round to nearest even, [OverflowError] when
    the rounded magnitude does not fit ("int too large to convert to float"). *)
Definition of_int (z : Z) : result float :=
  match of_Z z with
  | S754_infinity _ => Raise OverflowError
  | f => Ok f
  end.

(** Exact comparison [f < z] of a float with an integer, as CPython does it. *)
Definition lt_int (f : float) (z : Z) : bool :=
  match f with
  | S754_nan => false
  | S754_infinity s => s
  | S754_zero _ => 0 <? z
  | S754_finite s m e =>
      let v := if s then Z.neg m else Z.pos m in
      if 0 <=? e then v * 2 ^ e <? z else v <? z * 2 ^ (- e)
  end.

(** The exponent to which rounding shifts a mantissa of [d] bits at
    exponent [e]. *)
Definition shifted_exp (d e : Z) : Z := Z.max e (Z.max (d + e - 53) (-1074)).

End Float.

(** ** Python values that cross the driver boundary *)

Definition loc : Type := positive.

#[warnings="-register-all"]
Inductive pyval : Type :=
| PyNone
| PyBool (b : bool)
| PyInt (z : Z)
| PyFloat (f : Float.float)
| PyStr (s : string)
| PyTuple (vs : list pyval)
| PyRef (l : loc).

Module Py.

(** [a / b] with a float left operand (true division). *)
Definition truediv_float (a : Float.float) (b : pyval) : result pyval :=
  match b with
  | PyInt z =>
      match Float.of_int z with
      | Raise e => Raise e
      | Ok fb => if Float.is_zero fb then Raise ZeroDivisionError
                 else Ok (PyFloat (Float.div a fb))
      end
  | PyBool c =>
      if c then Ok (PyFloat (Float.div a (Float.of_Z 1))) else Raise ZeroDivisionError
  | PyFloat fb =>
      if Float.is_zero fb then Raise ZeroDivisionError
      else Ok (PyFloat (Float.div a fb))
  | _ => Raise TypeError
  end.

(** [a * b] with a float right operand. *)
Definition mul_float (a : pyval) (b : Float.float) : result pyval :=
  match a with
  | PyInt z =>
      match Float.of_int z with
      | Raise e => Raise e
      | Ok fa => Ok (PyFloat (Float.mul fa b))
      end
  | PyBool c => Ok (PyFloat (Float.mul (Float.of_Z (if c then 1 else 0)) b))
  | PyFloat fa => Ok (PyFloat (Float.mul fa b))
  | _ => Raise TypeError
  end.

(** [b < a] for an int [a] and the result [b] of a true division. *)
Definition lt_int (b : pyval) (a : Z) : bool :=
  match b with
  | PyFloat f => Float.lt_int f a
  | PyInt z => z <? a
  | PyBool c => (if c then 1 else 0) <? a
  | _ => false
  end.

(** The builtin [min(a, b)] with an int [a]: the first argument is kept
    unless the second is strictly smaller. *)
Definition min_int (a : Z) (b : pyval) : pyval :=
  if lt_int b a then b else PyInt a.

(** [seq[0]] *)
Definition index0 (v : pyval) : result pyval :=
  match v with
  | PyTuple [] => Raise IndexError
  | PyTuple (x :: _) => Ok x
  | PyStr s => match s with
               | EmptyString => Raise IndexError
               | String c _ => Ok (PyStr (String c EmptyString))
               end
  | _ => Raise TypeError
  end.

(** [range(n)] *)
Definition range (n : Z) : list Z := map Z.of_nat (seq 0 (Z.to_nat n)).

(** [range(start, stop, step)] for a positive step. *)
Definition range3 (start stop step : Z) : list Z :=
  map (fun k => start + Z.of_nat k * step)
      (seq 0 (Z.to_nat ((stop - start + step - 1) / step))).

End Py.

(** ** Arrays *)

Record ndarray (A : Type) : Type := mk_ndarray {
  shape : list nat;
  data : list A
}.

Arguments mk_ndarray {A} shape data.
Arguments shape {A} n.
Arguments data {A} n.

(** A frame delivered by the driver (integer pixels) and an image returned
    by [capture] (float pixels). *)
Definition frame : Type := ndarray Z.
Definition image : Type := ndarray Float.float.

Module Np.

Definition same_shape (a b : frame) : bool :=
  bool_decide (shape a = shape b).

Definition to_floats (a : frame) : list Float.float := map Float.of_Z (data a).

(** Accumulation of one more frame into the float64 running sum. *)
Definition add_frame (acc : list Float.float) (b : frame) : list Float.float :=
  zip_with Float.add acc (to_floats b).

Definition sum_axis0 (a : frame) (rest : list frame) : list Float.float :=
  fold_left add_frame rest (to_floats a).

(** [np.mean(imgs, axis=0)] on a list of frames: the frames are stacked
    (they must share a shape), summed along the new first axis in float64 and
    divided by their number.  The mean of an empty list is [nan]. *)
Definition mean_axis0 (imgs : list frame) : result image :=
  match imgs with
  | [] => Ok (mk_ndarray [] [Float.nan])
  | a :: rest =>
      if forallb (same_shape a) rest then
        let n := Float.of_Z (Z.of_nat (length imgs)) in
        Ok (mk_ndarray (shape a) (map (fun s => Float.div s n) (sum_axis0 a rest)))
      else Raise ValueError
  end.

(** [np.asarray(imgs)]: the empty list becomes an array of shape [(0,)]. *)
Definition asarray (imgs : list frame) : result frame :=
  match imgs with
  | [] => Ok (mk_ndarray [0%nat] [])
  | a :: rest =>
      if forallb (same_shape a) rest then
        Ok (mk_ndarray (length imgs :: shape a) (concat (map data imgs)))
      else Raise ValueError
  end.

(** [np.squeeze]: axes of length one are dropped. *)
Definition squeeze {A} (a : ndarray A) : ndarray A :=
  mk_ndarray (filter (fun d => d ≠ 1%nat) (shape a)) (data a).

(** [.astype(np.float)] *)
Definition astype_float (a : frame) : image :=
  mk_ndarray (shape a) (to_floats a).

(** [np.squeeze(imgs).astype(np.float)] *)
Definition squeeze_astype_float (imgs : list frame) : result image :=
  match asarray imgs with
  | Ok a => Ok (astype_float (squeeze a))
  | Raise e => Raise e
  end.

End Np.

(** ** The driver *)

(** The properties of [ids.Camera] that the script reads or assigns. *)
Inductive prop : Type :=
| AutoWhiteBalance
| ContinuousCapture
| AutoExposure
| Exposure
| ColorMode
| GainBoost
| Gain
| Pixelclock
| PixelclockRange
| Framerate
| Info.

(** [ids.Camera]: every operation acts on the device, may raise, and returns
    the device as it is afterwards.  Assigning a property is a call like any
    other.  [COLOR_BAYER_8] is the constant of [ids.ids_core]. *)
Record Driver : Type := mk_Driver {
  dstate : Type;
  drv_open : Z -> dstate -> result unit * dstate;
  drv_get : prop -> dstate -> result pyval * dstate;
  drv_set : prop -> pyval -> dstate -> result unit * dstate;
  drv_next : dstate -> result (frame * pyval) * dstate;
  COLOR_BAYER_8 : pyval
}.

(** One driver call with its outcome. *)
Inductive event : Type :=
| EvOpen (nummem : Z) (r : result unit)
| EvGet (p : prop) (r : result pyval)
| EvSet (p : prop) (v : pyval) (r : result unit)
| EvNext (r : result (frame * pyval)).

(** Lines printed on the terminal. *)
Inductive message : Type :=
| MsgPixelClock (v : pyval)
| MsgSweepPoint (name : string).

(** ** Files *)

Inductive matval : Type :=
| MatArray (a : image)
| MatValue (v : pyval).

Inductive file : Type :=
| JsonFile (d : gmap string pyval)
| MatFile (fields : list (string * matval)).

Record filesystem : Type := mk_filesystem {
  dirs : gset string;
  files : gmap string file
}.

(** ** The world *)

Record world (D : Driver) : Type := mk_world {
  dev : dstate D;
  heap : gmap loc (gmap string pyval);
  trace : list event;
  stdout : list message;
  fs : filesystem;
  shown : option image
}.

Arguments mk_world {D} dev heap trace stdout fs shown.
Arguments dev {D} w.
Arguments heap {D} w.
Arguments trace {D} w.
Arguments stdout {D} w.
Arguments fs {D} w.
Arguments shown {D} w.

(** ** Computations: state and exceptions *)

Definition M (D : Driver) (A : Type) : Type := world D -> result A * world D.

Section Monad.
Context {D : Driver}.

Definition ret {A} (a : A) : M D A := fun w => (Ok a, w).

Definition raise {A} (e : exn) : M D A := fun w => (Raise e, w).

Definition lift {A} (r : result A) : M D A := fun w => (r, w).

Definition bind {A B} (m : M D A) (k : A -> M D B) : M D B :=
  fun w =>
    match m w with
    | (Ok a, w') => k a w'
    | (Raise e, w') => (Raise e, w')
    end.

(** [try: body finally: fin].  [fin] runs whatever [body] did; an exception
    of [fin] replaces the outcome of [body]. *)
Definition try_finally {A} (body : M D A) (fin : M D unit) : M D A :=
  fun w =>
    let (r, w1) := body w in
    match fin w1 with
    | (Ok _, w2) => (r, w2)
    | (Raise e, w2) => (Raise e, w2)
    end.

(** A [for] loop that threads the variables it assigns. *)
Fixpoint for_each {A S} (xs : list A) (body : S -> A -> M D S) (s : S) : M D S :=
  match xs with
  | [] => ret s
  | x :: xs' => bind (body s x) (for_each xs' body)
  end.

End Monad.

Notation "x <- m ;; k" := (bind m (fun x => k))
  (at level 20, m at level 99, k at level 200, only parsing).
Notation "m ;; k" := (bind m (fun _ => k))
  (at level 100, k at level 200, right associativity, only parsing).

(** ** Paths *)

Definition starts_with_slash (s : string) : bool :=
  match s with
  | String c _ => Ascii.eqb c "/"
  | EmptyString => false
  end.

Fixpoint ends_with_slash (s : string) : bool :=
  match s with
  | EmptyString => false
  | String c EmptyString => Ascii.eqb c "/"
  | String _ s' => ends_with_slash s'
  end.

(** A name without any slash. *)
Fixpoint no_slash (s : string) : bool :=
  match s with
  | EmptyString => true
  | String c s' => negb (Ascii.eqb c "/") && no_slash s'
  end.

(** ** World updates *)

Section Primitives.
Context {D : Driver}.

Definition with_dev (d : dstate D) (w : world D) : world D :=
  mk_world d (heap w) (trace w) (stdout w) (fs w) (shown w).

Definition with_heap (h : gmap loc (gmap string pyval)) (w : world D) : world D :=
  mk_world (dev w) h (trace w) (stdout w) (fs w) (shown w).

Definition log (ev : event) (w : world D) : world D :=
  mk_world (dev w) (heap w) (trace w ++ [ev]) (stdout w) (fs w) (shown w).

Definition with_stdout (o : list message) (w : world D) : world D :=
  mk_world (dev w) (heap w) (trace w) o (fs w) (shown w).

Definition with_fs (f : filesystem) (w : world D) : world D :=
  mk_world (dev w) (heap w) (trace w) (stdout w) f (shown w).

Definition with_shown (i : option image) (w : world D) : world D :=
  mk_world (dev w) (heap w) (trace w) (stdout w) (fs w) i.

(** *** Driver calls, logged with their outcome *)

Definition cam_open (nummem : Z) : M D unit :=
  fun w => let (r, d) := drv_open D nummem (dev w) in
           (r, log (EvOpen nummem r) (with_dev d w)).

Definition cam_get (p : prop) : M D pyval :=
  fun w => let (r, d) := drv_get D p (dev w) in
           (r, log (EvGet p r) (with_dev d w)).

Definition cam_set (p : prop) (v : pyval) : M D unit :=
  fun w => let (r, d) := drv_set D p v (dev w) in
           (r, log (EvSet p v r) (with_dev d w)).

Definition cam_next : M D (frame * pyval) :=
  fun w => let (r, d) := drv_next D (dev w) in
           (r, log (EvNext r) (with_dev d w)).

(** *** Terminal *)

Definition print (m : message) : M D unit :=
  fun w => (Ok tt, with_stdout (stdout w ++ [m]) w).

(** *** Dict objects in the store *)

Definition dict_read (v : pyval) : M D (gmap string pyval) :=
  fun w =>
    match v with
    | PyRef l => match heap w !! l with
                 | Some d => (Ok d, w)
                 | None => (Raise AttributeError, w)
                 end
    | _ => (Raise AttributeError, w)
    end.

Definition dict_alloc (d : gmap string pyval) : M D pyval :=
  fun w => let l := fresh (dom (heap w)) in
           (Ok (PyRef l), with_heap (<[l := d]> (heap w)) w).

(** [d.copy()]: a new dict object with the same items. *)
Definition dict_copy (v : pyval) : M D pyval :=
  d <- dict_read v ;; dict_alloc d.

(** [d[k]] *)
Definition dict_getitem (v : pyval) (k : string) : M D pyval :=
  d <- dict_read v ;;
  match d !! k with
  | Some x => ret x
  | None => raise KeyError
  end.

(** [d[k] = x] *)
Definition dict_setitem (v : pyval) (k : string) (x : pyval) : M D unit :=
  fun w =>
    match v with
    | PyRef l => match heap w !! l with
                 | Some d => (Ok tt, with_heap (<[l := <[k := x]> d]> (heap w)) w)
                 | None => (Raise AttributeError, w)
                 end
    | _ => (Raise TypeError, w)
    end.

(** [del d[k]] *)
Definition dict_delitem (v : pyval) (k : string) : M D unit :=
  fun w =>
    match v with
    | PyRef l => match heap w !! l with
                 | Some d => match d !! k with
                             | Some _ => (Ok tt, with_heap (<[l := delete k d]> (heap w)) w)
                             | None => (Raise KeyError, w)
                             end
                 | None => (Raise AttributeError, w)
                 end
    | _ => (Raise TypeError, w)
    end.

(** [d.clear()] *)
Definition dict_clear (v : pyval) : M D unit :=
  fun w =>
    match v with
    | PyRef l => match heap w !! l with
                 | Some _ => (Ok tt, with_heap (<[l := ∅]> (heap w)) w)
                 | None => (Raise AttributeError, w)
                 end
    | _ => (Raise AttributeError, w)
    end.

(** *** File system *)

(** [os.path.join(a, b)] on POSIX paths. *)
Definition os_path_join (a b : string) : string :=
  if starts_with_slash b then b
  else if (bool_decide (a = EmptyString) || ends_with_slash a)%bool
       then (a +:+ b)%string
       else (a +:+ "/" +:+ b)%string.

Definition os_path_isdir (p : string) : M D bool :=
  fun w => (Ok (bool_decide (p ∈ dirs (fs w))), w).

Definition os_makedirs (p : string) : M D unit :=
  fun w => (Ok tt, with_fs (mk_filesystem ({[p]} ∪ dirs (fs w)) (files (fs w))) w).

(** Opening [p] for writing and writing [f]: the file is created or replaced. *)
Definition write_file (p : string) (f : file) : M D unit :=
  fun w => (Ok tt, with_fs (mk_filesystem (dirs (fs w)) (<[p := f]> (files (fs w)))) w).

(** [plt.imshow(img); plt.show()] *)
Definition imshow (img : image) : M D unit :=
  fun w => (Ok tt, with_shown (Some img) w).

End Primitives.

(** ** String formatting *)

Module Fmt.

Definition zeros (n : nat) : string := string_of_list_ascii (repeat "0"%char n).

(** Decimal digits of a natural number, ["0"] for zero. *)
Definition digits (n : N) : string := NilZero.string_of_uint (N.to_uint n).

Definition zfill (width : nat) (s : string) : string :=
  (zeros (width - String.length s) +:+ s)%string.

(** [format(z, "0<width>")]: zero padding after the sign up to [width]
    characters, never truncating. *)
Definition int0 (width : nat) (z : Z) : string :=
  match z with
  | Zneg p => String "-" (zfill (width - 1) (digits (Npos p)))
  | _ => zfill width (digits (Z.to_N z))
  end.

(** [str(b)] *)
Definition str_bool (b : bool) : string := if b then "True" else "False".

(** ["exp_{:07}_gain_{:03}_boost_{}".format(exposure, gain, gain_boost)] *)
Definition base_name (exposure gain : Z) (gain_boost : bool) : string :=
  ("exp_" +:+ int0 7 exposure +:+ "_gain_" +:+ int0 3 gain
     +:+ "_boost_" +:+ str_bool gain_boost)%string.

(** [base_name + '.mat'] *)
Definition mat_name (exposure gain : Z) (gain_boost : bool) : string :=
  (base_name exposure gain gain_boost +:+ ".mat")%string.

(** Reading a name back: decimal digits, and the number they denote. *)
Definition is_digit (c : ascii) : bool :=
  match uint_of_char c (Some Nil) with
  | Some _ => true
  | None => false
  end.

Fixpoint all_digits (s : string) : bool :=
  match s with
  | EmptyString => true
  | String c s' => is_digit c && all_digits s'
  end.

Definition value (s : string) : N :=
  match NilEmpty.uint_of_string s with
  | Some d => N.of_uint d
  | None => 0%N
  end.

End Fmt.

(** ** The script *)

Definition EXPOSURE_VALUES : list Z :=
  [100; 500; 1000; 5000; 10000; 50000; 100000; 500000; 1000000; 5000000; 8000000].
Definition GAIN_VALUES : list Z := Py.range3 0 101 20.
Definition IDS_MAX_PIXEL_CLOCK : Z := 30.

(** What [capture] returns: the image, the exposure and the gain. *)
Definition captured : Type := image * pyval * pyval.

(** The constants that [main] iterates over, and the [average] it passes. *)
Record config : Type := mk_config {
  cfg_exposures : list Z;
  cfg_gains : list Z;
  cfg_boosts : list bool;
  cfg_average : Z
}.

Section Camera.
Context {D : Driver}.

(** [camera.__init__] *)
Definition camera_init : M D unit :=
  cam_open 1 ;;
  cam_set AutoWhiteBalance (PyBool false) ;;
  cam_set ContinuousCapture (PyBool false) ;;
  cam_set AutoExposure (PyBool false) ;;
  cam_set Exposure (PyInt 100) ;;
  cam_set ColorMode (COLOR_BAYER_8 D) ;;
  cam_set GainBoost (PyBool false) ;;
  cam_set Gain (PyInt 0).

(** [camera.info] *)
Definition info : M D pyval :=
  d <- cam_get Info ;;
  dict_copy d.

(** Lines 63 to 76: the pixel clock. *)
Definition set_pixelclock (exposure_us : Z) : M D unit :=
  if 1000 <? exposure_us then
    r <- cam_get PixelclockRange ;;
    lo <- lift (Py.index0 r) ;;
    print (MsgPixelClock lo) ;;
    r' <- cam_get PixelclockRange ;;
    lo' <- lift (Py.index0 r') ;;
    cam_set Pixelclock lo'
  else
    print (MsgPixelClock (PyInt IDS_MAX_PIXEL_CLOCK)) ;;
    cam_set Pixelclock (PyInt IDS_MAX_PIXEL_CLOCK).

(** Line 81: [min(100, 1e6 / exposure_us)] *)
Definition framerate (exposure_us : Z) : result pyval :=
  match Py.truediv_float Float.f_1e6 (PyInt exposure_us) with
  | Ok q => Ok (Py.min_int 100 q)
  | Raise e => Raise e
  end.

Definition set_framerate (exposure_us : Z) : M D unit :=
  fr <- lift (framerate exposure_us) ;;
  cam_set Framerate fr.

(** Lines 83 to 85 *)
Definition set_exposure_gain (exposure_us gain : Z) (gain_boost : bool) : M D unit :=
  ex <- lift (Py.mul_float (PyInt exposure_us) Float.f_1e_3) ;;
  cam_set Exposure ex ;;
  cam_set Gain (PyInt gain) ;;
  cam_set GainBoost (PyBool gain_boost).

(** Lines 91 to 100: the warm-up frame, [average] frames, and the [finally]. *)
Definition pull_frames (average : Z) : M D (list frame) :=
  try_finally
    (cam_next ;;
     for_each (Py.range average)
       (fun imgs _ => fm <- cam_next ;; ret (imgs ++ [fst fm])) [])
    (cam_set ContinuousCapture (PyBool false)).

(** Lines 102 to 105 *)
Definition reduce (average : Z) (imgs : list frame) : result image :=
  if 0 <? average then Np.mean_axis0 imgs
  else Np.squeeze_astype_float imgs.

(** Line 107 *)
Definition read_back (img : image) : M D captured :=
  e <- cam_get Exposure ;;
  e_us <- lift (Py.mul_float e Float.f_1e3) ;;
  g <- cam_get Gain ;;
  ret (img, e_us, g).

(** Lines 90 to 107 *)
Definition acquire (average : Z) : M D captured :=
  cam_set ContinuousCapture (PyBool true) ;;
  imgs <- pull_frames average ;;
  img <- lift (reduce average imgs) ;;
  read_back img.

(** [camera.capture] *)
Definition capture (exposure_us gain : Z) (gain_boost : bool) (average : Z)
  : M D captured :=
  set_pixelclock exposure_us ;;
  set_framerate exposure_us ;;
  set_exposure_gain exposure_us gain gain_boost ;;
  acquire average.

(** [sio.savemat(mat_path, dict(array=.., exposure=.., gain=..))] *)
Definition savemat (mat_path : string) (data : captured) : M D unit :=
  write_file mat_path
    (MatFile [("array"%string, MatArray (fst (fst data)));
              ("exposure"%string, MatValue (snd (fst data)));
              ("gain"%string, MatValue (snd data))]).

(** The body of the innermost loop of [main]. *)
Definition sweep_point (average : Z) (base_path : string)
    (gain_boost : bool) (gain : Z) (_ : option captured) (exposure : Z)
  : M D (option captured) :=
  print (MsgSweepPoint (Fmt.base_name exposure gain gain_boost)) ;;
  data <- capture exposure gain gain_boost average ;;
  savemat (os_path_join base_path (Fmt.mat_name exposure gain gain_boost)) data ;;
  ret (Some data).

(** The three nested loops. *)
Definition sweep (cfg : config) (base_path : string) : M D (option captured) :=
  for_each (cfg_boosts cfg)
    (fun data gain_boost =>
       for_each (cfg_gains cfg)
         (fun data gain =>
            for_each (cfg_exposures cfg)
              (sweep_point (cfg_average cfg) base_path gain_boost gain) data)
         data)
    None.

(** [main], with the constants it iterates over as a parameter. *)
Definition main_with (cfg : config) : M D unit :=
  camera_init ;;
  cam_info <- info ;;
  serial <- dict_getitem cam_info "serial_num" ;;
  match serial with
  | PyStr serial_num =>
      let base_path := os_path_join "results" serial_num in
      isdir <- os_path_isdir base_path ;;
      (if isdir : bool then ret tt else os_makedirs base_path) ;;
      d <- dict_read cam_info ;;
      write_file (os_path_join base_path "info.json") (JsonFile d) ;;
      data <- sweep cfg base_path ;;
      match data with
      | Some d => imshow (fst (fst d))
      | None => raise UnboundLocalError
      end
  | _ => raise TypeError
  end.

(** [main] as the script has it: both boost flags, and the default
    [average=10] of [capture]. *)
Definition main : M D unit :=
  main_with (mk_config EXPOSURE_VALUES GAIN_VALUES [false; true] 10).

End Camera.

(** ** Callers that mutate a dict *)

Inductive mutation : Type :=
| SetItem (k : string) (x : pyval)
| DelItem (k : string)
| Clear.

Definition apply_mutation {D : Driver} (d : pyval) (m : mutation) : M D unit :=
  match m with
  | SetItem k x => dict_setitem d k x
  | DelItem k => dict_delitem d k
  | Clear => dict_clear d
  end.

(** A caller's sequence of mutations of [d]; it stops at the first one that
    raises. *)
Definition mutate {D : Driver} (d : pyval) (ms : list mutation) : M D unit :=
  for_each ms (fun _ m => apply_mutation d m) tt.

(** ** Observations on a run *)

(** The driver operation behind an event. *)
Inductive call : Type :=
| COpen
| CGet (p : prop)
| CSet (p : prop)
| CNext.

#[global] Instance prop_eq_dec : EqDecision prop.
Proof. solve_decision. Defined.

#[global] Instance call_eq_dec : EqDecision call.
Proof. solve_decision. Defined.

Definition call_of (ev : event) : call :=
  match ev with
  | EvOpen _ _ => COpen
  | EvGet p _ => CGet p
  | EvSet p _ _ => CSet p
  | EvNext _ => CNext
  end.

(** Every event of [evs] is a call among [cs]. *)
Definition calls_in (cs : list call) (evs : list event) : Prop :=
  Forall (fun ev => call_of ev ∈ cs) evs.

(** The values assigned to the property [p], in order. *)
Definition writes (p : prop) (evs : list event) : list pyval :=
  flat_map (fun ev => match ev with
                      | EvSet q v _ => if bool_decide (q = p) then [v] else []
                      | _ => []
                      end) evs.

(** The outcomes of the frame pulls, in order. *)
Definition pulled (evs : list event) : list (result (frame * pyval)) :=
  flat_map (fun ev => match ev with EvNext r => [r] | _ => [] end) evs.

Definition is_pull (ev : event) : bool :=
  bool_decide (call_of ev = CNext).

Definition is_disable (ev : event) : bool :=
  match ev with
  | EvSet ContinuousCapture (PyBool false) _ => true
  | _ => false
  end.

Definition is_enable (ev : event) : bool :=
  match ev with
  | EvSet ContinuousCapture (PyBool true) _ => true
  | _ => false
  end.

Definition count (f : event -> bool) (evs : list event) : nat :=
  length (filter (fun ev => f ev = true) evs).

(** The calls of the configuration steps, lines 63 to 85. *)
Definition config_calls : list call :=
  [CGet PixelclockRange; CSet Pixelclock; CSet Framerate;
   CSet Exposure; CSet Gain; CSet GainBoost].

(** The calls of line 107. *)
Definition read_back_calls : list call := [CGet Exposure; CGet Gain].

(** The calls of lines 83 to 107, after the frame rate is set. *)
Definition after_framerate_calls : list call :=
  [CSet Exposure; CSet Gain; CSet GainBoost; CSet ContinuousCapture; CNext;
   CGet Exposure; CGet Gain].

(** *** The arithmetic mean, as the specification words it *)

(** The sum of float64 values, accumulated from the first to the last. *)
Definition float_sum (xs : list Float.float) : Float.float :=
  match xs with
  | [] => Float.of_Z 0
  | x :: rest => fold_left Float.add rest x
  end.

(** The arithmetic mean of the integer pixel values [zs] in float64: their
    sum divided by their number. *)
Definition arithmetic_mean (zs : list Z) : Float.float :=
  Float.div (float_sum (map Float.of_Z zs)) (Float.of_Z (Z.of_nat (length zs))).

(** *** What an artifact stores *)

(** The file that [savemat] writes for the value [c] returned by [capture]. *)
Definition mat_of (c : captured) : file :=
  MatFile [("array"%string, MatArray (fst (fst c)));
           ("exposure"%string, MatValue (snd (fst c)));
           ("gain"%string, MatValue (snd c))].

(** [f] stores what a call of [capture] at the sweep point returned: the
    image, a float exposure and an int gain. *)
Definition stores {D : Driver} (exposure gain : Z) (gain_boost : bool)
    (average : Z) (f : file) : Prop :=
  exists (wa wb : world D) img x gn,
    capture exposure gain gain_boost average wa
    = (Ok (img, PyFloat x, PyInt gn), wb) /\
    f = MatFile [("array"%string, MatArray img);
                 ("exposure"%string, MatValue (PyFloat x));
                 ("gain"%string, MatValue (PyInt gn))].

(** The path of [name] in the directory of the camera [serial_num]. *)
Definition results_path (serial_num name : string) : string :=
  ("results/" +:+ serial_num +:+ "/" +:+ name)%string.

(** *** The shape of an acquisition *)

Definition enable (r : result unit) : event :=
  EvSet ContinuousCapture (PyBool true) r.

Definition disable (r : result unit) : event :=
  EvSet ContinuousCapture (PyBool false) r.

(** The pulls inside the [try] block and its outcome: either the warm-up
    frame and [average] further frames arrived, or a pull raised after at
    most [average] frames had arrived. *)
Definition pulls_outcome (average : Z) (rs : list (result (frame * pyval)))
    (body : result (list frame)) : Prop :=
  (exists warm oks, rs = map Ok (warm :: oks) /\
                    length oks = Z.to_nat average /\
                    body = Ok (map fst oks)) \/
  (exists oks x, rs = map Ok oks ++ [Raise x] /\
                 (length oks <= Z.to_nat average)%nat /\
                 body = Raise x).

(** Lines 90 to 107, seen from the driver: the enable; if it returned, the
    pulls, then the disable, then the two reads of line 107. *)
Definition acquired (average : Z) (r : result captured) (evs : list event) : Prop :=
  (exists x, evs = [enable (Raise x)] /\ r = Raise x) \/
  (exists rs rd body post,
      evs = enable (Ok tt) :: map EvNext rs ++ disable rd :: post /\
      pulls_outcome average rs body /\
      calls_in read_back_calls post /\
      match rd, body with
      | Ok _, Ok imgs =>
          forall c, r = Ok c ->
            exists e_ms,
              post = [EvGet Exposure (Ok e_ms); EvGet Gain (Ok (snd c))] /\
              Py.mul_float e_ms Float.f_1e3 = Ok (snd (fst c)) /\
              reduce average imgs = Ok (fst (fst c))
      | Ok _, Raise x => r = Raise x /\ post = []
      | Raise x, _ => r = Raise x /\ post = []
      end).

(** A whole call of [capture]: configuration calls, then possibly an
    acquisition. *)
Definition captured_shape (average : Z) (r : result captured) (evs : list event)
  : Prop :=
  exists conf,
    calls_in config_calls conf /\
    ((evs = conf /\ is_ok r = false) \/
     (exists acq, evs = conf ++ acq /\ acquired average r acq)).

(** Continuous capture is bracketed: configuration, the enable, at least
    one pull, the disable, and then only the reads of line 107. *)
Definition bracketed (evs : list event) : Prop :=
  exists pre rs rd post,
    evs = pre ++ enable (Ok tt) :: map EvNext rs ++ disable rd :: post /\
    rs <> [] /\
    calls_in config_calls pre /\
    calls_in read_back_calls post.

Section Observations.
Context {D : Driver}.

(** The events that a computation added to the log. *)
Definition events_since (w w' : world D) : list event :=
  drop (length (trace w)) (trace w').

Definition events_of {A} (m : M D A) (w : world D) : list event :=
  events_since w (snd (m w)).

(** [w'] is [w] after the driver calls [evs]: the store, the disk and the
    display are as they were. *)
Definition extends (w w' : world D) (evs : list event) : Prop :=
  trace w' = trace w ++ evs /\ heap w' = heap w /\ fs w' = fs w /\
  shown w' = shown w.

(** Whatever the driver answers, [m] ends with an outcome and a list of
    driver calls related by [post]. *)
Definition emits {A} (m : M D A) (post : result A -> list event -> Prop) : Prop :=
  forall w, exists r w' evs, m w = (r, w') /\ extends w w' evs /\ post r evs.

End Observations.

(** A driver that raises no error and answers with values of the expected
    types: the pixel clock range is a non-empty tuple, the exposure a float,
    the gain an int, and all frames have the shape [sh]. *)
Record well_behaved (D : Driver) (sh : list nat) : Prop := mk_well_behaved {
  wb_open : forall n s, exists s', drv_open D n s = (Ok tt, s');
  wb_set : forall p v s, p <> PixelclockRange -> p <> Info ->
                         exists s', drv_set D p v s = (Ok tt, s');
  wb_range : forall s, exists lo rest s',
      drv_get D PixelclockRange s = (Ok (PyTuple (lo :: rest)), s');
  wb_exposure : forall s, exists f s', drv_get D Exposure s = (Ok (PyFloat f), s');
  wb_gain : forall s, exists g s', drv_get D Gain s = (Ok (PyInt g), s');
  wb_next : forall s, exists fr meta s',
      drv_next D s = (Ok (fr, meta), s') /\ shape fr = sh
}.

(** ** A stand-in driver

    A simulated camera for concrete runs.  It keeps exposures of at least
    0.12 ms and raises shorter ones to 0.12 ms, clamps the gain to 0..100,
    delivers 1x2 frames whose pixels count the pulls, and fails the pull
    number [fail_at], if any. *)

Module StandIn.

Record sim : Type := mk_sim {
  sim_exposure : Float.float;
  sim_gain : Z;
  sim_streaming : bool;
  sim_pulls : Z
}.

(** Where the simulated camera keeps its info dict. *)
Definition info_loc : loc := 1%positive.

Definition f_0_12 : Float.float :=
  Eval vm_compute in Float.div (Float.of_Z 12) (Float.of_Z 100).

Definition quantise (v : pyval) : Float.float :=
  match v with
  | PyFloat f => if Float.ltb f f_0_12 then f_0_12 else f
  | PyInt z => if Float.ltb (Float.of_Z z) f_0_12 then f_0_12 else Float.of_Z z
  | _ => f_0_12
  end.

Definition clamp_gain (v : pyval) : Z :=
  match v with
  | PyInt z => Z.max 0 (Z.min 100 z)
  | _ => 0
  end.

Definition sim_get (p : prop) (s : sim) : result pyval * sim :=
  match p with
  | Exposure => (Ok (PyFloat (sim_exposure s)), s)
  | Gain => (Ok (PyInt (sim_gain s)), s)
  | PixelclockRange => (Ok (PyTuple [PyInt 5; PyInt 30]), s)
  | Info => (Ok (PyRef info_loc), s)
  | _ => (Raise AttributeError, s)
  end.

Definition sim_set (p : prop) (v : pyval) (s : sim) : result unit * sim :=
  match p with
  | Exposure =>
      (Ok tt, mk_sim (quantise v) (sim_gain s) (sim_streaming s) (sim_pulls s))
  | Gain =>
      (Ok tt, mk_sim (sim_exposure s) (clamp_gain v) (sim_streaming s) (sim_pulls s))
  | ContinuousCapture =>
      (Ok tt, mk_sim (sim_exposure s) (sim_gain s)
                     (match v with PyBool b => b | _ => sim_streaming s end)
                     (sim_pulls s))
  | PixelclockRange | Info => (Raise AttributeError, s)
  | _ => (Ok tt, s)
  end.

Definition sim_frame (n : Z) : frame :=
  mk_ndarray [1%nat; 2%nat] [10 * n; 10 * n + 4].

Definition sim_next (fail_at : option Z) (s : sim) : result (frame * pyval) * sim :=
  let n := sim_pulls s + 1 in
  let s' := mk_sim (sim_exposure s) (sim_gain s) (sim_streaming s) n in
  if bool_decide (fail_at = Some n) then (Raise (DriverError 2), s')
  else (Ok (sim_frame n, PyNone), s').

Definition driver (fail_at : option Z) : Driver :=
  mk_Driver sim (fun _ s => (Ok tt, s)) sim_get sim_set (sim_next fail_at) (PyInt 11).

Definition info_dict : gmap string pyval :=
  {[ "serial_num"%string := PyStr "4102776221"; "model"%string := PyStr "UI-1240" ]}.

(** The world before the script starts: the camera's info dict sits in the
    store, nothing is on disk. *)
Definition world0 (fail_at : option Z) : world (driver fail_at) :=
  @mk_world (driver fail_at)
    (mk_sim Float.f_1e_3 0 false 0)
    {[ info_loc := info_dict ]} [] [] (mk_filesystem ∅ ∅) None.

End StandIn.

(** ** Further observations *)

(** The driver calls of [camera.__init__], in order, each awaiting its
    outcome. *)
Definition init_script (D : Driver) : list (result unit -> event) :=
  [EvOpen 1;
   EvSet AutoWhiteBalance (PyBool false);
   EvSet ContinuousCapture (PyBool false);
   EvSet AutoExposure (PyBool false);
   EvSet Exposure (PyInt 100);
   EvSet ColorMode (COLOR_BAYER_8 D);
   EvSet GainBoost (PyBool false);
   EvSet Gain (PyInt 0)].

(** The calls of a script that all returned. *)
Definition returned (script : list (result unit -> event)) : list event :=
  map (fun f => f (Ok tt)) script.

(** The calls of lines 90 to 107. *)
Definition acquire_calls : list call :=
  [CSet ContinuousCapture; CNext; CGet Exposure; CGet Gain].

(** The calls of lines 63 to 76. *)
Definition pixelclock_calls : list call := [CGet PixelclockRange; CSet Pixelclock].

(** The sweep points of [main], as (boost, gain, exposure), in the order
    of its three loops. *)
Definition sweep_points (cfg : config) : list (bool * Z * Z) :=
  flat_map (fun b =>
              flat_map (fun g => map (fun e => (b, g, e)) (cfg_exposures cfg))
                       (cfg_gains cfg))
           (cfg_boosts cfg).

(** The artifact name of a sweep point. *)
Definition point_name (p : bool * Z * Z) : string :=
  Fmt.mat_name (snd p) (snd (fst p)) (fst (fst p)).

(** An exposure whose configuration succeeds and whose name has no sign:
    positive, and convertible to a float. *)
Definition valid_exposure (e : Z) : bool :=
  (0 <? e) && is_ok (Float.of_int e).

(** [m] relates every world to the world it leaves by [R]. *)
Definition preserves {D : Driver} {A} (R : world D -> world D -> Prop)
    (m : M D A) : Prop :=
  forall w, R w (snd (m w)).

(** The disk is as it was. *)
Definition same_disk {D : Driver} (w w' : world D) : Prop := fs w' = fs w.



(** [valid_exposure] as a sweep point has it, with a gain that is not
    negative. *)
Definition valid_point (p : bool * Z * Z) : bool :=
  valid_exposure (snd p) && (0 <=? snd (fst p)).

(** The loop body of [main] at the sweep point [p]. *)
Definition at_point {D : Driver} (average : Z) (base_path : string)
    (data : option captured) (p : bool * Z * Z) : M D (option captured) :=
  sweep_point average base_path (fst (fst p)) (snd (fst p)) data (snd p).

(** The path of the artifact of a sweep point. *)
Definition point_path (base_path : string) (p : bool * Z * Z) : string :=
  os_path_join base_path (point_name p).

(** Did the driver call behind an event raise? *)
Definition raised (ev : event) : bool :=
  match ev with
  | EvOpen _ r => negb (is_ok r)
  | EvGet _ r => negb (is_ok r)
  | EvSet _ _ r => negb (is_ok r)
  | EvNext r => negb (is_ok r)
  end.

(** Nothing follows a driver call that raised, except the disable of the
    [finally] after a frame pull that raised. *)
Definition fail_fast (evs : list event) : Prop :=
  forall pre ev post,
    evs = pre ++ ev :: post -> raised ev = true ->
    post = [] \/ exists x rd, ev = EvNext (Raise x) /\ post = [disable rd].

(** An outcome and the driver calls behind it: calls that returned, then at
    most one call that raised (after a pull, the disable as well); and a
    normal outcome has no call that raised. *)
Definition stops_at_error {A} (r : result A) (evs : list event) : Prop :=
  (is_ok r = true -> Forall (fun ev => raised ev = false) evs) /\
  exists pre tail,
    evs = pre ++ tail /\ Forall (fun ev => raised ev = false) pre /\
    (tail = [] \/ (exists ev, tail = [ev]) \/
     exists x rd, tail = [EvNext (Raise x); disable rd]).

(** Whatever the driver answers, [m] only adds to the log, and its outcome
    and the calls it added are related by [post]. *)
Definition traces {D : Driver} {A} (m : M D A)
    (post : result A -> list event -> Prop) : Prop :=
  forall w, exists evs,
    trace (snd (m w)) = trace w ++ evs /\ post (fst (m w)) evs.

(** The constants of [main] as the script has them. *)
Definition script_config : config :=
  mk_config EXPOSURE_VALUES GAIN_VALUES [false; true] 10.

(** A world in which the camera's info dict has no serial number. *)
Definition world_without_serial : world (StandIn.driver None) :=
  @mk_world (StandIn.driver None)
    (StandIn.mk_sim Float.f_1e_3 0 false 0)
    {[ StandIn.info_loc := {[ "model"%string := PyStr "UI-1240" ]} ]}
    [] [] (mk_filesystem ∅ ∅) None.

(** *** The terminal *)

(** The terminal shows what it showed. *)
Definition same_stdout {D : Driver} (w w' : world D) : Prop := stdout w' = stdout w.

(** The lines that a computation printed. *)
Definition printed {D : Driver} {A} (m : M D A) (w : world D) : list message :=
  drop (length (stdout w)) (stdout (snd (m w))).

(** The line of lines 63 to 76, given the answer to the first read of the
    pixel clock range: its first element when the exposure exceeds 1000 (no
    line when the read or the indexing raises), the constant otherwise. *)
Definition pixelclock_lines (exposure_us : Z) (range : result pyval) : list message :=
  if 1000 <? exposure_us then
    match range with
    | Ok v => match Py.index0 v with
              | Ok lo => [MsgPixelClock lo]
              | Raise _ => []
              end
    | Raise _ => []
    end
  else [MsgPixelClock (PyInt IDS_MAX_PIXEL_CLOCK)].

(** The two lines of a sweep point whose capture returned: its name, and
    the pixel clock, [lo] being what the driver reported as the minimum. *)
Definition point_lines (p : bool * Z * Z) (lo : pyval) : list message :=
  [MsgSweepPoint (Fmt.base_name (snd p) (snd (fst p)) (fst (fst p)));
   MsgPixelClock (if 1000 <? snd p then lo else PyInt IDS_MAX_PIXEL_CLOCK)].

Definition sweep_lines (ps : list (bool * Z * Z)) (los : list pyval) : list message :=
  flat_map (fun pl => point_lines (fst pl) (snd pl)) (zip ps los).

(** [m] only adds lines to the terminal, and when it returns they satisfy
    [post]. *)
Definition prints_ok {D : Driver} {A} (m : M D A)
    (post : list message -> Prop) : Prop :=
  forall w, exists out,
    stdout (snd (m w)) = stdout w ++ out /\
    (is_ok (fst (m w)) = true -> post out).

(** * Properties *)

(** ** Conversion of integers to floats *)

Section FloatFacts.

Lemma fexp_unfold (e : Z) :
  SpecFloat.fexp Float.prec Float.emax e = Z.max (e - 53) (-1074).
Proof. reflexivity. Qed.

Lemma digits2_pos_size (p : positive) : digits2_pos p = Pos.size p.
Proof. induction p as [p IH | p IH |]; simpl; congruence. Qed.

Lemma Zdigits2_log2 (p : positive) : Zdigits2 (Z.pos p) = Z.log2 (Z.pos p) + 1.
Proof.
  simpl. rewrite digits2_pos_size.
  destruct p as [p | p |]; simpl; lia.
Qed.

Lemma Zdigits2_bounds (p : positive) :
  2 ^ (Zdigits2 (Z.pos p) - 1) <= Z.pos p < 2 ^ Zdigits2 (Z.pos p).
Proof.
  rewrite Zdigits2_log2.
  replace (Z.log2 (Z.pos p) + 1 - 1) with (Z.log2 (Z.pos p)) by lia.
  apply Z.log2_spec. lia.
Qed.

Lemma Zdigits2_pos (p : positive) : 1 <= Zdigits2 (Z.pos p).
Proof. rewrite Zdigits2_log2. pose proof (Z.log2_nonneg (Z.pos p)). lia. Qed.

Lemma shr_1_mantissa (x : shr_record) :
  0 <= shr_m x -> shr_m (shr_1 x) = shr_m x / 2.
Proof.
  destruct x as [m r s]. simpl. intros Hm.
  rewrite <- Z.div2_div.
  destruct m as [| [p | p |] | p]; simpl; try reflexivity; lia.
Qed.

Lemma iter_shr_1_mantissa (n : positive) (x : shr_record) :
  0 <= shr_m x -> shr_m (SpecFloat.iter_pos shr_1 n x) = shr_m x / 2 ^ Z.pos n.
Proof.
  revert x. induction n as [n IH | n IH |]; intros x Hx; simpl SpecFloat.iter_pos.
  - assert (H1 : 0 <= shr_m (shr_1 x))
      by (rewrite shr_1_mantissa by lia; apply Z.div_pos; lia).
    assert (H2 : 0 <= shr_m (SpecFloat.iter_pos shr_1 n (shr_1 x)))
      by (rewrite IH by lia; apply Z.div_pos; lia).
    rewrite IH, IH, shr_1_mantissa by lia.
    rewrite !Z.div_div by lia.
    f_equal.
    replace (Z.pos n~1) with (1 + Z.pos n + Z.pos n) by lia.
    rewrite !Z.pow_add_r by lia. change (2 ^ 1) with 2. ring.
  - assert (H2 : 0 <= shr_m (SpecFloat.iter_pos shr_1 n x))
      by (rewrite IH by lia; apply Z.div_pos; lia).
    rewrite IH, IH by lia.
    rewrite Z.div_div by lia.
    f_equal.
    replace (Z.pos n~0) with (Z.pos n + Z.pos n) by lia.
    rewrite Z.pow_add_r by lia. reflexivity.
  - rewrite shr_1_mantissa by lia. reflexivity.
Qed.

Lemma shr_record_of_loc_m (m : Z) (l : location) :
  shr_m (shr_record_of_loc m l) = m.
Proof. destruct l as [| []]; reflexivity. Qed.

(** Shifting a positive mantissa to its canonical exponent: the exponent
    becomes the larger of the old one and the canonical one, the mantissa
    is divided accordingly. *)
Lemma shr_fexp_spec (p : positive) (e : Z) (l : location) :
  let e' := Float.shifted_exp (Zdigits2 (Z.pos p)) e in
  snd (shr_fexp Float.prec Float.emax (Z.pos p) e l) = e' /\
  shr_m (fst (shr_fexp Float.prec Float.emax (Z.pos p) e l)) = Z.pos p / 2 ^ (e' - e).
Proof.
  intros e'. subst e'. unfold shr_fexp, shr, Float.shifted_exp. rewrite fexp_unfold.
  destruct (Z.max (Zdigits2 (Z.pos p) + e - 53) (-1074) - e) as [| n | n] eqn:En;
    simpl fst; simpl snd.
  - rewrite shr_record_of_loc_m.
    replace (Z.max e _) with e by lia.
    rewrite Z.sub_diag, Z.div_1_r. split; reflexivity.
  - rewrite iter_shr_1_mantissa by (rewrite shr_record_of_loc_m; lia).
    rewrite shr_record_of_loc_m.
    replace (Z.max e _ - e) with (Z.pos n) by lia. split; [lia | reflexivity].
  - rewrite shr_record_of_loc_m.
    replace (Z.max e _) with e by lia.
    rewrite Z.sub_diag, Z.div_1_r. split; reflexivity.
Qed.

(** Above the smallest exponent the shifted mantissa stays positive and
    has at most 53 bits. *)
Lemma shr_fexp_mantissa_bounds (p : positive) (e : Z) :
  -1074 <= e ->
  let e' := Float.shifted_exp (Zdigits2 (Z.pos p)) e in
  0 < Z.pos p / 2 ^ (e' - e) /\
  Z.pos p / 2 ^ (e' - e) < 2 ^ (Zdigits2 (Z.pos p) + e - e').
Proof.
  intros He e'. pose proof (Zdigits2_bounds p) as [Hlo Hhi].
  pose proof (Zdigits2_pos p) as Hd.
  assert (Hk : 0 <= e' - e <= Zdigits2 (Z.pos p) - 1).
  { subst e'. unfold Float.shifted_exp. lia. }
  split.
  - apply Z.div_str_pos. split; [apply Z.pow_pos_nonneg; lia |].
    etransitivity; [| exact Hlo]. apply Z.pow_le_mono_r; lia.
  - apply Z.div_lt_upper_bound; [apply Z.pow_pos_nonneg; lia |].
    rewrite <- Z.pow_add_r by lia.
    replace (e' - e + (Zdigits2 (Z.pos p) + e - e')) with (Zdigits2 (Z.pos p)) by lia.
    exact Hhi.
Qed.

Lemma round_nearest_even_bounds (m : Z) (l : location) :
  m <= round_nearest_even m l <= m + 1.
Proof. destruct l as [| []]; simpl; try destruct (Z.even m); lia. Qed.

(** Rounding a positive mantissa whose exponent is not below the smallest
    one never yields a zero or a NaN, and yields a finite number when the
    shifted exponent leaves room for one carry. *)
Lemma binary_round_aux_pos (sx : bool) (p : positive) (e : Z) (l : location) :
  -1074 <= e ->
  (exists m e', binary_round_aux Float.prec Float.emax sx (Z.pos p) e l
                = S754_finite sx m e') \/
  (binary_round_aux Float.prec Float.emax sx (Z.pos p) e l = S754_infinity sx /\
   970 < Float.shifted_exp (Zdigits2 (Z.pos p)) e).
Proof.
  intros He. unfold binary_round_aux.
  pose proof (shr_fexp_spec p e l) as [He1 Hm1].
  pose proof (shr_fexp_mantissa_bounds p e He) as [Hpos Hlt].
  destruct (shr_fexp Float.prec Float.emax (Z.pos p) e l) as [mrs1 e1].
  simpl fst in Hm1; simpl snd in He1. cbv zeta in Hpos, Hlt.
  rewrite <- He1 in Hm1, Hpos, Hlt. rewrite <- Hm1 in Hpos, Hlt.
  pose proof (round_nearest_even_bounds (shr_m mrs1) (loc_of_shr_record mrs1)) as Hr.
  destruct (round_nearest_even (shr_m mrs1) (loc_of_shr_record mrs1)) as [| p2 | p2] eqn:Er;
    [lia | | lia].
  assert (He1e : e <= e1) by (rewrite He1; unfold Float.shifted_exp; lia).
  pose proof (shr_fexp_spec p2 e1 loc_Exact) as [He2 Hm2].
  pose proof (shr_fexp_mantissa_bounds p2 e1 ltac:(lia)) as [Hpos2 _].
  destruct (shr_fexp Float.prec Float.emax (Z.pos p2) e1 loc_Exact) as [mrs2 e2].
  simpl fst in Hm2; simpl snd in He2. cbv zeta in Hpos2.
  rewrite <- He2 in Hm2, Hpos2. rewrite <- Hm2 in Hpos2.
  destruct (shr_m mrs2) as [| m2 | m2]; [lia | | lia].
  change (Float.emax - Float.prec) with 971.
  destruct (Z.leb_spec e2 971) as [Hle | Hgt]; [left; eauto |].
  right. split; [reflexivity |].
  (* the rounded mantissa has at most 54 bits, so the exponent grew by at most one *)
  assert (Hp2 : Z.pos p2 <= 2 ^ 53).
  { assert (H53 : Zdigits2 (Z.pos p) + e - e1 <= 53)
      by (rewrite He1; unfold Float.shifted_exp; lia).
    assert (2 ^ (Zdigits2 (Z.pos p) + e - e1) <= 2 ^ 53)
      by (apply Z.pow_le_mono_r; lia).
    lia. }
  assert (Hd2 : Zdigits2 (Z.pos p2) <= 54).
  { rewrite Zdigits2_log2.
    assert (Z.log2 (Z.pos p2) <= Z.log2 (2 ^ 53)) by (apply Z.log2_le_mono; lia).
    rewrite Z.log2_pow2 in H by lia. lia. }
  rewrite He1 in He2. unfold Float.shifted_exp in He2 |- *. lia.
Qed.

Lemma digits2_pos_iter_xO (m k : positive) :
  Z.pos (digits2_pos (Pos.iter xO m k)) = Z.pos (digits2_pos m) + Z.pos k.
Proof.
  induction k as [| k IH] using Pos.peano_ind.
  - simpl. lia.
  - rewrite Pos.iter_succ. simpl digits2_pos. lia.
Qed.

(** [float(z)] of a non-zero integer is a non-zero finite number or an
    infinity; it is finite when [z] has at most 1023 bits. *)
Lemma of_Z_pos (sx : bool) (p : positive) :
  (exists m e, binary_round Float.prec Float.emax sx p 0 = S754_finite sx m e) \/
  (binary_round Float.prec Float.emax sx p 0 = S754_infinity sx /\
   1023 < Zdigits2 (Z.pos p)).
Proof.
  unfold binary_round. rewrite fexp_unfold.
  pose proof (Zdigits2_pos p) as Hd. simpl Zdigits2 in Hd.
  unfold shl_align.
  destruct (Z.max (Z.pos (digits2_pos p) + 0 - 53) (-1074) - 0) as [| k | k] eqn:Ek.
  - destruct (binary_round_aux_pos sx p 0 loc_Exact ltac:(lia)) as [H | [H Hlt]];
      [left; exact H | right; split; [exact H |]].
    unfold Float.shifted_exp in Hlt. simpl Zdigits2 in *. lia.
  - destruct (binary_round_aux_pos sx p 0 loc_Exact ltac:(lia)) as [H | [H Hlt]];
      [left; exact H | right; split; [exact H |]].
    unfold Float.shifted_exp in Hlt. simpl Zdigits2 in *. lia.
  - destruct (binary_round_aux_pos sx (Pos.iter xO p k)
                (Z.max (Z.pos (digits2_pos p) + 0 - 53) (-1074)) loc_Exact ltac:(lia))
      as [H | [H Hlt]]; [left; exact H | right; split; [exact H |]].
    unfold Float.shifted_exp in Hlt. simpl Zdigits2 in *.
    rewrite digits2_pos_iter_xO in Hlt. lia.
Qed.

Lemma of_int_zero : Float.of_int 0 = Ok (S754_zero false).
Proof. reflexivity. Qed.

Lemma of_int_nonzero (z : Z) (f : Float.float) :
  z <> 0 -> Float.of_int z = Ok f -> exists s m e, f = S754_finite s m e.
Proof.
  intros Hz. unfold Float.of_int, Float.of_Z, binary_normalize.
  destruct z as [| p | p]; [congruence | |].
  - destruct (of_Z_pos false p) as [(m & e & ->) | [-> _]]; [| discriminate].
    intros [= <-]. eauto.
  - destruct (of_Z_pos true p) as [(m & e & ->) | [-> _]]; [| discriminate].
    intros [= <-]. eauto.
Qed.

Lemma of_int_small (z : Z) :
  Z.abs z < 2 ^ 1023 -> exists f, Float.of_int z = Ok f.
Proof.
  intros Hz. unfold Float.of_int, Float.of_Z, binary_normalize.
  destruct z as [| p | p]; [eauto | |].
  - destruct (of_Z_pos false p) as [(m & e & ->) | [_ Hd]]; [eauto |].
    rewrite Zdigits2_log2 in Hd.
    assert (Z.log2 (Z.pos p) < 1023) by (apply Z.log2_lt_pow2; lia). lia.
  - destruct (of_Z_pos true p) as [(m & e & ->) | [_ Hd]]; [eauto |].
    rewrite Zdigits2_log2 in Hd.
    assert (Z.log2 (Z.pos p) < 1023) by (apply Z.log2_lt_pow2; lia). lia.
Qed.

End FloatFacts.

(** ** Runs and their events *)

Section Exec.
Context {D : Driver}.

Lemma extends_refl (w : world D) : extends w w [].
Proof. unfold extends. rewrite app_nil_r. auto. Qed.

Lemma extends_trans (w w1 w2 : world D) (evs1 evs2 : list event) :
  extends w w1 evs1 -> extends w1 w2 evs2 -> extends w w2 (evs1 ++ evs2).
Proof.
  unfold extends. intros (Ht & Hh & Hf & Hs) (Ht' & Hh' & Hf' & Hs').
  rewrite Ht', Ht, app_assoc. repeat split; congruence.
Qed.

Lemma extends_log (w : world D) (d : dstate D) (ev : event) :
  extends w (log ev (with_dev d w)) [ev].
Proof. unfold extends. simpl. auto. Qed.

Lemma events_since_extends (w w' : world D) (evs : list event) :
  extends w w' evs -> events_since w w' = evs.
Proof.
  intros (Ht & _). unfold events_since. rewrite Ht. apply drop_app_length.
Qed.

Lemma events_of_extends {A} (m : M D A) (w w' : world D) r evs :
  m w = (r, w') -> extends w w' evs -> events_of m w = evs.
Proof.
  intros Hm He. unfold events_of. rewrite Hm. simpl.
  apply events_since_extends, He.
Qed.

Lemma emits_weaken {A} (m : M D A) (P Q : result A -> list event -> Prop) :
  emits m P -> (forall r evs, P r evs -> Q r evs) -> emits m Q.
Proof.
  intros Hm HPQ w. destruct (Hm w) as (r & w' & evs & Hr & He & HP).
  exists r, w', evs. auto.
Qed.

Lemma emits_lift {A} (r0 : result A) :
  emits (D:=D) (lift r0) (fun r evs => r = r0 /\ evs = []).
Proof. intros w. exists r0, w, []. split; [reflexivity |]. split; [apply extends_refl | auto]. Qed.

Lemma emits_ret {A} (a : A) :
  emits (D:=D) (ret a) (fun r evs => r = Ok a /\ evs = []).
Proof. apply (emits_lift (Ok a)). Qed.

Lemma emits_print (m : message) :
  emits (D:=D) (print m) (fun r evs => r = Ok tt /\ evs = []).
Proof.
  intros w. eexists _, _, []. split; [reflexivity |].
  split; [| auto]. unfold extends. simpl. rewrite app_nil_r. auto.
Qed.

Lemma emits_set (p : prop) (v : pyval) :
  emits (D:=D) (cam_set p v) (fun r evs => evs = [EvSet p v r]).
Proof.
  intros w. unfold cam_set. destruct (drv_set D p v (dev w)) as [r d].
  eexists _, _, _. split; [reflexivity |]. split; [apply extends_log | reflexivity].
Qed.

Lemma emits_get (p : prop) :
  emits (D:=D) (cam_get p) (fun r evs => evs = [EvGet p r]).
Proof.
  intros w. unfold cam_get. destruct (drv_get D p (dev w)) as [r d].
  eexists _, _, _. split; [reflexivity |]. split; [apply extends_log | reflexivity].
Qed.

Lemma emits_next :
  emits (D:=D) cam_next (fun r evs => evs = [EvNext r]).
Proof.
  intros w. unfold cam_next. destruct (drv_next D (dev w)) as [r d].
  eexists _, _, _. split; [reflexivity |]. split; [apply extends_log | reflexivity].
Qed.

(** Sequencing: the events of the continuation follow those of the first
    computation, and an exception of the first one ends the run. *)
Lemma emits_bind {A B} (m : M D A) (k : A -> M D B)
    (P : result A -> list event -> Prop)
    (Q : A -> result B -> list event -> Prop)
    (R : result B -> list event -> Prop) :
  emits m P ->
  (forall a, emits (k a) (Q a)) ->
  (forall e evs, P (Raise e) evs -> R (Raise e) evs) ->
  (forall a evs1 r evs2, P (Ok a) evs1 -> Q a r evs2 -> R r (evs1 ++ evs2)) ->
  emits (D:=D) (bind m k) R.
Proof.
  intros Hm Hk Hraise Hok w. unfold bind.
  destruct (Hm w) as (r1 & w1 & evs1 & -> & He1 & HP).
  destruct r1 as [a | e].
  - destruct (Hk a w1) as (r2 & w2 & evs2 & -> & He2 & HQ).
    exists r2, w2, (evs1 ++ evs2). split; [reflexivity |].
    split; [eapply extends_trans; eauto | eauto].
  - exists (Raise e), w1, evs1. auto.
Qed.

(** [try ... finally]: the events of the [finally] block follow those of the
    body whatever its outcome. *)
Lemma emits_try_finally {A} (body : M D A) (fin : M D unit)
    (P : result A -> list event -> Prop)
    (Q : result unit -> list event -> Prop) :
  emits body P -> emits fin Q ->
  emits (D:=D) (try_finally body fin)
    (fun r evs => exists r1 evs1 r2 evs2,
         evs = evs1 ++ evs2 /\ P r1 evs1 /\ Q r2 evs2 /\
         r = match r2 with Ok _ => r1 | Raise e => Raise e end).
Proof.
  intros Hb Hf w. unfold try_finally.
  destruct (Hb w) as (r1 & w1 & evs1 & -> & He1 & HP).
  destruct (Hf w1) as (r2 & w2 & evs2 & -> & He2 & HQ).
  exists (match r2 with Ok _ => r1 | Raise e => Raise e end), w2, (evs1 ++ evs2).
  split; [destruct r2; reflexivity |].
  split; [eapply extends_trans; eauto |].
  exists r1, evs1, r2, evs2. auto.
Qed.

End Exec.

(** ** The events of each step of [capture] *)

Section Steps.
Context {D : Driver}.

(** Sequencing, with the strongest description of the outcome. *)
Lemma emits_seq {A B} (m : M D A) (k : A -> M D B)
    (P : result A -> list event -> Prop)
    (Q : A -> result B -> list event -> Prop) :
  emits m P ->
  (forall a, emits (k a) (Q a)) ->
  emits (bind m k)
    (fun r evs =>
       (exists e, r = Raise e /\ P (Raise e) evs) \/
       (exists a evs1 evs2, evs = evs1 ++ evs2 /\ P (Ok a) evs1 /\ Q a r evs2)).
Proof.
  intros Hm Hk. eapply emits_bind; [exact Hm | exact Hk | |].
  - intros e evs HP. left. eauto.
  - intros a evs1 r evs2 HP HQ. right. eauto 8.
Qed.

Lemma calls_in_nil (cs : list call) : calls_in cs [].
Proof. constructor. Qed.

Lemma calls_in_app (cs : list call) (evs1 evs2 : list event) :
  calls_in cs evs1 -> calls_in cs evs2 -> calls_in cs (evs1 ++ evs2).
Proof. unfold calls_in. rewrite Forall_app. auto. Qed.

Lemma calls_in_cons (cs : list call) (ev : event) (evs : list event) :
  call_of ev ∈ cs -> calls_in cs evs -> calls_in cs (ev :: evs).
Proof. intros. constructor; assumption. Qed.

Lemma calls_in_mono (cs cs' : list call) (evs : list event) :
  cs ⊆ cs' -> calls_in cs evs -> calls_in cs' evs.
Proof.
  intros Hsub Hin. unfold calls_in. eapply Forall_impl; [exact Hin |].
  intros ev. apply Hsub.
Qed.

Lemma writes_app (p : prop) (evs1 evs2 : list event) :
  writes p (evs1 ++ evs2) = writes p evs1 ++ writes p evs2.
Proof. apply flat_map_app. Qed.

Lemma pulled_app (evs1 evs2 : list event) :
  pulled (evs1 ++ evs2) = pulled evs1 ++ pulled evs2.
Proof. apply flat_map_app. Qed.

Lemma writes_calls_in (p : prop) (cs : list call) (evs : list event) :
  CSet p ∉ cs -> calls_in cs evs -> writes p evs = [].
Proof.
  intros Hp. induction 1 as [| ev evs Hev _ IH]; [reflexivity |].
  simpl. rewrite IH, app_nil_r.
  destruct ev as [| | q v r |]; try reflexivity.
  case_bool_decide; [subst q; contradiction | reflexivity].
Qed.

Lemma pulled_calls_in (cs : list call) (evs : list event) :
  CNext ∉ cs -> calls_in cs evs -> pulled evs = [].
Proof.
  intros Hp. induction 1 as [| ev evs Hev _ IH]; [reflexivity |].
  simpl. rewrite IH, app_nil_r.
  destruct ev; try reflexivity. contradiction.
Qed.

Lemma pulled_map_next (rs : list (result (frame * pyval))) :
  pulled (map EvNext rs) = rs.
Proof. induction rs as [| r rs IH]; simpl; congruence. Qed.

Lemma count_app (f : event -> bool) (evs1 evs2 : list event) :
  count f (evs1 ++ evs2) = (count f evs1 + count f evs2)%nat.
Proof. unfold count. rewrite filter_app, length_app. reflexivity. Qed.

Lemma count_calls_in (f : event -> bool) (cs : list call) (evs : list event) :
  (forall ev, call_of ev ∈ cs -> f ev = false) ->
  calls_in cs evs -> count f evs = 0%nat.
Proof.
  intros Hf. induction 1 as [| ev evs Hev _ IH]; [reflexivity |].
  unfold count in *. rewrite filter_cons.
  destruct (decide (f ev = true)) as [Ht | _]; [| exact IH].
  rewrite Hf in Ht by assumption. discriminate.
Qed.

End Steps.

Ltac emits_sp :=
  lazymatch goal with
  | |- emits (bind _ _) _ =>
      eapply emits_seq; [emits_sp | intros ?; cbv beta; emits_sp]
  | |- emits (cam_set _ _) _ => apply emits_set
  | |- emits (cam_get _) _ => apply emits_get
  | |- emits cam_next _ => apply emits_next
  | |- emits (lift _) _ => apply emits_lift
  | |- emits (ret _) _ => apply emits_ret
  | |- emits (print _) _ => apply emits_print
  end.

Ltac sp_cases :=
  cbv beta in *;
  repeat match goal with
         | H : _ \/ _ |- _ => destruct H
         | H : exists _, _ |- _ => destruct H
         | H : _ /\ _ |- _ => destruct H
         | H : Raise _ = Ok _ |- _ => discriminate H
         | H : Ok _ = Raise _ |- _ => discriminate H
         end;
  subst; simpl in *.

Ltac calls_in_solve :=
  repeat first
    [ apply calls_in_nil
    | apply calls_in_cons; [simpl; set_solver |]
    | apply calls_in_app ].

(** Refutes a membership in a list of calls that computation denies. *)
Ltac absurd_elem H :=
  apply (bool_decide_pack _) in H; vm_compute in H; destruct H.

Section CaptureSteps.
Context {D : Driver}.

Lemma set_pixelclock_emits (exposure_us : Z) :
  emits (D:=D) (set_pixelclock exposure_us)
    (fun _ evs => calls_in [CGet PixelclockRange; CSet Pixelclock] evs).
Proof.
  unfold set_pixelclock. destruct (1000 <? exposure_us).
  - eapply emits_weaken; [emits_sp |].
    intros r evs H. sp_cases; calls_in_solve.
  - eapply emits_weaken; [emits_sp |].
    intros r evs H. sp_cases; calls_in_solve.
Qed.

(** The frame rate is assigned at most once, and always with the value of
    [framerate]. *)
Lemma set_framerate_emits (exposure_us : Z) :
  emits (D:=D) (set_framerate exposure_us)
    (fun r evs =>
       (exists e, framerate exposure_us = Raise e /\ r = Raise e /\ evs = []) \/
       (exists fr r0, framerate exposure_us = Ok fr /\
                      evs = [EvSet Framerate fr r0] /\ r = r0)).
Proof.
  unfold set_framerate. eapply emits_weaken; [emits_sp |].
  intros r evs H. sp_cases; eauto 8.
Qed.

Lemma set_exposure_gain_emits (exposure_us gain : Z) (gain_boost : bool) :
  emits (D:=D) (set_exposure_gain exposure_us gain gain_boost)
    (fun _ evs => calls_in [CSet Exposure; CSet Gain; CSet GainBoost] evs).
Proof.
  unfold set_exposure_gain. eapply emits_weaken; [emits_sp |].
  intros r evs H. sp_cases; calls_in_solve.
Qed.

(** Line 107 reads the exposure, then the gain, and returns what it read. *)
Lemma read_back_emits (img : image) :
  emits (D:=D) (read_back img)
    (fun r evs =>
       calls_in read_back_calls evs /\
       forall c, r = Ok c ->
         exists e_ms,
           evs = [EvGet Exposure (Ok e_ms); EvGet Gain (Ok (snd c))] /\
           Py.mul_float e_ms Float.f_1e3 = Ok (snd (fst c)) /\
           fst (fst c) = img).
Proof.
  unfold read_back. eapply emits_weaken; [emits_sp |].
  intros r evs H. unfold read_back_calls.
  sp_cases; (split; [calls_in_solve |]); intros c Hc; try discriminate.
  injection Hc as <-. simpl. eauto.
Qed.

End CaptureSteps.

(** ** Acquisition *)

Section Acquisition.
Context {D : Driver}.

Lemma length_range (n : Z) : length (Py.range n) = Z.to_nat n.
Proof. unfold Py.range. rewrite length_map, length_seq. reflexivity. Qed.

Lemma pull_one_emits (imgs : list frame) :
  emits (D:=D) (fm <- cam_next ;; ret (imgs ++ [fst fm]))
    (fun r evs =>
       exists rn, evs = [EvNext rn] /\
                  r = match rn with
                      | Ok fm => Ok (imgs ++ [fst fm])
                      | Raise x => Raise x
                      end).
Proof.
  eapply emits_weaken; [emits_sp |].
  intros r evs [(e & -> & ->) | (a & evs1 & evs2 & -> & -> & -> & ->)].
  - exists (Raise e). auto.
  - exists (Ok a). auto.
Qed.

(** The loop of lines 95 to 97 pulls one frame per iteration and stops at
    the first pull that raises. *)
Lemma pull_loop_emits (xs : list Z) (imgs : list frame) :
  emits (D:=D)
    (for_each xs (fun imgs _ => fm <- cam_next ;; ret (imgs ++ [fst fm])) imgs)
    (fun r evs =>
       (exists oks, evs = map EvNext (map Ok oks) /\ length oks = length xs /\
                    r = Ok (imgs ++ map fst oks)) \/
       (exists oks x, evs = map EvNext (map Ok oks ++ [Raise x]) /\
                      (length oks < length xs)%nat /\ r = Raise x)).
Proof.
  revert imgs. induction xs as [| x xs IH]; intros imgs; simpl for_each.
  - eapply emits_weaken; [apply emits_ret |].
    intros r evs [-> ->]. left. exists []. rewrite app_nil_r. auto.
  - eapply emits_weaken.
    + eapply emits_seq; [apply pull_one_emits | intros a; apply IH].
    + cbv beta.
      intros r evs [(e & -> & rn & -> & Hr) | (a & evs1 & evs2 & -> & (rn & -> & Hr) & HQ)].
      * destruct rn as [fm | y]; [discriminate |]. injection Hr as <-.
        right. exists [], e. simpl. split; [reflexivity |]. split; [lia | reflexivity].
      * destruct rn as [fm | y]; [| discriminate]. injection Hr as ->.
        destruct HQ as [(oks & -> & Hlen & ->) | (oks & y & -> & Hlen & ->)].
        -- left. exists (fm :: oks). simpl. rewrite <- app_assoc.
           split; [reflexivity |]. split; [congruence | reflexivity].
        -- right. exists (fm :: oks), y. simpl.
           split; [reflexivity |]. split; [lia | reflexivity].
Qed.

(** Lines 91 to 100: the pulls, then the disable, whatever the pulls did. *)
Lemma pull_frames_emits (average : Z) :
  emits (D:=D) (pull_frames average)
    (fun r evs =>
       exists rs rd body,
         evs = map EvNext rs ++ [disable rd] /\
         pulls_outcome average rs body /\
         r = match rd with Ok _ => body | Raise e => Raise e end).
Proof.
  unfold pull_frames. eapply emits_weaken.
  - apply emits_try_finally; [| apply emits_set].
    eapply emits_seq; [apply emits_next | intros a; apply pull_loop_emits].
  - cbv beta. intros r evs (body & evs1 & rd & evs2 & -> & Hbody & -> & ->).
    unfold pulls_outcome.
    destruct Hbody as [(e & -> & ->) | (warm & evs3 & evs4 & -> & -> & Hloop)].
    + exists [Raise e], rd, (Raise e). split; [reflexivity |].
      split; [| reflexivity]. right. exists [], e. simpl.
      split; [reflexivity |]. split; [lia | reflexivity].
    + destruct Hloop as [(oks & -> & Hlen & ->) | (oks & y & -> & Hlen & ->)];
        rewrite length_range in Hlen.
      * exists (map Ok (warm :: oks)), rd, (Ok (map fst oks)).
        split; [reflexivity |]. split; [| reflexivity]. left. eauto.
      * exists (map Ok (warm :: oks) ++ [Raise y]), rd, (Raise y).
        split; [simpl; rewrite map_app; reflexivity |].
        split; [| reflexivity]. right. exists (warm :: oks), y.
        simpl. split; [reflexivity |]. split; [lia | reflexivity].
Qed.

(** Lines 90 to 107 *)
Lemma acquire_emits (average : Z) :
  emits (D:=D) (acquire average) (acquired average).
Proof.
  unfold acquire. eapply emits_weaken.
  - eapply emits_seq; [apply emits_set | intros ?].
    eapply emits_seq; [apply pull_frames_emits | intros imgs].
    eapply emits_seq; [apply emits_lift | intros img; apply read_back_emits].
  - cbv beta. unfold acquired.
    intros r evs [(e & -> & ->) | ([] & evs1 & evs2 & -> & -> & Hrest)];
      [left; eauto |]. right.
    destruct Hrest as [(e & -> & rs & rd & body & -> & Hpulls & Hr)
                      | (imgs & evs3 & evs4 & -> & (rs & rd & body & -> & Hpulls & Hr) & Hrest)].
    + exists rs, rd, body, []. split; [reflexivity |].
      split; [exact Hpulls |]. split; [apply calls_in_nil |].
      destruct rd as [u | x]; [| injection Hr as ->; auto].
      subst body. auto.
    + destruct rd as [u | x]; [| discriminate]. subst body.
      destruct Hrest as [(e & -> & Hred & ->) | (img & evs5 & evs6 & -> & (Hred & ->) & Hcalls & Hback)].
      * exists rs, (Ok u), (Ok imgs), []. split; [rewrite <- app_assoc; reflexivity |].
        split; [exact Hpulls |]. split; [apply calls_in_nil |]. intros c [=].
      * exists rs, (Ok u), (Ok imgs), evs6.
        split; [rewrite <- app_assoc; reflexivity |].
        split; [exact Hpulls |]. split; [exact Hcalls |].
        intros c Hc. destruct (Hback c Hc) as (e_ms & -> & Hmul & Himg).
        exists e_ms. rewrite Himg. auto.
Qed.

(** Lines 63 to 85 *)
Lemma configure_emits (exposure_us gain : Z) (gain_boost : bool) {A} (k : M D A)
    (P : result A -> list event -> Prop) :
  emits k P ->
  emits (D:=D)
    (set_pixelclock exposure_us ;; set_framerate exposure_us ;;
     set_exposure_gain exposure_us gain gain_boost ;; k)
    (fun r evs =>
       exists conf, calls_in config_calls conf /\
                    ((evs = conf /\ is_ok r = false) \/
                     (exists rest, evs = conf ++ rest /\ P r rest))).
Proof.
  intros Hk. eapply emits_weaken.
  - eapply emits_seq; [apply set_pixelclock_emits | intros ?].
    eapply emits_seq; [apply set_framerate_emits | intros ?].
    eapply emits_seq; [apply set_exposure_gain_emits | intros ?; exact Hk].
  - cbv beta.
    assert (Hpc : forall evs, calls_in [CGet PixelclockRange; CSet Pixelclock] evs ->
                              calls_in config_calls evs)
      by (intros evs; apply calls_in_mono; unfold config_calls;
          apply (bool_decide_unpack _); reflexivity).
    assert (Heg : forall evs, calls_in [CSet Exposure; CSet Gain; CSet GainBoost] evs ->
                              calls_in config_calls evs)
      by (intros evs; apply calls_in_mono; unfold config_calls;
          apply (bool_decide_unpack _); reflexivity).
    assert (Hfr : forall fr r0, calls_in config_calls [EvSet Framerate fr r0])
      by (intros; unfold config_calls; calls_in_solve).
    intros r evs [(e & -> & H1) | (u1 & evs1 & evs2 & -> & H1 & H2)].
    { exists evs. split; [auto |]. left. auto. }
    destruct H2 as [(e & -> & H2) | (u2 & evs3 & evs4 & -> & H2 & H3)].
    { exists (evs1 ++ evs2). split; [| left; auto].
      apply calls_in_app; [auto |].
      destruct H2 as [(e' & _ & _ & ->) | (fr & r0 & _ & -> & _)];
        [apply calls_in_nil | apply Hfr]. }
    assert (Hc2 : calls_in config_calls evs3).
    { destruct H2 as [(e' & _ & [=] & _) | (fr & r0 & _ & -> & _)]. apply Hfr. }
    destruct H3 as [(e & -> & H3) | (u3 & evs5 & evs6 & -> & H3 & H4)].
    { exists (evs1 ++ evs3 ++ evs4). split; [| left; auto].
      repeat apply calls_in_app; auto. }
    exists (evs1 ++ evs3 ++ evs5). split; [repeat apply calls_in_app; auto |].
    right. exists evs6. rewrite <- !app_assoc. auto.
Qed.

(** Every run of [capture] has the shape [captured_shape]. *)
Lemma capture_emits (exposure_us gain : Z) (gain_boost : bool) (average : Z) :
  emits (D:=D) (capture exposure_us gain gain_boost average)
    (captured_shape average).
Proof.
  unfold capture. eapply emits_weaken.
  - apply configure_emits, acquire_emits.
  - intros r evs H. exact H.
Qed.

End Acquisition.

(** ** Claims about the stream bracket *)

Section Bracket.
Context {D : Driver}.

Lemma calls_in_elem (cs : list call) (evs : list event) (ev : event) :
  calls_in cs evs -> ev ∈ evs -> call_of ev ∈ cs.
Proof. unfold calls_in. rewrite Forall_forall. auto. Qed.

Lemma count_map_next (f : event -> bool) (rs : list (result (frame * pyval))) :
  (forall r, f (EvNext r) = false) -> count f (map EvNext rs) = 0%nat.
Proof.
  intros Hf. induction rs as [| r rs IH]; [reflexivity |].
  simpl. unfold count in *. rewrite filter_cons.
  destruct (decide (f (EvNext r) = true)) as [Ht | _]; [| exact IH].
  rewrite Hf in Ht. discriminate.
Qed.

Lemma config_not_stream (ev : event) :
  call_of ev ∈ config_calls ->
  is_disable ev = false /\ is_enable ev = false /\ is_pull ev = false.
Proof.
  unfold config_calls. intros Hin.
  destruct ev as [| p r | p v r |]; try destruct p; simpl in *;
    first [ solve [repeat split; reflexivity] | absurd_elem Hin ].
Qed.

Lemma read_back_not_stream (ev : event) :
  call_of ev ∈ read_back_calls ->
  is_disable ev = false /\ is_enable ev = false /\ is_pull ev = false.
Proof.
  unfold read_back_calls. intros Hin.
  destruct ev as [| p r | p v r |]; try destruct p; simpl in *;
    first [ solve [repeat split; reflexivity] | absurd_elem Hin ].
Qed.

Lemma pulls_outcome_nonempty average rs body :
  pulls_outcome average rs body -> rs <> [].
Proof.
  intros [(warm & oks & -> & _) | (oks & x & -> & _)]; [discriminate |].
  destruct oks; discriminate.
Qed.

Lemma pulls_outcome_raise average rs body x :
  pulls_outcome average rs body -> Raise x ∈ rs -> exists y, body = Raise y.
Proof.
  intros [(warm & oks & -> & _) | (oks & y & -> & _ & ->)] Hin; [| eauto].
  apply list_elem_of_In, in_map_iff in Hin as (fm & [=] & _).
Qed.

Lemma count_config (f : event -> bool) (evs : list event) :
  (forall ev, call_of ev ∈ config_calls -> f ev = false) ->
  calls_in config_calls evs -> count f evs = 0%nat.
Proof. apply count_calls_in. Qed.

(** C2 (as amended).  In every call of [capture] in which enabling continuous
    capture returns, the driver sees configuration calls, the enable, at least
    one frame pull, the disable, and then only the reads of line 107: the
    enable precedes every pull, every pull precedes the disable, and the
    disable happens exactly once; when a pull raises, the disable is the last
    driver call and the call of [capture] raises.  In every other call (an
    exception during configuration, or in the enable itself) no frame is
    pulled and continuous capture is not disabled. *)
Theorem capture_stream_bracket (w : world D)
    (exposure_us gain : Z) (gain_boost : bool) (average : Z) :
  let run := capture exposure_us gain gain_boost average w in
  let evs := events_of (capture exposure_us gain gain_boost average) w in
  (enable (Ok tt) ∈ evs ->
   bracketed evs /\
   count is_enable evs = 1%nat /\
   count is_disable evs = 1%nat /\
   (forall x, EvNext (Raise x) ∈ evs ->
              is_ok (fst run) = false /\ exists pre rd, evs = pre ++ [disable rd])) /\
  (enable (Ok tt) ∉ evs ->
   pulled evs = [] /\ count is_disable evs = 0%nat /\ is_ok (fst run) = false).
Proof.
  intros run evs. subst run evs.
  destruct (capture_emits exposure_us gain gain_boost average w)
    as (r & w' & evs & Hrun & Hext & conf & Hconf & Hshape).
  rewrite (events_of_extends _ _ _ _ _ Hrun Hext). rewrite Hrun. simpl fst.
  assert (Hnot : enable (Ok tt) ∉ conf).
  { intros Hin. apply (calls_in_elem _ _ _ Hconf) in Hin.
    unfold config_calls in Hin. simpl in Hin. absurd_elem Hin. }
  assert (Hcd : count is_disable conf = 0%nat)
    by (apply count_config; [intros ev Hev; apply config_not_stream, Hev | exact Hconf]).
  assert (Hce : count is_enable conf = 0%nat)
    by (apply count_config; [intros ev Hev; apply config_not_stream, Hev | exact Hconf]).
  assert (Hcp : pulled conf = []).
  { eapply pulled_calls_in; [| exact Hconf]. unfold config_calls.
    intros Hin. absurd_elem Hin. }
  destruct Hshape as [[-> Hr] | (acq & -> & [(x & -> & ->) | Hacq])].
  - split; [intros Hin; contradiction | auto].
  - split.
    + intros Hin. apply elem_of_app in Hin as [Hin | Hin]; [contradiction |].
      apply list_elem_of_singleton in Hin. discriminate Hin.
    + intros _. rewrite pulled_app, count_app, Hcp, Hcd. auto.
  - destruct Hacq as (rs & rd & body & post & -> & Hpulls & Hpost & Hout).
    split; [intros _ | intros Hn; exfalso; apply Hn; set_solver].
    assert (Hpd : count is_disable post = 0%nat)
      by (apply (count_calls_in _ read_back_calls);
          [intros ev Hev; apply read_back_not_stream, Hev | exact Hpost]).
    assert (Hpe : count is_enable post = 0%nat)
      by (apply (count_calls_in _ read_back_calls);
          [intros ev Hev; apply read_back_not_stream, Hev | exact Hpost]).
    split; [| split; [| split]].
    + exists conf, rs, rd, post. split; [reflexivity |].
      split; [eapply pulls_outcome_nonempty; eauto | auto].
    + change (enable (Ok ()) :: map EvNext rs ++ disable rd :: post)
        with ([enable (Ok ())] ++ map EvNext rs ++ [disable rd] ++ post).
      rewrite !count_app, Hce, Hpe, count_map_next by reflexivity. reflexivity.
    + change (enable (Ok ()) :: map EvNext rs ++ disable rd :: post)
        with ([enable (Ok ())] ++ map EvNext rs ++ [disable rd] ++ post).
      rewrite !count_app, Hcd, Hpd, count_map_next by reflexivity. reflexivity.
    + intros x Hin.
      assert (Hrs : Raise x ∈ rs).
      { apply elem_of_app in Hin as [Hin | Hin].
        - apply (calls_in_elem _ _ _ Hconf) in Hin.
          unfold config_calls in Hin. simpl in Hin. absurd_elem Hin.
        - apply elem_of_cons in Hin as [Hin | Hin]; [discriminate Hin |].
          apply elem_of_app in Hin as [Hin | Hin].
          + apply list_elem_of_In, in_map_iff in Hin as (r0 & [= ->] & Hin).
            apply list_elem_of_In, Hin.
          + apply elem_of_cons in Hin as [Hin | Hin]; [discriminate Hin |].
            apply (calls_in_elem _ _ _ Hpost) in Hin.
            unfold read_back_calls in Hin. simpl in Hin. absurd_elem Hin. }
      destruct (pulls_outcome_raise _ _ _ _ Hpulls Hrs) as (y & ->).
      assert (Hend : is_ok r = false /\ post = []).
      { destruct rd as [u | z]; destruct Hout as [-> ->]; auto. }
      destruct Hend as [Hr ->]. split; [exact Hr |].
      exists (conf ++ enable (Ok ()) :: map EvNext rs), rd.
      rewrite <- app_assoc. reflexivity.
Qed.

End Bracket.

(** ** Claims about the configuration *)

Lemma bind_ok {D : Driver} {A B} (m : M D A) (k : A -> M D B) w a w1 :
  m w = (Ok a, w1) -> bind m k w = k a w1.
Proof. intros H. unfold bind. rewrite H. reflexivity. Qed.

Lemma bind_raise {D : Driver} {A B} (m : M D A) (k : A -> M D B) w e w1 :
  m w = (Raise e, w1) -> bind m k w = (Raise e, w1).
Proof. intros H. unfold bind. rewrite H. reflexivity. Qed.

(** Runs [capture] along the steps whose outcomes are among the hypotheses. *)
Ltac run_capture :=
  unfold capture;
  repeat first [ erewrite bind_ok by eassumption
               | erewrite bind_raise by eassumption ];
  first [ reflexivity | eassumption ].

Section Configuration.
Context {D : Driver}.

Lemma acquired_calls (average : Z) (r : result captured) (evs : list event) :
  acquired average r evs -> calls_in after_framerate_calls evs.
Proof.
  assert (Hrb : forall post, calls_in read_back_calls post ->
                             calls_in after_framerate_calls post)
    by (intros post; apply calls_in_mono; apply (bool_decide_unpack _); reflexivity).
  assert (Hnext : forall rs, calls_in after_framerate_calls (map EvNext rs)).
  { intros rs. unfold calls_in. apply Forall_forall. intros ev Hin.
    apply list_elem_of_In, in_map_iff in Hin as (r0 & <- & _).
    apply (bool_decide_unpack _). reflexivity. }
  unfold after_framerate_calls in *.
  intros [(x & -> & _) | (rs & rd & body & post & -> & _ & Hpost & _)].
  - calls_in_solve.
  - apply calls_in_cons; [apply (bool_decide_unpack _); reflexivity |].
    apply calls_in_app; [apply Hnext |].
    apply calls_in_cons; [apply (bool_decide_unpack _); reflexivity | auto].
Qed.

(** Lines 83 to 107 *)
Lemma after_framerate_emits (exposure_us gain : Z) (gain_boost : bool) (average : Z) :
  emits (D:=D) (set_exposure_gain exposure_us gain gain_boost ;; acquire average)
    (fun _ evs => calls_in after_framerate_calls evs).
Proof.
  eapply emits_weaken.
  - eapply emits_seq; [apply set_exposure_gain_emits | intros ?; apply acquire_emits].
  - cbv beta.
    assert (Heg : forall evs, calls_in [CSet Exposure; CSet Gain; CSet GainBoost] evs ->
                              calls_in after_framerate_calls evs)
      by (intros evs; apply calls_in_mono; apply (bool_decide_unpack _); reflexivity).
    intros r evs [(e & _ & H) | (u & evs1 & evs2 & -> & H1 & H2)]; [auto |].
    apply calls_in_app; [auto | eapply acquired_calls, H2].
Qed.

(** What follows the pixel clock step: the frame rate is assigned once,
    with the value of [framerate], unless the step or [framerate] raised;
    no later call touches the pixel clock or the frame rate. *)
Lemma capture_after_pixelclock (w : world D)
    (exposure_us gain : Z) (gain_boost : bool) (average : Z) :
  exists fr_evs rest,
    events_of (capture exposure_us gain gain_boost average) w
    = events_of (set_pixelclock exposure_us) w ++ fr_evs ++ rest /\
    calls_in after_framerate_calls rest /\
    match fst (set_pixelclock exposure_us w), framerate exposure_us with
    | Ok _, Ok fr => exists r0, fr_evs = [EvSet Framerate fr r0]
    | _, _ => fr_evs = [] /\ rest = [] /\
              is_ok (fst (capture exposure_us gain gain_boost average w)) = false
    end.
Proof.
  destruct (set_pixelclock_emits exposure_us w) as (r1 & w1 & evs1 & Hrun1 & Hext1 & _).
  rewrite (events_of_extends _ _ _ _ _ Hrun1 Hext1). rewrite Hrun1. simpl fst.
  destruct r1 as [u1 | e1].
  2:{ assert (Hcap : capture exposure_us gain gain_boost average w = (Raise e1, w1))
        by run_capture.
      exists [], []. rewrite (events_of_extends _ _ _ _ _ Hcap Hext1), Hcap.
      rewrite !app_nil_r. split; [reflexivity |]. split; [apply calls_in_nil | auto]. }
  destruct (set_framerate_emits exposure_us w1) as (r2 & w2 & evs2 & Hrun2 & Hext2 & Hfr).
  pose proof (extends_trans _ _ _ _ _ Hext1 Hext2) as Hext12.
  destruct Hfr as [(e & Hfr & -> & ->) | (fr & r0 & Hfr & -> & ->)]; rewrite Hfr.
  { assert (Hcap : capture exposure_us gain gain_boost average w = (Raise e, w2))
      by run_capture.
    exists [], []. rewrite (events_of_extends _ _ _ _ _ Hcap Hext12), Hcap.
    split; [reflexivity |]. split; [apply calls_in_nil | auto]. }
  destruct r0 as [u2 | e2].
  2:{ assert (Hcap : capture exposure_us gain gain_boost average w = (Raise e2, w2))
        by run_capture.
      exists [EvSet Framerate fr (Raise e2)], [].
      rewrite (events_of_extends _ _ _ _ _ Hcap Hext12).
      rewrite app_nil_r. split; [reflexivity |]. split; [apply calls_in_nil | eauto]. }
  destruct (after_framerate_emits exposure_us gain gain_boost average w2)
    as (r3 & w3 & evs3 & Hrun3 & Hext3 & Hcalls).
  assert (Hcap : capture exposure_us gain gain_boost average w = (r3, w3))
    by run_capture.
  exists [EvSet Framerate fr (Ok u2)], evs3.
  rewrite (events_of_extends _ _ _ _ _ Hcap (extends_trans _ _ _ _ _ Hext12 Hext3)).
  rewrite <- app_assoc.
  split; [reflexivity |]. split; [exact Hcalls | eauto].
Qed.

Lemma writes_after_framerate (p : prop) (evs : list event) :
  p = Pixelclock \/ p = Framerate ->
  calls_in after_framerate_calls evs -> writes p evs = [].
Proof.
  intros Hp. apply writes_calls_in. unfold after_framerate_calls.
  intros Hin. destruct Hp as [-> | ->]; absurd_elem Hin.
Qed.

Lemma set_pixelclock_low (w : world D) (exposure_us : Z) :
  exposure_us <= 1000 ->
  exists r0,
    events_of (set_pixelclock exposure_us) w
    = [EvSet Pixelclock (PyInt IDS_MAX_PIXEL_CLOCK) r0] /\
    fst (set_pixelclock exposure_us w) = r0.
Proof.
  intros He. unfold set_pixelclock.
  destruct (Z.ltb_spec 1000 exposure_us) as [Hlt | _]; [lia |].
  unfold events_of, bind, print, cam_set. simpl.
  destruct (drv_set D Pixelclock (PyInt IDS_MAX_PIXEL_CLOCK) (dev w)) as [r0 d].
  exists r0. simpl. unfold events_since. simpl. rewrite drop_app_length. auto.
Qed.

Lemma set_pixelclock_high (w : world D) (exposure_us : Z) r1 d1 lo1 r2 d2 lo2 :
  1000 < exposure_us ->
  drv_get D PixelclockRange (dev w) = (Ok r1, d1) -> Py.index0 r1 = Ok lo1 ->
  drv_get D PixelclockRange d1 = (Ok r2, d2) -> Py.index0 r2 = Ok lo2 ->
  exists r0,
    events_of (set_pixelclock exposure_us) w
    = [EvGet PixelclockRange (Ok r1); EvGet PixelclockRange (Ok r2);
       EvSet Pixelclock lo2 r0].
Proof.
  intros He Hg1 Hi1 Hg2 Hi2. unfold set_pixelclock.
  destruct (Z.ltb_spec 1000 exposure_us) as [_ | Hle]; [| lia].
  unfold events_of, bind, print, cam_get, cam_set, lift. simpl.
  rewrite Hg1, Hi1. simpl. rewrite Hg2, Hi2. simpl.
  destruct (drv_set D Pixelclock lo2 d2) as [r0 d3].
  exists r0. simpl. unfold events_since. simpl.
  rewrite <- !app_assoc. rewrite drop_app_length. reflexivity.
Qed.

(** C3.  In every call of [capture] the pixel clock is assigned exactly
    once: with the constant [IDS_MAX_PIXEL_CLOCK = 30] when
    [exposure_us <= 1000]; and, when [exposure_us > 1000] and the driver
    reports its pixel clock range, with the first element of the range it
    reports to the read of the assignment statement (the second read: the
    first one only feeds the printed line). *)
Theorem capture_pixelclock (w : world D)
    (exposure_us gain : Z) (gain_boost : bool) (average : Z) :
  let evs := events_of (capture exposure_us gain gain_boost average) w in
  (exposure_us <= 1000 -> writes Pixelclock evs = [PyInt 30]) /\
  (1000 < exposure_us ->
   forall r1 d1 lo1 r2 d2 lo2,
     drv_get D PixelclockRange (dev w) = (Ok r1, d1) -> Py.index0 r1 = Ok lo1 ->
     drv_get D PixelclockRange d1 = (Ok r2, d2) -> Py.index0 r2 = Ok lo2 ->
     writes Pixelclock evs = [lo2]).
Proof.
  intros evs. subst evs.
  destruct (capture_after_pixelclock w exposure_us gain gain_boost average)
    as (fr_evs & rest & -> & Hrest & Hfr).
  assert (Hnone : writes Pixelclock (fr_evs ++ rest) = []).
  { rewrite writes_app, (writes_after_framerate Pixelclock rest) by auto.
    destruct (fst (set_pixelclock exposure_us w)); [destruct (framerate exposure_us) |];
      try (destruct Hfr as (-> & _); reflexivity).
    destruct Hfr as (r0 & ->). reflexivity. }
  rewrite writes_app, Hnone, app_nil_r. split.
  - intros He. destruct (set_pixelclock_low w exposure_us He) as (r0 & -> & _).
    reflexivity.
  - intros He r1 d1 lo1 r2 d2 lo2 Hg1 Hi1 Hg2 Hi2.
    destruct (set_pixelclock_high w exposure_us _ _ _ _ _ _ He Hg1 Hi1 Hg2 Hi2)
      as (r0 & ->).
    reflexivity.
Qed.

Lemma writes_framerate_pixelclock_step (w : world D) (exposure_us : Z) :
  writes Framerate (events_of (set_pixelclock exposure_us) w) = [].
Proof.
  destruct (set_pixelclock_emits exposure_us w) as (r1 & w1 & evs1 & Hrun1 & Hext1 & Hc).
  rewrite (events_of_extends _ _ _ _ _ Hrun1 Hext1).
  eapply writes_calls_in; [| exact Hc]. intros Hin. absurd_elem Hin.
Qed.

(** C4.  In every call of [capture] with [exposure_us > 0] for which
    [min(100, 1e6 / exposure_us)] has a value [v], the frame rate is assigned
    exactly once, with [v], provided the pixel clock step did not raise; if
    that step raised, the frame rate is not assigned at all. *)
Theorem capture_framerate (w : world D)
    (exposure_us gain : Z) (gain_boost : bool) (average : Z) (v : pyval) :
  0 < exposure_us ->
  framerate exposure_us = Ok v ->
  let evs := events_of (capture exposure_us gain gain_boost average) w in
  writes Framerate evs
  = if is_ok (fst (set_pixelclock exposure_us w)) then [v] else [].
Proof.
  intros Hpos Hv evs. subst evs.
  destruct (capture_after_pixelclock w exposure_us gain gain_boost average)
    as (fr_evs & rest & -> & Hrest & Hfr).
  rewrite !writes_app, writes_framerate_pixelclock_step.
  rewrite (writes_after_framerate Framerate rest), app_nil_r by auto.
  rewrite Hv in Hfr.
  destruct (fst (set_pixelclock exposure_us w)) as [u | e]; simpl.
  - destruct Hfr as (r0 & ->). reflexivity.
  - destruct Hfr as (-> & _). reflexivity.
Qed.

Lemma of_int_raises (z : Z) (e : exn) :
  Float.of_int z = Raise e -> e = OverflowError.
Proof. unfold Float.of_int. destruct (Float.of_Z z); congruence. Qed.

Lemma framerate_zero : framerate 0 = Raise ZeroDivisionError.
Proof. reflexivity. Qed.

Lemma framerate_defined (exposure_us : Z) (f : Float.float) :
  exposure_us <> 0 -> Float.of_int exposure_us = Ok f ->
  exists v, framerate exposure_us = Ok v.
Proof.
  intros Hz Hf. unfold framerate, Py.truediv_float. rewrite Hf.
  destruct (of_int_nonzero _ _ Hz Hf) as (s & m & e & ->). simpl. eauto.
Qed.

Lemma framerate_not_zero_division (exposure_us : Z) :
  exposure_us <> 0 -> framerate exposure_us <> Raise ZeroDivisionError.
Proof.
  intros Hz. unfold framerate, Py.truediv_float.
  destruct (Float.of_int exposure_us) as [f | e] eqn:Hf.
  - destruct (of_int_nonzero _ _ Hz Hf) as (s & m & e & ->). simpl. discriminate.
  - apply of_int_raises in Hf as ->. discriminate.
Qed.

(** C10 (as amended).  A call of [capture] with [exposure_us == 0] raises; its
    only driver call is the assignment of the pixel clock, so continuous
    capture is never enabled and no frame is pulled; and when that
    assignment returns, the exception is the [ZeroDivisionError] of the frame
    rate computation.  For every [exposure_us != 0] the frame rate computation
    never raises [ZeroDivisionError], and it has a value whenever Python can
    convert [exposure_us] to a float, which is the case at least for every
    [|exposure_us| < 2^1023]. *)
Theorem capture_zero_exposure (w : world D)
    (gain : Z) (gain_boost : bool) (average : Z) :
  let run := capture 0 gain gain_boost average w in
  let evs := events_of (capture 0 gain gain_boost average) w in
  (is_ok (fst run) = false /\
   exists r0, evs = [EvSet Pixelclock (PyInt 30) r0] /\
              (r0 = Ok tt -> fst run = Raise ZeroDivisionError)) /\
  (forall exposure_us, exposure_us <> 0 ->
     framerate exposure_us <> Raise ZeroDivisionError /\
     (forall f, Float.of_int exposure_us = Ok f ->
                exists v, framerate exposure_us = Ok v) /\
     (Z.abs exposure_us < 2 ^ 1023 -> exists v, framerate exposure_us = Ok v)).
Proof.
  intros run evs. subst run evs. split.
  - destruct (capture_after_pixelclock w 0 gain gain_boost average)
      as (fr_evs & rest & -> & Hrest & Hfr).
    destruct (set_pixelclock_low w 0 ltac:(lia)) as (r0 & Hev & Hr0).
    rewrite framerate_zero in Hfr.
    assert (Hend : fr_evs = [] /\ rest = [] /\
                   is_ok (fst (capture 0 gain gain_boost average w)) = false)
      by (destruct (fst (set_pixelclock 0 w)); exact Hfr).
    destruct Hend as (-> & -> & Hraise). split; [exact Hraise |].
    exists r0. rewrite Hev. split; [reflexivity |].
    intros ->. unfold capture.
    destruct (set_pixelclock 0 w) as [r1 w1] eqn:Hpc. simpl in Hr0. subst r1.
    erewrite bind_ok by eassumption. reflexivity.
  - intros exposure_us Hz. split; [apply framerate_not_zero_division, Hz |].
    split; [intros f; apply framerate_defined, Hz |].
    intros Habs. destruct (of_int_small _ Habs) as (f & Hf).
    eapply framerate_defined; eauto.
Qed.

End Configuration.

(** ** Runs against a well-behaved driver *)

Section WellBehaved.
Context {D : Driver} (sh : list nat) (Hwb : well_behaved D sh).

Lemma cam_set_ok (p : prop) (v : pyval) (w : world D) :
  p <> PixelclockRange -> p <> Info ->
  exists w', cam_set p v w = (Ok tt, w') /\ extends w w' [EvSet p v (Ok tt)].
Proof.
  intros Hp1 Hp2. destruct (wb_set D sh Hwb p v (dev w) Hp1 Hp2) as (s' & Hs).
  unfold cam_set. rewrite Hs. eexists. split; [reflexivity | apply extends_log].
Qed.

Lemma cam_get_range_ok (w : world D) :
  exists lo rest w',
    cam_get PixelclockRange w = (Ok (PyTuple (lo :: rest)), w') /\
    extends w w' [EvGet PixelclockRange (Ok (PyTuple (lo :: rest)))].
Proof.
  destruct (wb_range D sh Hwb (dev w)) as (lo & rest & s' & Hs).
  unfold cam_get. rewrite Hs. eexists _, _, _. split; [reflexivity | apply extends_log].
Qed.

Lemma cam_get_exposure_ok (w : world D) :
  exists f w',
    cam_get Exposure w = (Ok (PyFloat f), w') /\
    extends w w' [EvGet Exposure (Ok (PyFloat f))].
Proof.
  destruct (wb_exposure D sh Hwb (dev w)) as (f & s' & Hs).
  unfold cam_get. rewrite Hs. eexists _, _. split; [reflexivity | apply extends_log].
Qed.

Lemma cam_get_gain_ok (w : world D) :
  exists g w',
    cam_get Gain w = (Ok (PyInt g), w') /\
    extends w w' [EvGet Gain (Ok (PyInt g))].
Proof.
  destruct (wb_gain D sh Hwb (dev w)) as (g & s' & Hs).
  unfold cam_get. rewrite Hs. eexists _, _. split; [reflexivity | apply extends_log].
Qed.

Lemma cam_next_ok (w : world D) :
  exists fr meta w',
    cam_next w = (Ok (fr, meta), w') /\
    extends w w' [EvNext (Ok (fr, meta))] /\ shape fr = sh.
Proof.
  destruct (wb_next D sh Hwb (dev w)) as (fr & meta & s' & Hs & Hshape).
  unfold cam_next. rewrite Hs. eexists _, _, _.
  split; [reflexivity |]. split; [apply extends_log | exact Hshape].
Qed.

Lemma extends_print (w : world D) (m : message) :
  exists w', print m w = (Ok tt, w') /\ extends w w' [].
Proof.
  eexists. split; [reflexivity |]. unfold extends. simpl. rewrite app_nil_r. auto.
Qed.

Lemma set_pixelclock_ok (exposure_us : Z) (w : world D) :
  exists w' evs,
    set_pixelclock exposure_us w = (Ok tt, w') /\ extends w w' evs /\
    calls_in [CGet PixelclockRange; CSet Pixelclock] evs.
Proof.
  unfold set_pixelclock. destruct (1000 <? exposure_us).
  - destruct (cam_get_range_ok w) as (lo & rest & w1 & H1 & E1).
    destruct (extends_print w1 (MsgPixelClock lo)) as (w2 & H2 & E2).
    destruct (cam_get_range_ok w2) as (lo' & rest' & w3 & H3 & E3).
    destruct (cam_set_ok Pixelclock lo' w3 ltac:(discriminate) ltac:(discriminate))
      as (w4 & H4 & E4).
    exists w4. eexists. split; [| split].
    + erewrite bind_ok by eassumption. unfold lift at 1.
      erewrite bind_ok by reflexivity. erewrite bind_ok by eassumption.
      erewrite bind_ok by eassumption. unfold lift at 1.
      erewrite bind_ok by reflexivity. exact H4.
    + exact (extends_trans _ _ _ _ _ E1
               (extends_trans _ _ _ _ _ E2 (extends_trans _ _ _ _ _ E3 E4))).
    + simpl. calls_in_solve.
  - destruct (extends_print w (MsgPixelClock (PyInt IDS_MAX_PIXEL_CLOCK)))
      as (w1 & H1 & E1).
    destruct (cam_set_ok Pixelclock (PyInt IDS_MAX_PIXEL_CLOCK) w1
                ltac:(discriminate) ltac:(discriminate)) as (w2 & H2 & E2).
    exists w2. eexists. split; [| split].
    + erewrite bind_ok by eassumption. exact H2.
    + exact (extends_trans _ _ _ _ _ E1 E2).
    + simpl. calls_in_solve.
Qed.

Lemma mul_float_int_ok (z : Z) (fz b : Float.float) :
  Float.of_int z = Ok fz -> Py.mul_float (PyInt z) b = Ok (PyFloat (Float.mul fz b)).
Proof. intros H. unfold Py.mul_float. rewrite H. reflexivity. Qed.

(** Lines 63 to 85 succeed for an exposure that is not zero and converts
    to a float. *)
Lemma configure_ok (exposure_us gain : Z) (gain_boost : bool) (fe : Float.float)
    {A} (k : M D A) (w : world D) :
  exposure_us <> 0 -> Float.of_int exposure_us = Ok fe ->
  exists w' conf,
    extends w w' conf /\ calls_in config_calls conf /\
    (set_pixelclock exposure_us ;; set_framerate exposure_us ;;
     set_exposure_gain exposure_us gain gain_boost ;; k) w = k w'.
Proof.
  intros Hz Hfe.
  destruct (set_pixelclock_ok exposure_us w) as (w1 & evs1 & H1 & E1 & C1).
  destruct (framerate_defined _ _ Hz Hfe) as (fr & Hfr).
  destruct (cam_set_ok Framerate fr w1 ltac:(discriminate) ltac:(discriminate))
    as (w2 & H2 & E2).
  destruct (cam_set_ok Exposure (PyFloat (Float.mul fe Float.f_1e_3)) w2
              ltac:(discriminate) ltac:(discriminate)) as (w3 & H3 & E3).
  destruct (cam_set_ok Gain (PyInt gain) w3 ltac:(discriminate) ltac:(discriminate))
    as (w4 & H4 & E4).
  destruct (cam_set_ok GainBoost (PyBool gain_boost) w4
              ltac:(discriminate) ltac:(discriminate)) as (w5 & H5 & E5).
  exists w5, (evs1 ++ [EvSet Framerate fr (Ok tt)]
                ++ [EvSet Exposure (PyFloat (Float.mul fe Float.f_1e_3)) (Ok tt)]
                ++ [EvSet Gain (PyInt gain) (Ok tt)]
                ++ [EvSet GainBoost (PyBool gain_boost) (Ok tt)]).
  split; [| split].
  - exact (extends_trans _ _ _ _ _ E1 (extends_trans _ _ _ _ _ E2
             (extends_trans _ _ _ _ _ E3 (extends_trans _ _ _ _ _ E4 E5)))).
  - apply calls_in_app.
    + eapply calls_in_mono; [| exact C1]. apply (bool_decide_unpack _). reflexivity.
    + unfold config_calls. simpl. calls_in_solve.
  - erewrite bind_ok by eassumption.
    assert (Hsf : set_framerate exposure_us w1 = (Ok tt, w2)).
    { unfold set_framerate. rewrite Hfr. unfold lift at 1.
      erewrite bind_ok by reflexivity. exact H2. }
    erewrite bind_ok by eassumption.
    assert (Hseg : set_exposure_gain exposure_us gain gain_boost w2 = (Ok tt, w5)).
    { unfold set_exposure_gain. rewrite (mul_float_int_ok _ _ _ Hfe). unfold lift at 1.
      erewrite bind_ok by reflexivity.
      erewrite bind_ok by eassumption. erewrite bind_ok by eassumption. exact H5. }
    erewrite bind_ok by eassumption. reflexivity.
Qed.

(** The loop of lines 95 to 97 against a well-behaved driver. *)
Lemma pull_loop_ok (xs : list Z) (imgs : list frame) (w : world D) :
  exists fms w',
    for_each xs (fun imgs _ => fm <- cam_next ;; ret (imgs ++ [fst fm])) imgs w
    = (Ok (imgs ++ map fst fms), w') /\
    extends w w' (map EvNext (map Ok fms)) /\
    length fms = length xs /\
    Forall (fun fm => shape (fst fm) = sh) fms.
Proof.
  revert imgs w. induction xs as [| x xs IH]; intros imgs w.
  - exists [], w. simpl. rewrite app_nil_r.
    split; [reflexivity |]. split; [apply extends_refl | auto].
  - destruct (cam_next_ok w) as (fr & meta & w1 & H1 & E1 & Hshape).
    destruct (IH (imgs ++ [fr]) w1) as (fms & w2 & H2 & E2 & Hlen & Hall).
    exists ((fr, meta) :: fms), w2. simpl for_each.
    split; [| split; [| split]].
    + erewrite bind_ok; [| erewrite bind_ok by eassumption; reflexivity].
      simpl fst. rewrite H2. simpl. rewrite <- app_assoc. reflexivity.
    + exact (extends_trans _ _ _ _ _ E1 E2).
    + simpl. congruence.
    + constructor; assumption.
Qed.

Lemma pull_frames_ok (average : Z) (w : world D) :
  exists warm fms w',
    pull_frames average w = (Ok (map fst fms), w') /\
    extends w w' (map EvNext (map Ok (warm :: fms)) ++ [disable (Ok tt)]) /\
    length fms = Z.to_nat average /\
    Forall (fun fm => shape (fst fm) = sh) fms.
Proof.
  destruct (cam_next_ok w) as (fr & meta & w1 & H1 & E1 & _).
  destruct (pull_loop_ok (Py.range average) [] w1) as (fms & w2 & H2 & E2 & Hlen & Hall).
  destruct (cam_set_ok ContinuousCapture (PyBool false) w2
              ltac:(discriminate) ltac:(discriminate)) as (w3 & H3 & E3).
  exists (fr, meta), fms, w3. rewrite length_range in Hlen.
  split; [| split; [| split]]; try assumption.
  - unfold pull_frames, try_finally.
    erewrite bind_ok by eassumption. rewrite H2, H3. reflexivity.
  - exact (extends_trans _ _ _ _ _ (extends_trans _ _ _ _ _ E1 E2) E3).
Qed.

Lemma same_shape_all (a : frame) (rest : list frame) :
  Forall (fun b => shape b = shape a) rest -> forallb (Np.same_shape a) rest = true.
Proof.
  induction 1 as [| b rest Hb _ IH]; [reflexivity |].
  simpl. rewrite IH, andb_true_r. unfold Np.same_shape.
  apply bool_decide_eq_true. congruence.
Qed.

(** Frames of one shape can always be reduced. *)
Lemma reduce_ok (average : Z) (fms : list (frame * pyval)) :
  length fms = Z.to_nat average ->
  Forall (fun fm => shape (fst fm) = sh) fms ->
  exists img, reduce average (map fst fms) = Ok img.
Proof.
  intros Hlen Hall. unfold reduce.
  destruct (Z.ltb_spec 0 average) as [Hpos | Hle].
  - destruct fms as [| [a ma] rest]; [simpl in Hlen; lia |].
    simpl map. unfold Np.mean_axis0. rewrite same_shape_all; [eauto |].
    apply Forall_cons in Hall as [Ha Hrest]. simpl in Ha.
    apply Forall_map. eapply Forall_impl; [exact Hrest |].
    intros fm Hfm. exact (eq_trans Hfm (eq_sym Ha)).
  - destruct fms as [| fm rest]; [| simpl in Hlen; lia].
    simpl. eauto.
Qed.

(** [capture] succeeds against a well-behaved driver. *)
Lemma capture_ok (exposure_us gain : Z) (gain_boost : bool) (average : Z)
    (fe : Float.float) (w : world D) :
  exposure_us <> 0 -> Float.of_int exposure_us = Ok fe ->
  exists conf warm fms e_ms gn img w',
    capture exposure_us gain gain_boost average w
    = (Ok (img, PyFloat (Float.mul e_ms Float.f_1e3), PyInt gn), w') /\
    extends w w'
      (conf ++ enable (Ok tt) :: map EvNext (map Ok (warm :: fms))
            ++ [disable (Ok tt); EvGet Exposure (Ok (PyFloat e_ms));
                EvGet Gain (Ok (PyInt gn))]) /\
    calls_in config_calls conf /\
    length fms = Z.to_nat average /\
    reduce average (map fst fms) = Ok img.
Proof.
  intros Hz Hfe.
  destruct (configure_ok exposure_us gain gain_boost fe (acquire average) w Hz Hfe)
    as (w1 & conf & E1 & C1 & Hconf).
  destruct (cam_set_ok ContinuousCapture (PyBool true) w1
              ltac:(discriminate) ltac:(discriminate)) as (w2 & H2 & E2).
  destruct (pull_frames_ok average w2) as (warm & fms & w3 & H3 & E3 & Hlen & Hall).
  destruct (reduce_ok average fms Hlen Hall) as (img & Hred).
  destruct (cam_get_exposure_ok w3) as (e_ms & w4 & H4 & E4).
  destruct (cam_get_gain_ok w4) as (gn & w5 & H5 & E5).
  exists conf, warm, fms, e_ms, gn, img, w5.
  split; [| split; [| auto]].
  - unfold capture. rewrite Hconf. unfold acquire.
    erewrite bind_ok by eassumption. erewrite bind_ok by eassumption.
    rewrite Hred. unfold lift at 1. erewrite bind_ok by reflexivity.
    unfold read_back. erewrite bind_ok by eassumption.
    simpl Py.mul_float. unfold lift at 1. erewrite bind_ok by reflexivity.
    erewrite bind_ok by eassumption. reflexivity.
  - pose proof (extends_trans _ _ _ _ _ E1 (extends_trans _ _ _ _ _ E2
                  (extends_trans _ _ _ _ _ E3 (extends_trans _ _ _ _ _ E4 E5)))) as E.
    simpl in E. rewrite <- !app_assoc in E. simpl in E. exact E.
Qed.

End WellBehaved.

(** ** The stand-in driver is well behaved *)

Lemma standin_well_behaved : well_behaved (StandIn.driver None) [1%nat; 2%nat].
Proof.
  constructor; simpl.
  - intros n s. eauto.
  - intros p v s Hp1 Hp2. destruct p; simpl; eauto; contradiction.
  - intros s. eauto.
  - intros s. eauto.
  - intros s. eauto.
  - intros s. unfold StandIn.sim_next. simpl. eauto.
Qed.

(** ** Claims about what [capture] returns *)

Section Returns.
Context {D : Driver}.

Lemma pulled_capture_ok (conf : list event) (rs : list (result (frame * pyval)))
    (rd : result unit) (post : list event) :
  calls_in config_calls conf -> calls_in read_back_calls post ->
  pulled (conf ++ enable (Ok tt) :: map EvNext rs ++ disable rd :: post) = rs.
Proof.
  intros Hconf Hpost. rewrite pulled_app.
  rewrite (pulled_calls_in config_calls conf); [| | exact Hconf].
  2:{ intros Hin. unfold config_calls in Hin. absurd_elem Hin. }
  simpl. rewrite pulled_app, pulled_map_next. simpl.
  rewrite (pulled_calls_in read_back_calls post); [| | exact Hpost].
  2:{ intros Hin. unfold read_back_calls in Hin. absurd_elem Hin. }
  apply app_nil_r.
Qed.

Lemma mul_float_is_float (a : pyval) (b : Float.float) (v : pyval) :
  Py.mul_float a b = Ok v -> exists f, v = PyFloat f.
Proof.
  unfold Py.mul_float. destruct a; try discriminate.
  - intros [= <-]. eauto.
  - destruct (Float.of_int z); [intros [= <-]; eauto | discriminate].
  - intros [= <-]. eauto.
Qed.

Lemma lookup_map {A B} (f : A -> B) (xs : list A) (i : nat) :
  map f xs !! i = f <$> xs !! i.
Proof.
  revert i. induction xs as [| x xs IH]; intros [| i]; simpl; auto.
Qed.

(** Pixel [i] of the running sum over the frames [rest], started at [x]. *)
Lemma sum_frames_lookup (rest : list frame) (acc : list Float.float) (i : nat)
    (x : Float.float) (zs : list Z) :
  acc !! i = Some x ->
  Forall2 (fun fr z => data fr !! i = Some z) rest zs ->
  fold_left Np.add_frame rest acc !! i
  = Some (fold_left Float.add (map Float.of_Z zs) x).
Proof.
  intros Hacc Hall. revert acc x Hacc.
  induction Hall as [| fr z rest zs Hz _ IH]; intros acc x Hacc; simpl.
  - exact Hacc.
  - apply IH. unfold Np.add_frame, Np.to_floats.
    rewrite lookup_zip_with, Hacc, lookup_map, Hz. reflexivity.
Qed.

Lemma sum_frames_length (rest : list frame) (acc : list Float.float) (n : nat) :
  length acc = n -> Forall (fun fr => length (data fr) = n) rest ->
  length (fold_left Np.add_frame rest acc) = n.
Proof.
  intros Hacc Hall. revert acc Hacc.
  induction Hall as [| fr rest Hfr _ IH]; intros acc Hacc; simpl; [exact Hacc |].
  apply IH. unfold Np.add_frame, Np.to_floats.
  rewrite length_zip_with, length_map, Hacc, Hfr. apply Nat.min_id.
Qed.

(** [np.mean(imgs, axis=0)] is the arithmetic mean, pixel by pixel. *)
Lemma mean_axis0_pixel (imgs : list frame) (img : image) (i : nat) (zs : list Z) :
  imgs <> [] ->
  Np.mean_axis0 imgs = Ok img ->
  Forall2 (fun fr z => data fr !! i = Some z) imgs zs ->
  data img !! i = Some (arithmetic_mean zs).
Proof.
  intros Hne Hmean Hall. pose proof (Forall2_length _ _ _ Hall) as Hlen.
  destruct Hall as [| a z rest zs Hz Hrest]; [contradiction |].
  unfold Np.mean_axis0 in Hmean.
  destruct (forallb (Np.same_shape a) rest); [| discriminate Hmean].
  injection Hmean as <-. simpl data. rewrite lookup_map.
  unfold Np.sum_axis0.
  rewrite (sum_frames_lookup rest (Np.to_floats a) i (Float.of_Z z) zs);
    [| unfold Np.to_floats; rewrite lookup_map, Hz; reflexivity | exact Hrest].
  unfold arithmetic_mean. rewrite <- Hlen. reflexivity.
Qed.

Lemma mean_axis0_length (imgs : list frame) (img : image) (n : nat) :
  imgs <> [] ->
  Np.mean_axis0 imgs = Ok img ->
  Forall (fun fr => length (data fr) = n) imgs ->
  length (data img) = n.
Proof.
  intros Hne Hmean Hall. destruct imgs as [| a rest]; [contradiction |].
  unfold Np.mean_axis0 in Hmean.
  destruct (forallb (Np.same_shape a) rest); [| discriminate Hmean].
  injection Hmean as <-. simpl data. rewrite length_map.
  apply Forall_cons in Hall as [Ha Hrest].
  apply sum_frames_length; [unfold Np.to_floats; rewrite length_map; exact Ha | exact Hrest].
Qed.

(** C1.  Against a driver that raises no error, a call of [capture] with
    [average = N > 0] (and an exposure that is not zero and converts to a
    float, so that the configuration succeeds) returns; the driver's [next]
    was called exactly [N + 1] times in that call; and the returned image
    is the arithmetic mean of the [N] frames that followed the first,
    discarded one: every pixel of the image is the sum of that pixel over
    the [N] frames, divided by [N] (in float64, as [np.mean(.., axis=0)]
    computes it), and the image has as many pixels as each frame. *)
Theorem capture_mean (sh : list nat) (w : world D)
    (exposure_us gain : Z) (gain_boost : bool) (N : Z) (fe : Float.float) :
  well_behaved D sh ->
  exposure_us <> 0 -> Float.of_int exposure_us = Ok fe ->
  0 < N ->
  exists warm fms img ex gn w',
    capture exposure_us gain gain_boost N w = (Ok (img, ex, gn), w') /\
    pulled (events_since w w') = map Ok (warm :: fms) /\
    length (pulled (events_since w w')) = Z.to_nat (N + 1) /\
    length fms = Z.to_nat N /\
    Np.mean_axis0 (map fst fms) = Ok img /\
    (forall i zs,
        Forall2 (fun fm z => data (fst fm) !! i = Some z) fms zs ->
        length zs = Z.to_nat N /\
        data img !! i = Some (arithmetic_mean zs)) /\
    (forall n, Forall (fun fm => length (data (fst fm)) = n) fms ->
               length (data img) = n).
Proof.
  intros Hwb Hz Hfe HN.
  destruct (capture_ok sh Hwb exposure_us gain gain_boost N fe w Hz Hfe)
    as (conf & warm & fms & e_ms & gn & img & w' & Hrun & Hext & Hconf & Hlen & Hred).
  exists warm, fms, img, (PyFloat (Float.mul e_ms Float.f_1e3)), (PyInt gn), w'.
  assert (Hpulled : pulled (events_since w w') = map Ok (warm :: fms)).
  { rewrite (events_since_extends _ _ _ Hext).
    apply (pulled_capture_ok conf (map Ok (warm :: fms)) (Ok tt) _ Hconf).
    unfold read_back_calls. calls_in_solve. }
  assert (Hmean : Np.mean_axis0 (map fst fms) = Ok img).
  { unfold reduce in Hred. destruct (Z.ltb_spec 0 N); [exact Hred | lia]. }
  split; [exact Hrun |]. split; [exact Hpulled |].
  split; [rewrite Hpulled, length_map; simpl; lia |].
  split; [exact Hlen |].
  split; [exact Hmean |].
  split.
  - intros i zs Hall. split; [rewrite <- (Forall2_length _ _ _ Hall); exact Hlen |].
    apply (mean_axis0_pixel (map fst fms) img i zs); [| exact Hmean |].
    + destruct fms; [simpl in Hlen; lia | discriminate].
    + clear -Hall. induction Hall; simpl; constructor; assumption.
  - intros n Hall. apply (mean_axis0_length (map fst fms) img n); [| exact Hmean |].
    + destruct fms; [simpl in Hlen; lia | discriminate].
    + apply Forall_map. exact Hall.
Qed.

(** C7 (the code at [average == 0]).  Against a well-behaved driver a call
    of [capture] with [average = 0] pulls the warm-up frame and nothing
    else, and returns an array of shape [(0,)] without any pixel. *)
Theorem capture_average_zero (sh : list nat) (w : world D)
    (exposure_us gain : Z) (gain_boost : bool) (fe : Float.float) :
  well_behaved D sh ->
  exposure_us <> 0 -> Float.of_int exposure_us = Ok fe ->
  exists warm ex gn w',
    capture exposure_us gain gain_boost 0 w
    = (Ok (mk_ndarray [0%nat] [], ex, gn), w') /\
    pulled (events_since w w') = [Ok warm].
Proof.
  intros Hwb Hz Hfe.
  destruct (capture_ok sh Hwb exposure_us gain gain_boost 0 fe w Hz Hfe)
    as (conf & warm & fms & e_ms & gn & img & w' & Hrun & Hext & Hconf & Hlen & Hred).
  destruct fms as [| fm fms]; [| discriminate Hlen].
  simpl in Hred. injection Hred as <-.
  exists warm, (PyFloat (Float.mul e_ms Float.f_1e3)), (PyInt gn), w'.
  split; [exact Hrun |].
  rewrite (events_since_extends _ _ _ Hext).
  apply (pulled_capture_ok conf [Ok warm] (Ok tt) _ Hconf).
  unfold read_back_calls. calls_in_solve.
Qed.

(** C5.  When a call of [capture] returns, its last driver calls are, after
    the disable, the read of the exposure and then the read of the gain: the
    returned gain is the value the driver answered, and the returned exposure
    is the float obtained by multiplying the answered exposure (milliseconds)
    by [1e3].  The arguments of the call do not enter either value. *)
Theorem capture_returns_read_back (w w' : world D)
    (exposure_us gain : Z) (gain_boost : bool) (average : Z)
    (img : image) (ex gn : pyval) :
  capture exposure_us gain gain_boost average w = (Ok (img, ex, gn), w') ->
  exists pre e_ms,
    events_since w w'
    = pre ++ [disable (Ok tt); EvGet Exposure (Ok e_ms); EvGet Gain (Ok gn)] /\
    Py.mul_float e_ms Float.f_1e3 = Ok ex /\
    exists f, ex = PyFloat f.
Proof.
  intros Hrun.
  destruct (capture_emits exposure_us gain gain_boost average w)
    as (r & w'' & evs & Hrun' & Hext & conf & Hconf & Hshape).
  rewrite Hrun in Hrun'. injection Hrun' as <- <-.
  rewrite (events_since_extends _ _ _ Hext).
  destruct Hshape as [[_ Hr] | (acq & -> & [(x & _ & [=]) | Hacq])];
    [discriminate Hr |].
  destruct Hacq as (rs & rd & body & post & -> & Hpulls & Hpost & Hout).
  destruct rd as [[] | x]; [| destruct Hout as [[=] _]].
  destruct body as [imgs | x]; [| destruct Hout as [[=] _]].
  destruct (Hout _ eq_refl) as (e_ms & -> & Hmul & _). simpl in Hmul.
  exists (conf ++ enable (Ok tt) :: map EvNext rs), e_ms.
  split; [rewrite <- app_assoc; reflexivity |].
  split; [exact Hmul | eapply mul_float_is_float, Hmul].
Qed.

End Returns.

(** ** Concrete runs against the stand-in driver *)

Ltac elem_of_concrete :=
  apply list_elem_of_In; vm_compute;
  repeat first [ left; reflexivity | right ].

Lemma capture_mean_witness :
  exists img ex gn w',
    capture 100 0 false 2 (StandIn.world0 None) = (Ok (img, ex, gn), w') /\
    length (pulled (events_since (StandIn.world0 None) w')) = 3%nat /\
    data img !! 0%nat = Some (Float.of_Z 25) /\
    data img !! 1%nat = Some (Float.of_Z 29) /\
    length (data img) = 2%nat.
Proof.
  destruct (capture_mean [1%nat; 2%nat] (StandIn.world0 None) 100 0 false 2
              (Float.of_Z 100) standin_well_behaved
              ltac:(lia) ltac:(vm_compute; reflexivity) ltac:(lia))
    as (warm & fms & img & ex & gn & w' & Hrun & Hpulled & Hcount & _ & _ & Hpix & Hlen).
  exists img, ex, gn, w'.
  assert (Hw : w' = snd (capture 100 0 false 2 (StandIn.world0 None)))
    by (rewrite Hrun; reflexivity).
  rewrite Hw in Hpulled. vm_compute in Hpulled.
  destruct fms as [| f1 [| f2 [| f3 fms]]]; try discriminate Hpulled.
  injection Hpulled as _ H1 H2. subst f1 f2.
  split; [exact Hrun |]. split; [exact Hcount |].
  split; [| split].
  - destruct (Hpix 0%nat [20; 30]) as [_ ->]; [| vm_compute; reflexivity].
    repeat constructor.
  - destruct (Hpix 1%nat [24; 34]) as [_ ->]; [| vm_compute; reflexivity].
    repeat constructor.
  - apply Hlen. repeat constructor.
Defined.

(** The mean of the frames [[20, 24]] and [[30, 34]] is [[25.0, 29.0]]. *)
Example capture_mean_run :
  fst (capture 100 0 false 2 (StandIn.world0 None))
  = Ok (mk_ndarray [1%nat; 2%nat] [Float.of_Z 25; Float.of_Z 29],
        PyFloat (Float.of_Z 120), PyInt 0).
Proof. vm_compute. reflexivity. Qed.

Lemma capture_stream_bracket_witness :
  let evs := events_of (capture 5000 20 true 2) (StandIn.world0 (Some 2)) in
  EvNext (Raise (DriverError 2)) ∈ evs /\
  bracketed evs /\ count is_enable evs = 1%nat /\ count is_disable evs = 1%nat /\
  is_ok (fst (capture 5000 20 true 2 (StandIn.world0 (Some 2)))) = false.
Proof.
  intros evs.
  destruct (capture_stream_bracket (StandIn.world0 (Some 2)) 5000 20 true 2)
    as [H _].
  assert (Hen : enable (Ok tt) ∈ evs) by (subst evs; elem_of_concrete).
  assert (Hraise : EvNext (Raise (DriverError 2)) ∈ evs) by (subst evs; elem_of_concrete).
  destruct (H Hen) as (Hb & He & Hd & Hr).
  split; [exact Hraise |]. split; [exact Hb |]. split; [exact He |].
  split; [exact Hd |]. exact (proj1 (Hr _ Hraise)).
Defined.

(** With [exposure_us == 0] the call raises before the enable: continuous
    capture is never disabled, so "disabled exactly once per call" fails. *)
Lemma capture_zero_exposure_never_disables :
  count is_disable (events_of (capture 0 0 false 10) (StandIn.world0 None)) <> 1%nat.
Proof. vm_compute. discriminate. Qed.

Lemma capture_pixelclock_witness :
  writes Pixelclock (events_of (capture 100 0 false 1) (StandIn.world0 None))
  = [PyInt 30] /\
  writes Pixelclock (events_of (capture 5000 0 false 1) (StandIn.world0 None))
  = [PyInt 5].
Proof.
  split.
  - apply (proj1 (capture_pixelclock (StandIn.world0 None) 100 0 false 1)). lia.
  - eapply (proj2 (capture_pixelclock (StandIn.world0 None) 5000 0 false 1));
      [lia | reflexivity | reflexivity | reflexivity | reflexivity].
Defined.

Lemma capture_framerate_witness :
  writes Framerate (events_of (capture 20000 0 false 1) (StandIn.world0 None))
  = [PyFloat (Float.of_Z 50)] /\
  writes Framerate (events_of (capture 100 0 false 1) (StandIn.world0 None))
  = [PyInt 100].
Proof.
  split.
  - apply (capture_framerate (StandIn.world0 None) 20000 0 false 1
             (PyFloat (Float.of_Z 50))); [lia | vm_compute; reflexivity].
  - apply (capture_framerate (StandIn.world0 None) 100 0 false 1 (PyInt 100));
      [lia | vm_compute; reflexivity].
Defined.

(** The stand-in quantises the requested 100 us to 0.12 ms and clamps the
    requested gain 150 to 100: the call returns 120.0 and 100. *)
Lemma capture_returns_read_back_witness :
  exists pre e_ms,
    events_since (StandIn.world0 None) (snd (capture 100 150 false 1 (StandIn.world0 None)))
    = pre ++ [disable (Ok tt); EvGet Exposure (Ok e_ms); EvGet Gain (Ok (PyInt 100))] /\
    Py.mul_float e_ms Float.f_1e3 = Ok (PyFloat (Float.of_Z 120)) /\
    exists f, PyFloat (Float.of_Z 120) = PyFloat f.
Proof.
  pose proof (surjective_pairing (capture 100 150 false 1 (StandIn.world0 None))) as E.
  assert (F : fst (capture 100 150 false 1 (StandIn.world0 None))
              = Ok (mk_ndarray [1%nat; 2%nat] [Float.of_Z 20; Float.of_Z 24],
                    PyFloat (Float.of_Z 120), PyInt 100))
    by (vm_compute; reflexivity).
  rewrite F in E.
  exact (capture_returns_read_back (StandIn.world0 None) _ 100 150 false 1 _ _ _ E).
Defined.

Lemma capture_average_zero_witness :
  exists warm ex gn w',
    capture 100 0 false 0 (StandIn.world0 None)
    = (Ok (mk_ndarray [0%nat] [], ex, gn), w') /\
    pulled (events_since (StandIn.world0 None) w') = [Ok warm].
Proof.
  eapply (capture_average_zero [1%nat; 2%nat] (StandIn.world0 None) 100 0 false).
  - exact standin_well_behaved.
  - lia.
  - vm_compute. reflexivity.
Defined.

Lemma capture_zero_exposure_witness :
  fst (capture 0 0 false 10 (StandIn.world0 None)) = Raise ZeroDivisionError /\
  framerate 8000000 <> Raise ZeroDivisionError /\
  (exists v, framerate 8000000 = Ok v).
Proof.
  destruct (capture_zero_exposure (StandIn.world0 None) 0 false 10)
    as [(_ & r0 & Hev & Hzero) Hdef].
  split.
  - apply Hzero. vm_compute in Hev. injection Hev as <-. reflexivity.
  - destruct (Hdef 8000000 ltac:(lia)) as (Hnz & _ & Hsmall).
    split; [exact Hnz |]. apply Hsmall. vm_compute. reflexivity.
Defined.

(** An int too large for a float: the frame rate computation raises
    [OverflowError], although [exposure_us != 0]. *)
Lemma framerate_overflow :
  2 ^ 1024 <> 0 /\ framerate (2 ^ 1024) = Raise OverflowError.
Proof. split; [discriminate | vm_compute; reflexivity]. Qed.

(** ** The names of the artifacts *)

Section Names.

Local Open Scope string_scope.

Lemma append_nil (b : string) : "" +:+ b = b.
Proof. reflexivity. Qed.

Lemma append_cons (x : ascii) (a b : string) :
  String x a +:+ b = String x (a +:+ b).
Proof. reflexivity. Qed.

Lemma append_assoc (a b c : string) : (a +:+ b) +:+ c = a +:+ (b +:+ c).
Proof.
  induction a as [| x a IH]; [reflexivity |].
  rewrite !append_cons, IH. reflexivity.
Qed.

Lemma all_digits_app (a b : string) :
  Fmt.all_digits (a +:+ b) = Fmt.all_digits a && Fmt.all_digits b.
Proof.
  induction a as [| x a IH]; [reflexivity |].
  rewrite append_cons. simpl. rewrite IH, andb_assoc. reflexivity.
Qed.

Lemma all_digits_zeros (k : nat) : Fmt.all_digits (Fmt.zeros k) = true.
Proof. induction k as [| k IH]; simpl; [reflexivity | exact IH]. Qed.

Lemma all_digits_string_of_uint (d : Decimal.uint) :
  Fmt.all_digits (NilEmpty.string_of_uint d) = true.
Proof. induction d; simpl; auto. Qed.

Lemma to_uint_not_nil (n : N) : N.to_uint n <> Nil.
Proof.
  destruct n as [| p]; simpl; [discriminate |].
  apply DecimalPos.Unsigned.to_uint_nonnil.
Qed.

Lemma digits_nil_empty (n : N) :
  Fmt.digits n = NilEmpty.string_of_uint (N.to_uint n).
Proof.
  unfold Fmt.digits, NilZero.string_of_uint.
  pose proof (to_uint_not_nil n) as H.
  destruct (N.to_uint n); [contradiction | reflexivity ..].
Qed.

Lemma all_digits_zfill (w : nat) (n : N) :
  Fmt.all_digits (Fmt.zfill w (Fmt.digits n)) = true.
Proof.
  unfold Fmt.zfill. rewrite all_digits_app, all_digits_zeros, digits_nil_empty.
  apply all_digits_string_of_uint.
Qed.

Lemma uint_of_string_zeros (k : nat) (s : string) (d : Decimal.uint) :
  NilEmpty.uint_of_string s = Some d ->
  exists d', NilEmpty.uint_of_string (Fmt.zeros k +:+ s) = Some d' /\
             N.of_uint d' = N.of_uint d.
Proof.
  intros Hs. induction k as [| k (d' & Hd' & Hv)]; simpl.
  - eauto.
  - change (Fmt.zeros k +:+ s) with (Fmt.zeros k +:+ s) in Hd'.
    unfold Fmt.zeros in Hd'. rewrite Hd'. simpl. exists (D0 d'). auto.
Qed.

(** Zero padding does not change the number that the digits denote. *)
Lemma value_zfill (w : nat) (n : N) : Fmt.value (Fmt.zfill w (Fmt.digits n)) = n.
Proof.
  unfold Fmt.value, Fmt.zfill. rewrite digits_nil_empty.
  destruct (uint_of_string_zeros
              (w - String.length (NilEmpty.string_of_uint (N.to_uint n)))
              _ _ (NilEmpty.usu (N.to_uint n))) as (d' & -> & ->).
  apply DecimalN.Unsigned.of_to.
Qed.

(** A run of digits that is followed by an underscore ends where the
    underscore is. *)
Lemma digit_run_unique (a b r1 r2 : string) :
  Fmt.all_digits a = true -> Fmt.all_digits b = true ->
  a +:+ String "_" r1 = b +:+ String "_" r2 -> a = b /\ r1 = r2.
Proof.
  revert b. induction a as [| x a IH]; intros [| y b] Ha Hb Heq; simpl in *.
  - injection Heq as ->. auto.
  - injection Heq as <- _. discriminate Hb.
  - injection Heq as -> _. discriminate Ha.
  - injection Heq as -> Heq.
    apply andb_true_iff in Ha as [_ Ha]. apply andb_true_iff in Hb as [_ Hb].
    destruct (IH b Ha Hb Heq) as [-> ->]. auto.
Qed.

Lemma int0_nonneg (w : nat) (z : Z) :
  (0 <= z)%Z -> Fmt.int0 w z = Fmt.zfill w (Fmt.digits (Z.to_N z)).
Proof. intros Hz. destruct z; [reflexivity | reflexivity | lia]. Qed.

Lemma int0_inj (w : nat) (z z' : Z) :
  (0 <= z)%Z -> (0 <= z')%Z -> Fmt.int0 w z = Fmt.int0 w z' -> z = z'.
Proof.
  intros Hz Hz'. rewrite !int0_nonneg by assumption. intros Heq.
  apply (f_equal Fmt.value) in Heq. rewrite !value_zfill in Heq. lia.
Qed.

(** C8.  The name of an artifact determines the sweep point: two triples of
    a non-negative exposure, a non-negative gain and a boost flag that differ
    get different file names. *)
Theorem mat_name_injective (exposure gain exposure' gain' : Z)
    (gain_boost gain_boost' : bool) :
  (0 <= exposure)%Z -> (0 <= gain)%Z -> (0 <= exposure')%Z -> (0 <= gain')%Z ->
  (exposure, gain, gain_boost) <> (exposure', gain', gain_boost') ->
  Fmt.mat_name exposure gain gain_boost <> Fmt.mat_name exposure' gain' gain_boost'.
Proof.
  intros He Hg He' Hg' Hne Heq. apply Hne. clear Hne.
  unfold Fmt.mat_name, Fmt.base_name in Heq.
  rewrite !append_assoc in Heq. simpl in Heq.
  injection Heq as Heq.
  rewrite !int0_nonneg in Heq by assumption.
  apply digit_run_unique in Heq as [Hexp Heq]; [| apply all_digits_zfill ..].
  injection Heq as Heq.
  apply digit_run_unique in Heq as [Hgain Heq]; [| apply all_digits_zfill ..].
  rewrite <- !int0_nonneg in Hexp, Hgain by assumption.
  apply int0_inj in Hexp; [| assumption ..].
  apply int0_inj in Hgain; [| assumption ..].
  subst. destruct gain_boost, gain_boost'; (reflexivity || discriminate Heq).
Qed.

Lemma mat_name_injective_witness :
  Fmt.mat_name 100 20 false <> Fmt.mat_name 1000 2 false /\
  Fmt.mat_name 100 20 false <> Fmt.mat_name 100 20 true.
Proof.
  split.
  - apply (mat_name_injective 100 20 1000 2 false false); [lia | lia | lia | lia |].
    intros H. discriminate H.
  - apply (mat_name_injective 100 20 100 20 false true); [lia | lia | lia | lia |].
    intros H. discriminate H.
Defined.

Example mat_name_example :
  Fmt.mat_name 100 20 false = "exp_0000100_gain_020_boost_False.mat".
Proof. reflexivity. Qed.

End Names.

(** ** The info record *)

Section Info.
Context {D : Driver}.

(** A caller's mutations of the dict at [l1] leave every other dict of the
    store as it is, leave the dict at [l1] in the store, and do not touch
    the device. *)
Lemma apply_mutation_frame (l1 : loc) (m : mutation) (w : world D) :
  is_Some (heap w !! l1) ->
  let w' := snd (apply_mutation (PyRef l1) m w) in
  (forall l, l <> l1 -> heap w' !! l = heap w !! l) /\
  is_Some (heap w' !! l1) /\ dev w' = dev w.
Proof.
  intros [d Hd]. destruct m as [k x | k |]; simpl;
    unfold dict_setitem, dict_delitem, dict_clear; rewrite Hd.
  - simpl. split; [| split; [| reflexivity]].
    + intros l Hl. apply lookup_insert_ne. congruence.
    + rewrite lookup_insert_eq. eauto.
  - destruct (d !! k); simpl; (split; [| split; [| reflexivity]]); eauto.
    + intros l Hl. apply lookup_insert_ne. congruence.
    + rewrite lookup_insert_eq. eauto.
  - simpl. split; [| split; [| reflexivity]].
    + intros l Hl. apply lookup_insert_ne. congruence.
    + rewrite lookup_insert_eq. eauto.
Qed.

Lemma mutate_frame (l1 : loc) (ms : list mutation) (w : world D) :
  is_Some (heap w !! l1) ->
  let w' := snd (mutate (PyRef l1) ms w) in
  (forall l, l <> l1 -> heap w' !! l = heap w !! l) /\
  is_Some (heap w' !! l1) /\ dev w' = dev w.
Proof.
  unfold mutate. generalize tt as u. revert w.
  induction ms as [| m ms IH]; intros w u Hl1; simpl for_each.
  - simpl. auto.
  - unfold bind.
    pose proof (apply_mutation_frame l1 m w Hl1) as (Hother & Hsome & Hdev).
    destruct (apply_mutation (PyRef l1) m w) as [[u' | e] w1]; simpl in *.
    + destruct (IH w1 u' Hsome) as (Hother' & Hsome' & Hdev').
      split; [| split].
      * intros l Hl. rewrite Hother', Hother by assumption. reflexivity.
      * exact Hsome'.
      * congruence.
    + auto.
Qed.

(** An access to [camera.info] when the driver holds its info dict at [l]. *)
Lemma info_copies (l : loc) (d : gmap string pyval) (w : world D) :
  (exists s', drv_get D Info (dev w) = (Ok (PyRef l), s')) ->
  heap w !! l = Some d ->
  exists l1 w1,
    info w = (Ok (PyRef l1), w1) /\
    heap w !! l1 = None /\
    heap w1 = <[l1 := d]> (heap w) /\
    fs w1 = fs w.
Proof.
  intros (s' & Hget) Hd. unfold info, bind, cam_get. rewrite Hget. simpl.
  unfold dict_copy, bind, dict_read. simpl. rewrite Hd. simpl.
  eexists _, _. split; [reflexivity |]. simpl.
  split; [| auto].
  apply not_elem_of_dom, is_fresh.
Qed.

(** C9.  [camera.info] returns a new dict object with the items of the
    driver's info dict.  Whatever a caller then does to the returned dict
    (assigning or deleting keys, clearing it), the driver's dict keeps its
    items, and the next access to [camera.info] returns yet another dict
    object, again with the driver's items. *)
Theorem info_is_a_copy (l : loc) (d : gmap string pyval) (ms : list mutation)
    (w : world D) :
  (forall s, exists s', drv_get D Info s = (Ok (PyRef l), s')) ->
  heap w !! l = Some d ->
  exists l1 w1 w2 l2 w3,
    info w = (Ok (PyRef l1), w1) /\
    l1 <> l /\ heap w1 !! l1 = Some d /\
    snd (mutate (PyRef l1) ms w1) = w2 /\
    heap w2 !! l = Some d /\
    info w2 = (Ok (PyRef l2), w3) /\
    l2 <> l1 /\ l2 <> l /\ heap w3 !! l2 = Some d /\ heap w3 !! l = Some d.
Proof.
  intros Hinfo Hd.
  destruct (info_copies l d w (Hinfo _) Hd) as (l1 & w1 & Hrun1 & Hfresh1 & Hheap1 & _).
  assert (Hne : l1 <> l) by congruence.
  assert (Hl1 : heap w1 !! l1 = Some d) by (rewrite Hheap1; apply lookup_insert_eq).
  assert (Hl : heap w1 !! l = Some d)
    by (rewrite Hheap1, lookup_insert_ne by assumption; exact Hd).
  pose proof (mutate_frame l1 ms w1 ltac:(eauto)) as (Hother & Hsome & _).
  set (w2 := snd (mutate (PyRef l1) ms w1)) in *.
  assert (Hl' : heap w2 !! l = Some d) by (rewrite Hother by congruence; exact Hl).
  destruct (info_copies l d w2 (Hinfo _) Hl') as (l2 & w3 & Hrun2 & Hfresh2 & Hheap2 & _).
  exists l1, w1, w2, l2, w3.
  split; [exact Hrun1 |]. split; [exact Hne |]. split; [exact Hl1 |].
  split; [reflexivity |]. split; [exact Hl' |]. split; [exact Hrun2 |].
  assert (Hne21 : l2 <> l1) by (intros ->; rewrite Hfresh2 in Hsome; destruct Hsome; discriminate).
  assert (Hne2 : l2 <> l) by congruence.
  split; [exact Hne21 |]. split; [exact Hne2 |].
  rewrite Hheap2. split; [apply lookup_insert_eq |].
  rewrite lookup_insert_ne by assumption. exact Hl'.
Qed.

End Info.

Lemma info_is_a_copy_witness :
  exists l1 w1 w2 l2 w3,
    info (StandIn.world0 None) = (Ok (PyRef l1), w1) /\
    l1 <> StandIn.info_loc /\ heap w1 !! l1 = Some StandIn.info_dict /\
    snd (mutate (PyRef l1)
           [SetItem "serial_num" (PyStr "0"); DelItem "model"; Clear] w1) = w2 /\
    heap w2 !! StandIn.info_loc = Some StandIn.info_dict /\
    info w2 = (Ok (PyRef l2), w3) /\
    l2 <> l1 /\ l2 <> StandIn.info_loc /\
    heap w3 !! l2 = Some StandIn.info_dict /\
    heap w3 !! StandIn.info_loc = Some StandIn.info_dict.
Proof.
  apply (info_is_a_copy StandIn.info_loc StandIn.info_dict
           [SetItem "serial_num" (PyStr "0"); DelItem "model"; Clear]
           (StandIn.world0 None)).
  - intros s. simpl. eauto.
  - reflexivity.
Defined.

(** ** The sweep *)

Section Paths.

Local Open Scope string_scope.

Lemma ends_with_slash_plain (s : string) :
  no_slash s = true -> ends_with_slash s = false.
Proof.
  induction s as [| c s IH]; [reflexivity |]. simpl.
  intros H. apply andb_true_iff in H as [Hc Hs].
  destruct s; [destruct (Ascii.eqb c "/"); [discriminate | reflexivity] | auto].
Qed.

Lemma ends_with_slash_app (a s : string) :
  s <> "" -> ends_with_slash (a +:+ s) = ends_with_slash s.
Proof.
  intros Hs. induction a as [| c a IH]; [reflexivity |].
  simpl. destruct (a +:+ s) eqn:E; [| exact IH].
  destruct a; simpl in E; [contradiction | discriminate].
Qed.

Lemma starts_with_slash_plain (s : string) :
  no_slash s = true -> starts_with_slash s = false.
Proof.
  destruct s as [| c s]; [reflexivity |]. simpl.
  intros H. apply andb_true_iff in H as [Hc _].
  destruct (Ascii.eqb c "/"); [discriminate | reflexivity].
Qed.

(** [os.path.join('results', serial_num)] and, from there, a file name. *)
Lemma join_results (serial_num : string) :
  no_slash serial_num = true ->
  os_path_join "results" serial_num = "results/" +:+ serial_num.
Proof.
  intros H. unfold os_path_join. rewrite starts_with_slash_plain by assumption.
  reflexivity.
Qed.

Lemma join_results_name (serial_num name : string) :
  no_slash serial_num = true -> serial_num <> "" ->
  starts_with_slash name = false ->
  os_path_join ("results/" +:+ serial_num) name = results_path serial_num name.
Proof.
  intros Hplain Hne Hname. unfold os_path_join, results_path. rewrite Hname.
  rewrite ends_with_slash_app, ends_with_slash_plain by assumption.
  rewrite bool_decide_eq_false_2 by discriminate. simpl.
  rewrite <- !append_assoc. reflexivity.
Qed.

Lemma append_inj_l (a x y : string) : a +:+ x = a +:+ y -> x = y.
Proof. induction a as [| c a IH]; simpl; [auto | intros [= H]; auto]. Qed.

Lemma results_path_inj (serial_num x y : string) :
  results_path serial_num x = results_path serial_num y -> x = y.
Proof.
  unfold results_path. intros H.
  apply (append_inj_l "results/") in H. apply append_inj_l in H.
  apply (append_inj_l "/") in H. exact H.
Qed.

End Paths.

Section Sweep.
Context {D : Driver} (sh : list nat) (Hwb : well_behaved D sh).

Lemma camera_init_ok (w : world D) :
  exists w' evs, camera_init w = (Ok tt, w') /\ extends w w' evs.
Proof.
  destruct (wb_open D sh Hwb 1 (dev w)) as (s0 & Hs0).
  assert (H0 : cam_open 1 w = (Ok tt, log (EvOpen 1 (Ok tt)) (with_dev s0 w)))
    by (unfold cam_open; rewrite Hs0; reflexivity).
  pose proof (extends_log w s0 (EvOpen 1 (Ok tt))) as E0.
  set (w0 := log (EvOpen 1 (Ok tt)) (with_dev s0 w)) in *.
  destruct (cam_set_ok sh Hwb AutoWhiteBalance (PyBool false) w0
              ltac:(discriminate) ltac:(discriminate)) as (w1 & H1 & E1).
  destruct (cam_set_ok sh Hwb ContinuousCapture (PyBool false) w1
              ltac:(discriminate) ltac:(discriminate)) as (w2 & H2 & E2).
  destruct (cam_set_ok sh Hwb AutoExposure (PyBool false) w2
              ltac:(discriminate) ltac:(discriminate)) as (w3 & H3 & E3).
  destruct (cam_set_ok sh Hwb Exposure (PyInt 100) w3
              ltac:(discriminate) ltac:(discriminate)) as (w4 & H4 & E4).
  destruct (cam_set_ok sh Hwb ColorMode (COLOR_BAYER_8 D) w4
              ltac:(discriminate) ltac:(discriminate)) as (w5 & H5 & E5).
  destruct (cam_set_ok sh Hwb GainBoost (PyBool false) w5
              ltac:(discriminate) ltac:(discriminate)) as (w6 & H6 & E6).
  destruct (cam_set_ok sh Hwb Gain (PyInt 0) w6
              ltac:(discriminate) ltac:(discriminate)) as (w7 & H7 & E7).
  exists w7. eexists. split.
  - unfold camera_init. repeat (erewrite bind_ok by eassumption). exact H7.
  - exact (extends_trans _ _ _ _ _ E0 (extends_trans _ _ _ _ _ E1
             (extends_trans _ _ _ _ _ E2 (extends_trans _ _ _ _ _ E3
             (extends_trans _ _ _ _ _ E4 (extends_trans _ _ _ _ _ E5
             (extends_trans _ _ _ _ _ E6 E7))))))).
Qed.

(** One sweep point: the artifact is written next to what is there, and
    nothing else on disk or in the store changes. *)
Lemma sweep_point_ok (average : Z) (base_path : string) (gain_boost : bool)
    (gain exposure : Z) (fe : Float.float) (data : option captured) (w : world D) :
  exposure <> 0 -> Float.of_int exposure = Ok fe ->
  exists c f w',
    sweep_point average base_path gain_boost gain data exposure w = (Ok (Some c), w') /\
    stores (D:=D) exposure gain gain_boost average f /\
    f = mat_of c /\
    files (fs w')
    = <[os_path_join base_path (Fmt.mat_name exposure gain gain_boost) := f]>
        (files (fs w)) /\
    dirs (fs w') = dirs (fs w) /\
    heap w' = heap w.
Proof.
  intros Hz Hfe. unfold sweep_point.
  destruct (extends_print w (MsgSweepPoint (Fmt.base_name exposure gain gain_boost)))
    as (w1 & H1 & E1).
  destruct (capture_ok sh Hwb exposure gain gain_boost average fe w1 Hz Hfe)
    as (conf & warm & fms & e_ms & gn & img & w2 & H2 & E2 & _).
  destruct E1 as (_ & Hh1 & Hf1 & _). destruct E2 as (_ & Hh2 & Hf2 & _).
  eexists _, _, _. split; [| split; [| split; [| split; [| split]]]].
  - erewrite bind_ok by eassumption. erewrite bind_ok by eassumption.
    unfold savemat, write_file. unfold bind at 1. reflexivity.
  - exists w1, w2, img, (Float.mul e_ms Float.f_1e3), gn. split; [exact H2 | reflexivity].
  - reflexivity.
  - simpl. rewrite Hf2, Hf1. reflexivity.
  - simpl. rewrite Hf2, Hf1. reflexivity.
  - simpl. rewrite Hh2, Hh1. reflexivity.
Qed.

End Sweep.

Section Main.
Context {D : Driver}.

Local Open Scope string_scope.

(** The four sweep points of the scenario, in the order of the loops. *)
Lemma sweep_2x2_ok (sh : list nat) (base_path : string) (w : world D) :
  well_behaved D sh ->
  exists c f1 f2 f3 f4 w',
    sweep (mk_config [100; 1000]%Z [0; 20]%Z [false] 1) base_path w = (Ok (Some c), w') /\
    stores (D:=D) 100 0 false 1 f1 /\ stores (D:=D) 1000 0 false 1 f2 /\
    stores (D:=D) 100 20 false 1 f3 /\ stores (D:=D) 1000 20 false 1 f4 /\
    files (fs w')
    = <[os_path_join base_path (Fmt.mat_name 1000 20 false) := f4]>
        (<[os_path_join base_path (Fmt.mat_name 100 20 false) := f3]>
           (<[os_path_join base_path (Fmt.mat_name 1000 0 false) := f2]>
              (<[os_path_join base_path (Fmt.mat_name 100 0 false) := f1]>
                 (files (fs w))))) /\
    dirs (fs w') = dirs (fs w).
Proof.
  intros Hwb.
  assert (H100 : Float.of_int 100 = Ok (Float.of_Z 100)) by reflexivity.
  assert (H1000 : Float.of_int 1000 = Ok (Float.of_Z 1000)) by reflexivity.
  destruct (sweep_point_ok sh Hwb 1 base_path false 0 100 _ None w
              ltac:(discriminate) H100)
    as (c1 & f1 & w1 & R1 & S1 & _ & F1 & D1 & _).
  destruct (sweep_point_ok sh Hwb 1 base_path false 0 1000 _ (Some c1) w1
              ltac:(discriminate) H1000)
    as (c2 & f2 & w2 & R2 & S2 & _ & F2 & D2 & _).
  destruct (sweep_point_ok sh Hwb 1 base_path false 20 100 _ (Some c2) w2
              ltac:(discriminate) H100)
    as (c3 & f3 & w3 & R3 & S3 & _ & F3 & D3 & _).
  destruct (sweep_point_ok sh Hwb 1 base_path false 20 1000 _ (Some c3) w3
              ltac:(discriminate) H1000)
    as (c4 & f4 & w4 & R4 & S4 & _ & F4 & D4 & _).
  exists c4, f1, f2, f3, f4, w4.
  split; [| split; [| split; [| split; [| split; [| split]]]]]; try assumption.
  - unfold sweep. simpl.
    unfold bind. rewrite R1, R2. simpl. rewrite R3, R4. reflexivity.
  - rewrite F4, F3, F2, F1. reflexivity.
  - congruence.
Qed.

(** C6.  With [EXPOSURE_VALUES = (100, 1000)], [GAIN_VALUES = (0, 20)], the
    single boost flag [False] and [average = 1], against a well-behaved
    driver whose info dict names a serial number without slashes, [main]
    ends normally; the directory [results/<serial_num>] exists; and the files
    it wrote are [info.json], holding the items of the info dict, and the
    four artifacts named below, each holding the fields [array], [exposure]
    (a float) and [gain] (an int) that [capture] returned at that sweep
    point.  The five paths are distinct, and every other file is as it
    was. *)
Theorem main_sweep_files (sh : list nat) (l : loc) (d : gmap string pyval)
    (serial_num : string) (w : world D) :
  well_behaved D sh ->
  (forall s, exists s', drv_get D Info s = (Ok (PyRef l), s')) ->
  heap w !! l = Some d ->
  d !! "serial_num" = Some (PyStr serial_num) ->
  no_slash serial_num = true -> serial_num <> "" ->
  exists f1 f2 f3 f4 w',
    main_with (mk_config [100; 1000]%Z [0; 20]%Z [false] 1) w = (Ok tt, w') /\
    files (fs w')
    = <[results_path serial_num "exp_0001000_gain_020_boost_False.mat" := f4]>
        (<[results_path serial_num "exp_0000100_gain_020_boost_False.mat" := f3]>
           (<[results_path serial_num "exp_0001000_gain_000_boost_False.mat" := f2]>
              (<[results_path serial_num "exp_0000100_gain_000_boost_False.mat" := f1]>
                 (<[results_path serial_num "info.json" := JsonFile d]>
                    (files (fs w)))))) /\
    stores (D:=D) 100 0 false 1 f1 /\ stores (D:=D) 1000 0 false 1 f2 /\
    stores (D:=D) 100 20 false 1 f3 /\ stores (D:=D) 1000 20 false 1 f4 /\
    "results/" +:+ serial_num ∈ dirs (fs w') /\
    NoDup (results_path serial_num <$>
             ["info.json";
              "exp_0000100_gain_000_boost_False.mat";
              "exp_0001000_gain_000_boost_False.mat";
              "exp_0000100_gain_020_boost_False.mat";
              "exp_0001000_gain_020_boost_False.mat"]).
Proof.
  intros Hwb Hinfo Hl Hserial Hplain Hne.
  destruct (camera_init_ok sh Hwb w) as (w1 & evs1 & R1 & (_ & Hh1 & Hf1 & _)).
  destruct (info_copies l d w1 (Hinfo _) ltac:(rewrite Hh1; exact Hl))
    as (l1 & w2 & R2 & _ & Hh2 & Hf2).
  assert (Hl1 : heap w2 !! l1 = Some d) by (rewrite Hh2; apply lookup_insert_eq).
  assert (R3 : dict_getitem (PyRef l1) "serial_num" w2 = (Ok (PyStr serial_num), w2)).
  { unfold dict_getitem, bind, dict_read. rewrite Hl1, Hserial. reflexivity. }
  set (base := "results/" +:+ serial_num).
  set (w3 := if bool_decide (base ∈ dirs (fs w2)) then w2
             else with_fs (mk_filesystem ({[base]} ∪ dirs (fs w2)) (files (fs w2))) w2).
  assert (Hh3 : heap w3 = heap w2) by (subst w3; case_bool_decide; reflexivity).
  assert (Hf3 : files (fs w3) = files (fs w2)) by (subst w3; case_bool_decide; reflexivity).
  assert (Hd3 : base ∈ dirs (fs w3)).
  { subst w3. case_bool_decide; [assumption |]. simpl. set_solver. }
  set (w4 := with_fs (mk_filesystem (dirs (fs w3))
                        (<[results_path serial_num "info.json" := JsonFile d]>
                           (files (fs w3)))) w3).
  destruct (sweep_2x2_ok sh base w4 Hwb)
    as (c & f1 & f2 & f3 & f4 & w5 & R5 & S1 & S2 & S3 & S4 & F5 & D5).
  exists f1, f2, f3, f4, (with_shown (Some (fst (fst c))) w5).
  split; [| split; [| split; [| split; [| split; [| split; [| split]]]]]];
    try assumption.
  - unfold main_with.
    erewrite bind_ok by eassumption. erewrite bind_ok by eassumption.
    erewrite bind_ok by eassumption.
    cbv beta iota zeta. rewrite !join_results by assumption. fold base.
    assert (Rd : os_path_isdir base w2 = (Ok (bool_decide (base ∈ dirs (fs w2))), w2))
      by reflexivity.
    erewrite bind_ok by exact Rd.
    assert (R4 : (if bool_decide (base ∈ dirs (fs w2)) then ret tt
                  else os_makedirs base) w2 = (Ok tt, w3))
      by (subst w3; case_bool_decide; reflexivity).
    erewrite bind_ok by exact R4.
    assert (R4' : dict_read (PyRef l1) w3 = (Ok d, w3))
      by (unfold dict_read; rewrite Hh3, Hl1; reflexivity).
    erewrite bind_ok by exact R4'.
    assert (Rw : write_file (os_path_join base "info.json") (JsonFile d) w3
                 = (Ok tt, w4)).
    { subst base. rewrite join_results_name by (assumption || reflexivity).
      reflexivity. }
    erewrite bind_ok by exact Rw.
    erewrite bind_ok by exact R5. reflexivity.
  - simpl. rewrite F5. subst w4. simpl. rewrite Hf3, Hf2, Hf1.
    subst base. rewrite !join_results_name by (assumption || reflexivity).
    reflexivity.
  - simpl. rewrite D5. exact Hd3.
  - assert (Hinj : Inj (=) (=) (results_path serial_num))
      by (intros x y; apply results_path_inj).
    apply (NoDup_fmap_2 _). apply (bool_decide_unpack _). vm_compute. reflexivity.
Qed.

End Main.

Lemma main_sweep_files_witness :
  exists f1 f2 f3 f4 w',
    main_with (mk_config [100; 1000] [0; 20] [false] 1) (StandIn.world0 None)
    = (Ok tt, w') /\
    files (fs w')
    = <[results_path "4102776221" "exp_0001000_gain_020_boost_False.mat" := f4]>
        (<[results_path "4102776221" "exp_0000100_gain_020_boost_False.mat" := f3]>
           (<[results_path "4102776221" "exp_0001000_gain_000_boost_False.mat" := f2]>
              (<[results_path "4102776221" "exp_0000100_gain_000_boost_False.mat" := f1]>
                 (<[results_path "4102776221" "info.json" := JsonFile StandIn.info_dict]>
                    (files (fs (StandIn.world0 None))))))) /\
    stores (D:=StandIn.driver None) 100 0 false 1 f1 /\
    stores (D:=StandIn.driver None) 1000 0 false 1 f2 /\
    stores (D:=StandIn.driver None) 100 20 false 1 f3 /\
    stores (D:=StandIn.driver None) 1000 20 false 1 f4 /\
    ("results/" +:+ "4102776221")%string ∈ dirs (fs w') /\
    NoDup (results_path "4102776221" <$>
             ["info.json"%string;
              "exp_0000100_gain_000_boost_False.mat"%string;
              "exp_0001000_gain_000_boost_False.mat"%string;
              "exp_0000100_gain_020_boost_False.mat"%string;
              "exp_0001000_gain_020_boost_False.mat"%string]).
Proof.
  apply (main_sweep_files [1%nat; 2%nat] StandIn.info_loc StandIn.info_dict
           "4102776221" (StandIn.world0 None)).
  - exact standin_well_behaved.
  - intros s. simpl. eauto.
  - reflexivity.
  - reflexivity.
  - reflexivity.
  - discriminate.
Defined.

(** On an empty disk the scenario leaves exactly five files. *)
Example main_sweep_run :
  let w' := snd (main_with (mk_config [100; 1000] [0; 20] [false] 1)
                   (StandIn.world0 None)) in
  size (files (fs w')) = 5%nat /\
  elements (dirs (fs w')) = ["results/4102776221"%string].
Proof. vm_compute. split; reflexivity. Qed.

(** [main] as the script has it: 2 boost flags, 6 gains and 11 exposures
    give 132 artifacts next to [info.json]. *)
Example main_run :
  let run := main (StandIn.world0 None) in
  fst run = Ok tt /\ size (files (fs (snd run))) = 133%nat.
Proof. vm_compute. split; reflexivity. Qed.

(** * Further properties of the script *)

(** ** [capture]: what every call does and does not do *)

Section CaptureAlways.
Context {D : Driver}.

(** X1.  Whatever the driver does and however the call ends, [capture] leaves the
    dict objects, the disk and the display as they were: it only talks to
    the driver (and prints). *)
Theorem capture_touches_only_driver (w : world D)
    (exposure_us gain : Z) (gain_boost : bool) (average : Z) :
  let w' := snd (capture exposure_us gain gain_boost average w) in
  heap w' = heap w /\ fs w' = fs w /\ shown w' = shown w /\
  exists evs, trace w' = trace w ++ evs.
Proof.
  intros w'. subst w'.
  destruct (capture_emits exposure_us gain gain_boost average w)
    as (r & w' & evs & -> & (Ht & Hh & Hf & Hs) & _).
  simpl. eauto.
Qed.

Lemma pulls_outcome_length (average : Z) rs body :
  pulls_outcome average rs body ->
  (length rs <= 1 + Z.to_nat average)%nat /\
  (is_ok body = true -> length rs = (1 + Z.to_nat average)%nat).
Proof.
  intros [(warm & oks & -> & Hlen & ->) | (oks & x & -> & Hlen & ->)].
  - rewrite length_map. simpl. split; [lia | intros _; lia].
  - rewrite length_app, length_map. simpl. split; [lia | discriminate].
Qed.

(** X2.  In every call of [capture] the driver's [next] is called at most
    [1 + max(average, 0)] times, and exactly that often when the call
    returns. *)
Theorem capture_pull_count (w : world D)
    (exposure_us gain : Z) (gain_boost : bool) (average : Z) :
  let run := capture exposure_us gain gain_boost average w in
  let n := length (pulled (events_of (capture exposure_us gain gain_boost average) w)) in
  (n <= 1 + Z.to_nat average)%nat /\
  (is_ok (fst run) = true -> n = (1 + Z.to_nat average)%nat).
Proof.
  intros run n. subst run n.
  destruct (capture_emits exposure_us gain gain_boost average w)
    as (r & w' & evs & Hrun & Hext & conf & Hconf & Hshape).
  rewrite (events_of_extends _ _ _ _ _ Hrun Hext). rewrite Hrun. simpl fst.
  assert (Hcp : pulled conf = []).
  { eapply pulled_calls_in; [| exact Hconf]. unfold config_calls.
    intros Hin. absurd_elem Hin. }
  destruct Hshape as [[-> Hr] | (acq & -> & [(x & -> & ->) | Hacq])].
  - rewrite Hcp. simpl. split; [lia | congruence].
  - rewrite pulled_app, Hcp. simpl. split; [lia | discriminate].
  - destruct Hacq as (rs & rd & body & post & -> & Hpulls & Hpost & Hout).
    rewrite (pulled_capture_ok conf rs rd post Hconf Hpost).
    destruct (pulls_outcome_length _ _ _ Hpulls) as [Hle Heq].
    split; [exact Hle |]. intros Hok. apply Heq.
    destruct rd as [u | x]; [| destruct Hout as [-> _]; discriminate].
    destruct body as [imgs | x]; [reflexivity | destruct Hout as [-> _]; discriminate].
Qed.

Lemma pulls_outcome_raised (average : Z) rs body x :
  pulls_outcome average rs body -> Raise x ∈ rs -> body = Raise x.
Proof.
  intros [(warm & oks & -> & _) | (oks & y & -> & _ & ->)] Hin.
  - apply list_elem_of_In, in_map_iff in Hin as (fm & [=] & _).
  - apply elem_of_app in Hin as [Hin | Hin].
    + apply list_elem_of_In, in_map_iff in Hin as (fm & [=] & _).
    + apply list_elem_of_singleton in Hin. congruence.
Qed.

(** X3.  The [finally] of [capture]: when a frame pull raises [x] and the
    disable returns, the call raises [x] unchanged; when the disable itself
    raises [y], the call raises [y], whatever happened to the pulls. *)
Theorem capture_finally_outcome (w : world D)
    (exposure_us gain : Z) (gain_boost : bool) (average : Z) :
  let r := fst (capture exposure_us gain gain_boost average w) in
  let evs := events_of (capture exposure_us gain gain_boost average) w in
  (forall y, disable (Raise y) ∈ evs -> r = Raise y) /\
  (forall x, EvNext (Raise x) ∈ evs -> disable (Ok tt) ∈ evs -> r = Raise x).
Proof.
  intros r evs. subst r evs.
  destruct (capture_emits exposure_us gain gain_boost average w)
    as (r & w' & evs & Hrun & Hext & conf & Hconf & Hshape).
  rewrite (events_of_extends _ _ _ _ _ Hrun Hext). rewrite Hrun. simpl fst.
  assert (Hnc : forall ev, ev ∈ conf -> call_of ev ∈ config_calls)
    by (intros ev; apply calls_in_elem, Hconf).
  assert (Hdis : forall rd, disable rd ∉ conf).
  { intros rd Hin. apply Hnc in Hin. unfold config_calls in Hin. simpl in Hin.
    absurd_elem Hin. }
  assert (Hnext : forall rn, EvNext rn ∉ conf).
  { intros rn Hin. apply Hnc in Hin. unfold config_calls in Hin. simpl in Hin.
    absurd_elem Hin. }
  destruct Hshape as [[-> Hr] | (acq & -> & [(x & -> & ->) | Hacq])].
  - split; [intros y Hin; destruct (Hdis _ Hin) | intros x Hin; destruct (Hnext _ Hin)].
  - split.
    + intros y Hin. apply elem_of_app in Hin as [Hin | Hin]; [destruct (Hdis _ Hin) |].
      apply list_elem_of_singleton in Hin. discriminate Hin.
    + intros x0 Hin. apply elem_of_app in Hin as [Hin | Hin]; [destruct (Hnext _ Hin) |].
      apply list_elem_of_singleton in Hin. discriminate Hin.
  - destruct Hacq as (rs & rd & body & post & -> & Hpulls & Hpost & Hout).
    assert (Hpd : forall rd', disable rd' ∉ post).
    { intros rd' Hin. apply (calls_in_elem _ _ _ Hpost) in Hin.
      unfold read_back_calls in Hin. simpl in Hin. absurd_elem Hin. }
    assert (Hpn : forall rn, EvNext rn ∉ post).
    { intros rn Hin. apply (calls_in_elem _ _ _ Hpost) in Hin.
      unfold read_back_calls in Hin. simpl in Hin. absurd_elem Hin. }
    assert (Hd : forall rd', disable rd'
                  ∈ conf ++ enable (Ok ()) :: map EvNext rs ++ disable rd :: post ->
                  rd' = rd).
    { intros rd' Hin. apply elem_of_app in Hin as [Hin | Hin]; [destruct (Hdis _ Hin) |].
      apply elem_of_cons in Hin as [Hin | Hin]; [discriminate Hin |].
      apply elem_of_app in Hin as [Hin | Hin].
      - apply list_elem_of_In, in_map_iff in Hin as (r0 & [=] & _).
      - apply elem_of_cons in Hin as [Hin | Hin]; [| destruct (Hpd _ Hin)].
        unfold disable in Hin. injection Hin as ->. reflexivity. }
    split.
    + intros y Hin. apply Hd in Hin. subst rd. destruct Hout as [-> _]. reflexivity.
    + intros x Hin Hok. apply Hd in Hok. subst rd.
      assert (Hrs : Raise x ∈ rs).
      { apply elem_of_app in Hin as [Hin | Hin]; [destruct (Hnext _ Hin) |].
        apply elem_of_cons in Hin as [Hin | Hin]; [discriminate Hin |].
        apply elem_of_app in Hin as [Hin | Hin].
        - apply list_elem_of_In, in_map_iff in Hin as (r0 & [= ->] & Hin).
          apply list_elem_of_In, Hin.
        - apply elem_of_cons in Hin as [Hin | Hin]; [discriminate Hin | destruct (Hpn _ Hin)]. }
      rewrite (pulls_outcome_raised _ _ _ _ Hpulls Hrs) in Hout.
      destruct Hout as [-> _]. reflexivity.
Qed.

End CaptureAlways.

Section ConfigurationOrder.
Context {D : Driver}.

Lemma mul_float_int_inv (z : Z) (b : Float.float) (v : pyval) :
  Py.mul_float (PyInt z) b = Ok v ->
  exists fz, Float.of_int z = Ok fz /\ v = PyFloat (Float.mul fz b).
Proof.
  unfold Py.mul_float. destruct (Float.of_int z) as [fz | e]; [| discriminate].
  intros [= <-]. eauto.
Qed.

(** Lines 83 to 85, when they succeed: the three assignments, in order. *)
Lemma set_exposure_gain_detail (exposure_us gain : Z) (gain_boost : bool) :
  emits (D:=D) (set_exposure_gain exposure_us gain gain_boost)
    (fun r evs =>
       calls_in [CSet Exposure; CSet Gain; CSet GainBoost] evs /\
       forall u, r = Ok u ->
         exists fe, Float.of_int exposure_us = Ok fe /\
           evs = [EvSet Exposure (PyFloat (Float.mul fe Float.f_1e_3)) (Ok tt);
                  EvSet Gain (PyInt gain) (Ok tt);
                  EvSet GainBoost (PyBool gain_boost) (Ok tt)]).
Proof.
  unfold set_exposure_gain.
  destruct (Py.mul_float (PyInt exposure_us) Float.f_1e_3) as [ex | e0] eqn:Hm.
  - apply mul_float_int_inv in Hm as (fe & Hfe & ->).
    eapply emits_weaken; [emits_sp |].
    intros r evs H. sp_cases; (split; [calls_in_solve |]); intros u Hu;
      try discriminate.
    exists fe. split; [assumption |]. subst r.
    repeat match goal with
           | H : Ok _ = Ok _ |- _ => injection H as ->
           | u : unit |- _ => destruct u
           end.
    reflexivity.
  - eapply emits_weaken; [emits_sp |].
    intros r evs H. sp_cases; (split; [calls_in_solve |]); intros u Hu; discriminate.
Qed.

Lemma acquired_acquire_calls (average : Z) (r : result captured) (evs : list event) :
  acquired average r evs ->
  exists r_en rest, evs = enable r_en :: rest /\ calls_in acquire_calls rest /\
                    forall r', enable r' ∉ rest.
Proof.
  intros [(x & -> & _) | (rs & rd & body & post & -> & _ & Hpost & _)].
  - exists (Raise x), []. split; [reflexivity |].
    split; [apply calls_in_nil | intros r' Hin; apply elem_of_nil in Hin; exact Hin].
  - exists (Ok tt), (map EvNext rs ++ disable rd :: post). split; [reflexivity |]. split.
    + apply calls_in_app.
      * unfold calls_in. apply Forall_forall. intros ev Hin.
        apply list_elem_of_In, in_map_iff in Hin as (r0 & <- & _).
        apply (bool_decide_unpack _). reflexivity.
      * apply calls_in_cons; [apply (bool_decide_unpack _); reflexivity |].
        eapply calls_in_mono; [| exact Hpost]. apply (bool_decide_unpack _). reflexivity.
    + intros r' Hin. apply elem_of_app in Hin as [Hin | Hin].
      * apply list_elem_of_In, in_map_iff in Hin as (r0 & [=] & _).
      * apply elem_of_cons in Hin as [Hin | Hin]; [discriminate Hin |].
        apply (calls_in_elem _ _ _ Hpost) in Hin.
        unfold read_back_calls in Hin. simpl in Hin. absurd_elem Hin.
Qed.

(** X4.  Whenever a call of [capture] gets as far as the assignment that enables
    continuous capture, the driver has seen, after the pixel clock step and
    all returning: the frame rate [min(100, 1e6 / exposure_us)], the exposure
    [exposure_us * 1e-3] as a float, the gain and the boost flag exactly as
    passed, in this order, immediately before the enable; afterwards it sees
    only pulls, the disable and the reads of line 107. *)
Theorem capture_configuration_order (w : world D)
    (exposure_us gain : Z) (gain_boost : bool) (average : Z) (r_en : result unit) :
  enable r_en ∈ events_of (capture exposure_us gain gain_boost average) w ->
  exists pc fr fe rest,
    calls_in pixelclock_calls pc /\
    framerate exposure_us = Ok fr /\
    Float.of_int exposure_us = Ok fe /\
    events_of (capture exposure_us gain gain_boost average) w
    = pc ++ [EvSet Framerate fr (Ok tt);
             EvSet Exposure (PyFloat (Float.mul fe Float.f_1e_3)) (Ok tt);
             EvSet Gain (PyInt gain) (Ok tt);
             EvSet GainBoost (PyBool gain_boost) (Ok tt);
             enable r_en] ++ rest /\
    calls_in acquire_calls rest.
Proof.
  assert (Hemit : emits (D:=D) (capture exposure_us gain gain_boost average)
            (fun r evs =>
               exists pc, calls_in pixelclock_calls pc /\
                 ((calls_in config_calls evs) \/
                  (exists fr fe r0 rest,
                      framerate exposure_us = Ok fr /\
                      Float.of_int exposure_us = Ok fe /\
                      evs = pc ++ [EvSet Framerate fr (Ok tt);
                                   EvSet Exposure (PyFloat (Float.mul fe Float.f_1e_3)) (Ok tt);
                                   EvSet Gain (PyInt gain) (Ok tt);
                                   EvSet GainBoost (PyBool gain_boost) (Ok tt);
                                   enable r0] ++ rest /\
                      calls_in acquire_calls rest /\
                      forall r', enable r' ∉ rest)))).
  { unfold capture. eapply emits_weaken.
    - eapply emits_seq; [apply set_pixelclock_emits | intros ?].
      eapply emits_seq; [apply set_framerate_emits | intros ?].
      eapply emits_seq; [apply set_exposure_gain_detail | intros ?; apply acquire_emits].
    - cbv beta.
      assert (Hpc : forall evs, calls_in pixelclock_calls evs -> calls_in config_calls evs)
        by (intros evs; apply calls_in_mono; apply (bool_decide_unpack _); reflexivity).
      assert (Heg : forall evs, calls_in [CSet Exposure; CSet Gain; CSet GainBoost] evs ->
                                calls_in config_calls evs)
        by (intros evs; apply calls_in_mono; apply (bool_decide_unpack _); reflexivity).
      assert (Hfr : forall fr r0, calls_in config_calls [EvSet Framerate fr r0])
        by (intros; unfold config_calls; calls_in_solve).
      intros r evs [(e & -> & H1) | (u1 & evs1 & evs2 & -> & H1 & H2)].
      { exists evs. split; [exact H1 | left; auto]. }
      exists evs1. split; [exact H1 |].
      destruct H2 as [(e & -> & H2) | (u2 & evs3 & evs4 & -> & H2 & H3)].
      { left. apply calls_in_app; [auto |].
        destruct H2 as [(e' & _ & _ & ->) | (fr & r0 & _ & -> & _)];
          [apply calls_in_nil | apply Hfr]. }
      destruct H2 as [(e' & _ & [=] & _) | (fr & r0 & Hfr' & -> & <-)].
      destruct H3 as [(e & -> & H3 & _) | (u3 & evs5 & evs6 & -> & (H3 & H3') & H4)].
      { left. repeat apply calls_in_app; auto. }
      destruct (H3' _ eq_refl) as (fe & Hfe & ->).
      destruct (acquired_acquire_calls _ _ _ H4) as (r0 & rest & -> & Hrest & Hno).
      right. exists fr, fe, r0, rest. destruct u2.
      split; [exact Hfr' |]. split; [exact Hfe |]. split; [reflexivity | auto]. }
  destruct (Hemit w) as (r & w' & evs & Hrun & Hext & pc & Hpc & Hcases).
  rewrite (events_of_extends _ _ _ _ _ Hrun Hext).
  intros Hin.
  assert (Hnotpc : forall ev, ev ∈ pc -> ev <> enable r_en).
  { intros ev Hev ->. apply (calls_in_elem _ _ _ Hpc) in Hev.
    unfold pixelclock_calls in Hev. simpl in Hev. absurd_elem Hev. }
  destruct Hcases as [Hconf | (fr & fe & r0 & rest & Hfr & Hfe & -> & Hrest & Hno)].
  - apply (calls_in_elem _ _ _ Hconf) in Hin.
    unfold config_calls in Hin. simpl in Hin. absurd_elem Hin.
  - exists pc, fr, fe, rest.
    assert (r0 = r_en) as ->; [| auto].
    apply elem_of_app in Hin as [Hin | Hin]; [destruct (Hnotpc _ Hin eq_refl) |].
    apply elem_of_app in Hin as [Hin | Hin].
    + repeat (apply elem_of_cons in Hin as [Hin | Hin]; [try discriminate Hin |]).
      * unfold enable in Hin. injection Hin as ->. reflexivity.
      * apply elem_of_nil in Hin. contradiction.
    + destruct (Hno _ Hin).
Qed.

End ConfigurationOrder.

(** ** [camera.__init__] *)

Section Init.
Context {D : Driver}.

Lemma emits_open (nummem : Z) :
  emits (D:=D) (cam_open nummem) (fun r evs => evs = [EvOpen nummem r]).
Proof.
  intros w. unfold cam_open. destruct (drv_open D nummem (dev w)) as [r d].
  eexists _, _, _. split; [reflexivity |]. split; [apply extends_log | reflexivity].
Qed.

Lemma camera_init_emits :
  emits (D:=D) camera_init
    (fun r evs =>
       match r with
       | Ok _ => evs = returned (init_script D)
       | Raise x =>
           exists n f, init_script D !! n = Some f /\
                       evs = returned (take n (init_script D)) ++ [f (Raise x)]
       end).
Proof.
  unfold camera_init. eapply emits_weaken.
  - eapply emits_seq; [apply emits_open | intros ?; emits_sp].
  - intros r evs H. sp_cases;
      repeat match goal with u : unit |- _ => destruct u end;
      first [ reflexivity
            | exists 0%nat; eexists; split; reflexivity
            | exists 1%nat; eexists; split; reflexivity
            | exists 2%nat; eexists; split; reflexivity
            | exists 3%nat; eexists; split; reflexivity
            | exists 4%nat; eexists; split; reflexivity
            | exists 5%nat; eexists; split; reflexivity
            | exists 6%nat; eexists; split; reflexivity
            | exists 7%nat; eexists; split; reflexivity
            | idtac ].
    destruct r as [[] | x]; [reflexivity |].
    exists 7%nat. eexists. split; reflexivity.
Qed.

(** X5.  The constructor opens the camera with one memory buffer and then
    assigns, in this order, auto white balance off, continuous capture off,
    auto exposure off, exposure 100, the colour mode [COLOR_BAYER_8], gain
    boost off and gain 0.  It stops at the first call that raises, which it
    propagates: the driver then saw the calls before it, all returned, and
    that call.  It touches neither the store nor the disk, and it never
    pulls a frame. *)
Theorem camera_init_calls (w : world D) :
  let run := camera_init w in
  let evs := events_of camera_init w in
  match fst run with
  | Ok _ => evs = returned (init_script D)
  | Raise x =>
      exists n f, init_script D !! n = Some f /\
                  evs = returned (take n (init_script D)) ++ [f (Raise x)]
  end /\
  heap (snd run) = heap w /\ fs (snd run) = fs w /\ pulled evs = [].
Proof.
  intros run evs. subst run evs.
  destruct (camera_init_emits w) as (r & w' & evs & Hrun & Hext & Hshape).
  rewrite (events_of_extends _ _ _ _ _ Hrun Hext). rewrite Hrun. simpl.
  destruct Hext as (_ & Hh & Hf & _).
  split; [exact Hshape |]. split; [exact Hh |]. split; [exact Hf |].
  destruct r as [u | x].
  - subst evs. reflexivity.
  - destruct Hshape as (n & f & Hf' & ->).
    rewrite pulled_app.
    assert (Hscript : forall k g, init_script D !! k = Some g ->
                                  forall r0, pulled [g r0] = []).
    { intros k g Hk r0.
      do 8 (destruct k as [| k]; [injection Hk as <-; reflexivity |]).
      discriminate Hk. }
    rewrite (Hscript n f Hf' (Raise x)), app_nil_r.
    clear. unfold returned.
    generalize n. clear n. intros n.
    do 9 (destruct n as [| n]; [reflexivity |]). reflexivity.
Qed.

End Init.

(** ** [main]: what it leaves on disk *)

Section Preserves.
Context {D : Driver}.
Variable R : world D -> world D -> Prop.
Hypothesis R_refl : forall w, R w w.
Hypothesis R_trans : forall w1 w2 w3, R w1 w2 -> R w2 w3 -> R w1 w3.

Lemma preserves_bind {A B} (m : M D A) (k : A -> M D B) :
  preserves R m -> (forall a, preserves R (k a)) -> preserves R (bind m k).
Proof.
  intros Hm Hk w. unfold bind. specialize (Hm w).
  destruct (m w) as [[a | e] w1]; simpl in *; [| exact Hm].
  eapply R_trans; [exact Hm | apply Hk].
Qed.

Lemma preserves_lift {A} (r : result A) : preserves R (lift (D:=D) r).
Proof. intros w. apply R_refl. Qed.

Lemma preserves_for_each {A S} (xs : list A) (body : S -> A -> M D S) (s : S) :
  (forall s x, preserves R (body s x)) -> preserves R (for_each xs body s).
Proof.
  intros Hbody. revert s. induction xs as [| x xs IH]; intros s; simpl.
  - intros w. apply R_refl.
  - apply preserves_bind; [apply Hbody | exact IH].
Qed.


Lemma preserves_try_finally {A} (body : M D A) (fin : M D unit) :
  preserves R body -> preserves R fin -> preserves R (try_finally body fin).
Proof.
  intros Hb Hf w. unfold try_finally. specialize (Hb w).
  destruct (body w) as [r w1]. specialize (Hf w1).
  destruct (fin w1) as [[u | e] w2]; simpl in *; eapply R_trans; eassumption.
Qed.

(** A computation that leaves the disk alone preserves every relation that
    only looks at the disk. *)
Lemma preserves_same_disk {A} (m : M D A) :
  (forall w w', fs w' = fs w -> R w w') ->
  preserves same_disk m -> preserves R m.
Proof. intros HR Hm w. apply HR, Hm. Qed.

End Preserves.

Section MainDisk.
Context {D : Driver}.

Lemma same_disk_refl (w : world D) : same_disk w w.
Proof. reflexivity. Qed.

Lemma same_disk_trans (w1 w2 w3 : world D) :
  same_disk w1 w2 -> same_disk w2 w3 -> same_disk w1 w3.
Proof. unfold same_disk. congruence. Qed.

Lemma same_disk_emits {A} (m : M D A) (P : result A -> list event -> Prop) :
  emits m P -> preserves same_disk m.
Proof.
  intros Hm w. destruct (Hm w) as (r & w' & evs & -> & (_ & _ & Hf & _) & _).
  exact Hf.
Qed.

Lemma same_disk_dict_read (v : pyval) : preserves (D:=D) same_disk (dict_read v).
Proof.
  intros w. unfold dict_read. destruct v; try reflexivity.
  destruct (heap w !! l); reflexivity.
Qed.

Lemma same_disk_info : preserves (D:=D) same_disk info.
Proof.
  unfold info. apply preserves_bind; [apply same_disk_trans | |].
  - eapply same_disk_emits, emits_get.
  - intros v. unfold dict_copy.
    apply preserves_bind; [apply same_disk_trans | apply same_disk_dict_read |].
    intros d w. reflexivity.
Qed.

Lemma same_disk_dict_getitem (v : pyval) (k : string) :
  preserves (D:=D) same_disk (dict_getitem v k).
Proof.
  unfold dict_getitem.
  apply preserves_bind; [apply same_disk_trans | apply same_disk_dict_read |].
  intros d w. destruct (d !! k); reflexivity.
Qed.

Lemma same_disk_camera_init : preserves (D:=D) same_disk camera_init.
Proof. eapply same_disk_emits, camera_init_emits. Qed.

End MainDisk.


(** ** Errors end the run *)

Section TraceRules.
Context {D : Driver}.

Lemma events_since_app (w w' : world D) (evs : list event) :
  trace w' = trace w ++ evs -> events_since w w' = evs.
Proof. intros Ht. unfold events_since. rewrite Ht. apply drop_app_length. Qed.

Lemma traces_weaken {A} (m : M D A) (P Q : result A -> list event -> Prop) :
  traces m P -> (forall r evs, P r evs -> Q r evs) -> traces m Q.
Proof. intros Hm HPQ w. destruct (Hm w) as (evs & Ht & HP). eauto. Qed.

Lemma emits_traces {A} (m : M D A) (P : result A -> list event -> Prop) :
  emits m P -> traces m P.
Proof.
  intros Hm w. destruct (Hm w) as (r & w' & evs & -> & (Ht & _) & HP).
  exists evs. auto.
Qed.

Lemma stops_nil {A} (r : result A) : stops_at_error r [].
Proof.
  split; [intros _; constructor |]. exists [], []. split; [reflexivity |].
  split; [constructor | auto].
Qed.

Lemma stops_one {A} (r : result A) (ev : event) :
  (is_ok r = true -> raised ev = false) -> stops_at_error r [ev].
Proof.
  intros H. split; [intros Hok; constructor; [auto | constructor] |].
  exists [], [ev]. split; [reflexivity |]. split; [constructor | eauto].
Qed.

Lemma stops_app {A B} (a : A) (r : result B) (evs1 evs2 : list event) :
  stops_at_error (Ok a) evs1 -> stops_at_error r evs2 ->
  stops_at_error r (evs1 ++ evs2).
Proof.
  intros [H1 _] [H2 (pre & tail & -> & Hpre & Htail)].
  specialize (H1 eq_refl). split.
  - intros Hok. apply Forall_app. auto.
  - exists (evs1 ++ pre), tail. split; [apply app_assoc |].
    split; [apply Forall_app; auto | exact Htail].
Qed.

Lemma stops_raise {A B} (e : exn) (evs : list event) :
  stops_at_error (A:=A) (Raise e) evs -> stops_at_error (A:=B) (Raise e) evs.
Proof. intros [_ H]. split; [discriminate | exact H]. Qed.

Lemma traces_silent {A} (m : M D A) :
  (forall w, trace (snd (m w)) = trace w) -> traces m stops_at_error.
Proof.
  intros Hm w. exists []. rewrite app_nil_r. split; [apply Hm | apply stops_nil].
Qed.

Lemma traces_bind {A B} (m : M D A) (k : A -> M D B) :
  traces m stops_at_error -> (forall a, traces (k a) stops_at_error) ->
  traces (bind m k) stops_at_error.
Proof.
  intros Hm Hk w. unfold bind. destruct (Hm w) as (evs1 & Ht1 & H1).
  destruct (m w) as [[a | e] w1]; simpl in *.
  - destruct (Hk a w1) as (evs2 & Ht2 & H2). exists (evs1 ++ evs2).
    split; [rewrite Ht2, Ht1; symmetry; apply app_assoc |].
    eapply stops_app; eassumption.
  - exists evs1. split; [exact Ht1 | eapply stops_raise, H1].
Qed.

Lemma traces_for_each {A S} (xs : list A) (body : S -> A -> M D S) (s : S) :
  (forall s x, traces (body s x) stops_at_error) ->
  traces (for_each xs body s) stops_at_error.
Proof.
  intros Hbody. revert s. induction xs as [| x xs IH]; intros s; simpl.
  - apply traces_silent. reflexivity.
  - apply traces_bind; [apply Hbody | exact IH].
Qed.

Lemma traces_open (nummem : Z) : traces (D:=D) (cam_open nummem) stops_at_error.
Proof.
  eapply traces_weaken; [apply emits_traces, emits_open |].
  intros r evs ->. apply stops_one. simpl. intros ->. reflexivity.
Qed.

Lemma traces_set (p : prop) (v : pyval) :
  traces (D:=D) (cam_set p v) stops_at_error.
Proof.
  eapply traces_weaken; [apply emits_traces, emits_set |].
  intros r evs ->. apply stops_one. simpl. intros ->. reflexivity.
Qed.

Lemma traces_get (p : prop) : traces (D:=D) (cam_get p) stops_at_error.
Proof.
  eapply traces_weaken; [apply emits_traces, emits_get |].
  intros r evs ->. apply stops_one. simpl. intros ->. reflexivity.
Qed.

Lemma returned_pulls (oks : list (frame * pyval)) :
  Forall (fun ev => raised ev = false) (map EvNext (map Ok oks)).
Proof. induction oks; simpl; constructor; auto. Qed.

(** Lines 91 to 100: the only calls after a pull that raised is the
    disable. *)
Lemma traces_pull_frames (average : Z) :
  traces (D:=D) (pull_frames average) stops_at_error.
Proof.
  eapply traces_weaken; [apply emits_traces, pull_frames_emits |].
  intros r evs (rs & rd & body & -> & Hpulls & ->).
  destruct Hpulls as [(warm & oks & -> & _ & ->) | (oks & x & -> & _ & ->)].
  - split.
    + intros Hok. apply Forall_app. split; [apply returned_pulls |].
      constructor; [| constructor]. destruct rd; [reflexivity | discriminate Hok].
    + exists (map EvNext (map Ok (warm :: oks))), [disable rd].
      split; [reflexivity |]. split; [apply returned_pulls | eauto].
  - split; [destruct rd; discriminate |].
    exists (map EvNext (map Ok oks)), [EvNext (Raise x); disable rd].
    split; [rewrite map_app, <- app_assoc; reflexivity |].
    split; [apply returned_pulls | eauto 6].
Qed.

Lemma traces_dict_read (v : pyval) : traces (D:=D) (dict_read v) stops_at_error.
Proof.
  apply traces_silent. intros w. unfold dict_read.
  destruct v; try reflexivity. destruct (heap w !! l); reflexivity.
Qed.

(** The shape [stops_at_error] is what [fail_fast] asks for. *)
Lemma stops_fail_fast {A} (r : result A) (evs : list event) :
  stops_at_error r evs -> fail_fast evs.
Proof.
  intros [_ (pre & tail & -> & Hpre & Htail)] pre' ev post Heq Hev.
  revert pre' Heq. induction Hpre as [| a pre Ha _ IH]; intros pre' Heq.
  - simpl in Heq.
    destruct Htail as [-> | [(ev0 & ->) | (x & rd & ->)]].
    + destruct pre'; discriminate Heq.
    + destruct pre' as [| b pre']; [injection Heq as _ <-; auto |].
      destruct pre'; discriminate Heq.
    + destruct pre' as [| b pre'].
      * injection Heq as <- <-. right. eauto.
      * destruct pre' as [| c pre']; [injection Heq as _ _ <-; auto |].
        destruct pre'; discriminate Heq.
  - destruct pre' as [| b pre'].
    + injection Heq as -> _. congruence.
    + injection Heq as _ Heq. eauto.
Qed.

End TraceRules.

Ltac stops_sp :=
  lazymatch goal with
  | |- traces (bind _ _) _ =>
      apply traces_bind; [stops_sp | intros ?; cbv beta; stops_sp]
  | |- traces (cam_set _ _) _ => apply traces_set
  | |- traces (cam_get _) _ => apply traces_get
  | |- traces (cam_open _) _ => apply traces_open
  | |- traces (pull_frames _) _ => apply traces_pull_frames
  | |- traces (dict_read _) _ => apply traces_dict_read
  | |- traces (for_each _ _ _) _ =>
      apply traces_for_each; intros ? ?; cbv beta; stops_sp
  | |- traces (if ?b then _ else _) _ => destruct b; stops_sp
  | |- traces (match ?x with _ => _ end) _ => destruct x; stops_sp
  | |- traces _ _ => apply traces_silent; intros ?; reflexivity
  end.

Section FailFast.
Context {D : Driver}.

Lemma traces_capture (exposure_us gain : Z) (gain_boost : bool) (average : Z) :
  traces (D:=D) (capture exposure_us gain gain_boost average) stops_at_error.
Proof.
  unfold capture, set_pixelclock, set_framerate, set_exposure_gain, acquire,
    read_back.
  stops_sp.
Qed.

Lemma traces_sweep (cfg : config) (base_path : string) :
  traces (D:=D) (sweep cfg base_path) stops_at_error.
Proof.
  unfold sweep. repeat (apply traces_for_each; intros ? ?).
  unfold sweep_point, savemat.
  apply traces_bind; [stops_sp | intros _].
  apply traces_bind; [apply traces_capture | intros c]. stops_sp.
Qed.

Lemma traces_main_with (cfg : config) :
  traces (D:=D) (main_with cfg) stops_at_error.
Proof.
  unfold main_with, camera_init, info, dict_copy, dict_getitem.
  apply traces_bind; [stops_sp | intros _].
  apply traces_bind; [stops_sp | intros cam_info].
  apply traces_bind; [stops_sp | intros serial].
  destruct serial; try (apply traces_silent; intros ?; reflexivity).
  cbv zeta.
  apply traces_bind; [stops_sp | intros isdir].
  apply traces_bind; [stops_sp | intros _].
  apply traces_bind; [stops_sp | intros d].
  apply traces_bind; [stops_sp | intros _].
  apply traces_bind; [apply traces_sweep | intros data].
  destruct data; apply traces_silent; intros ?; reflexivity.
Qed.

(** X7.  Fail fast.  In every run of [main], against any driver: a driver call
    that raised is the last call of the run, except that a frame pull that
    raised is followed by the disable of the [finally] and nothing else; and
    when [main] ends normally, no driver call raised. *)
Theorem main_fail_fast (cfg : config) (w : world D) :
  fail_fast (events_of (main_with cfg) w) /\
  (is_ok (fst (main_with cfg w)) = true ->
   Forall (fun ev => raised ev = false) (events_of (main_with cfg) w)).
Proof.
  destruct (traces_main_with cfg w) as (evs & Ht & Hstops).
  unfold events_of. rewrite (events_since_app _ _ _ Ht).
  split; [eapply stops_fail_fast, Hstops | apply Hstops].
Qed.

(** X6.  Fail fast within one call of [capture], against any driver: a driver
    call that raised is the last call of [capture], except that a frame pull
    that raised is followed by the disable of the [finally] and nothing
    else; and when [capture] returns, no driver call raised. *)
Theorem capture_fail_fast (w : world D)
    (exposure_us gain : Z) (gain_boost : bool) (average : Z) :
  fail_fast (events_of (capture exposure_us gain gain_boost average) w) /\
  (is_ok (fst (capture exposure_us gain gain_boost average w)) = true ->
   Forall (fun ev => raised ev = false)
     (events_of (capture exposure_us gain gain_boost average) w)).
Proof.
  destruct (traces_capture exposure_us gain gain_boost average w) as (evs & Ht & Hstops).
  unfold events_of. rewrite (events_since_app _ _ _ Ht).
  split; [eapply stops_fail_fast, Hstops | apply Hstops].
Qed.

End FailFast.

(** ** [main] against a well-behaved driver *)

Section ForEach.
Context {D : Driver}.

Lemma for_each_app {A S} (xs ys : list A) (body : S -> A -> M D S) (s : S)
    (w : world D) :
  for_each (xs ++ ys) body s w = bind (for_each xs body s) (for_each ys body) w.
Proof.
  revert s w. induction xs as [| x xs IH]; intros s w; simpl; [reflexivity |].
  unfold bind in *. destruct (body s x w) as [[s1 | e] w1]; [apply IH | reflexivity].
Qed.

Lemma for_each_ext {A S} (xs : list A) (body body' : S -> A -> M D S) :
  (forall s x w, body s x w = body' s x w) ->
  forall s w, for_each xs body s w = for_each xs body' s w.
Proof.
  intros Hext. induction xs as [| x xs IH]; intros s w; simpl; [reflexivity |].
  unfold bind. rewrite Hext. destruct (body' s x w) as [[s1 | e] w1]; [apply IH | reflexivity].
Qed.

Lemma for_each_map {A B S} (f : A -> B) (xs : list A) (body : S -> B -> M D S)
    (s : S) (w : world D) :
  for_each (map f xs) body s w = for_each xs (fun s x => body s (f x)) s w.
Proof.
  revert s w. induction xs as [| x xs IH]; intros s w; simpl; [reflexivity |].
  unfold bind. destruct (body s (f x) w) as [[s1 | e] w1]; [apply IH | reflexivity].
Qed.

Lemma for_each_flat_map {A B S} (f : A -> list B) (xs : list A)
    (body : S -> B -> M D S) (s : S) (w : world D) :
  for_each (flat_map f xs) body s w
  = for_each xs (fun s x => for_each (f x) body s) s w.
Proof.
  revert s w. induction xs as [| x xs IH]; intros s w; simpl; [reflexivity |].
  rewrite for_each_app. unfold bind.
  destruct (for_each (f x) body s w) as [[s1 | e] w1]; [apply IH | reflexivity].
Qed.

(** The three nested loops of [main] visit the sweep points in order. *)
Lemma sweep_as_points (cfg : config) (base_path : string) (w : world D) :
  sweep cfg base_path w
  = for_each (sweep_points cfg) (at_point (cfg_average cfg) base_path) None w.
Proof.
  unfold sweep, sweep_points. rewrite for_each_flat_map.
  apply for_each_ext. intros s b w1. rewrite for_each_flat_map.
  apply for_each_ext. intros s' g w2. rewrite for_each_map. reflexivity.
Qed.

End ForEach.

Section PointPaths.

Local Open Scope string_scope.

Lemma mat_name_eq (e g e' g' : Z) (b b' : bool) :
  (0 <= e)%Z -> (0 <= g)%Z -> (0 <= e')%Z -> (0 <= g')%Z ->
  Fmt.mat_name e g b = Fmt.mat_name e' g' b' -> e = e' /\ g = g' /\ b = b'.
Proof.
  intros He Hg He' Hg' Heq.
  unfold Fmt.mat_name, Fmt.base_name in Heq.
  rewrite !append_assoc in Heq. simpl in Heq.
  injection Heq as Heq.
  rewrite !int0_nonneg in Heq by assumption.
  apply digit_run_unique in Heq as [Hexp Heq]; [| apply all_digits_zfill ..].
  injection Heq as Heq.
  apply digit_run_unique in Heq as [Hgain Heq]; [| apply all_digits_zfill ..].
  rewrite <- !int0_nonneg in Hexp, Hgain by assumption.
  apply int0_inj in Hexp; [| assumption ..].
  apply int0_inj in Hgain; [| assumption ..].
  split; [exact Hexp |]. split; [exact Hgain |].
  destruct b, b'; (reflexivity || discriminate Heq).
Qed.

Lemma mat_name_relative (e g : Z) (b : bool) :
  starts_with_slash (Fmt.mat_name e g b) = false.
Proof. reflexivity. Qed.

Lemma os_path_join_inj (base a b : string) :
  starts_with_slash a = false -> starts_with_slash b = false ->
  os_path_join base a = os_path_join base b -> a = b.
Proof.
  unfold os_path_join. intros -> ->.
  destruct (bool_decide (base = "") || ends_with_slash base)%bool.
  - apply append_inj_l.
  - intros H. apply append_inj_l in H. apply (append_inj_l "/") in H. exact H.
Qed.

Lemma valid_point_inv (p : bool * Z * Z) :
  valid_point p = true ->
  (0 < snd p)%Z /\ (0 <= snd (fst p))%Z /\ exists fe, Float.of_int (snd p) = Ok fe.
Proof.
  unfold valid_point, valid_exposure. intros H.
  apply andb_true_iff in H as [H Hg]. apply andb_true_iff in H as [He Hf].
  split; [lia |]. split; [lia |].
  destruct (Float.of_int (snd p)) as [fe | x]; [eauto | discriminate Hf].
Qed.

(** Valid sweep points with the same artifact path are the same point. *)
Lemma point_path_inj (base : string) (p q : bool * Z * Z) :
  valid_point p = true -> valid_point q = true ->
  point_path base p = point_path base q -> p = q.
Proof.
  intros Hp Hq Heq.
  apply valid_point_inv in Hp as (Hp1 & Hp2 & _).
  apply valid_point_inv in Hq as (Hq1 & Hq2 & _).
  unfold point_path, point_name in Heq.
  apply os_path_join_inj in Heq; [| apply mat_name_relative ..].
  apply mat_name_eq in Heq as (He & Hg & Hb); [| lia ..].
  destruct p as [[b g] e], q as [[b' g'] e']. simpl in *. congruence.
Qed.

Lemma info_json_not_point (base : string) (p : bool * Z * Z) :
  os_path_join base "info.json" <> point_path base p.
Proof.
  unfold point_path. intros Heq.
  apply os_path_join_inj in Heq; [| reflexivity | apply mat_name_relative].
  discriminate Heq.
Qed.

Lemma valid_sweep_points (cfg : config) :
  Forall (fun e => valid_exposure e = true) (cfg_exposures cfg) ->
  Forall (fun g => (0 <= g)%Z) (cfg_gains cfg) ->
  Forall (fun p => valid_point p = true) (sweep_points cfg).
Proof.
  intros He Hg. apply Forall_forall. intros [[b g] e] Hin.
  unfold sweep_points in Hin.
  apply list_elem_of_In, in_flat_map in Hin as (b0 & _ & Hin).
  apply in_flat_map in Hin as (g0 & Hg0 & Hin).
  apply in_map_iff in Hin as (e0 & [= <- <- <-] & He0).
  unfold valid_point. simpl.
  rewrite Forall_forall in He, Hg.
  rewrite (He e0) by (apply list_elem_of_In, He0).
  apply andb_true_iff. split; [reflexivity |].
  apply Z.leb_le, Hg, list_elem_of_In, Hg0.
Qed.

Lemma NoDup_point_paths (base : string) (ps : list (bool * Z * Z)) :
  Forall (fun p => valid_point p = true) ps ->
  NoDup ps -> NoDup (point_path base <$> ps).
Proof.
  intros Hv Hnd. induction Hnd as [| p ps Hp _ IH]; simpl; [constructor |].
  apply Forall_cons in Hv as [Hvp Hvs]. constructor; [| auto].
  intros Hin. apply list_elem_of_fmap in Hin as (q & Heq & Hq).
  rewrite Forall_forall in Hvs.
  apply point_path_inj in Heq; [| assumption | apply Hvs, Hq].
  subst q. contradiction.
Qed.

End PointPaths.

(** ** [main]: where it writes *)

Section WrittenNames.

Local Open Scope string_scope.








End WrittenNames.

Section Under.
Context {D : Driver}.
Variable base : string.
Variable names : list string.









End Under.

Section MainUnder.
Context {D : Driver}.

Local Open Scope string_scope.




End MainUnder.

Section Shapes.
Context {D : Driver} (sh : list nat) (Hwb : well_behaved D sh).

Lemma bind_inv_ok {A B} (m : M D A) (k : A -> M D B) (w w' : world D) (b : B) :
  bind m k w = (Ok b, w') -> exists a w1, m w = (Ok a, w1) /\ k a w1 = (Ok b, w').
Proof.
  unfold bind. destruct (m w) as [[a | e] w1]; [eauto | discriminate].
Qed.

Lemma reduce_shape (average : Z) (fms : list (frame * pyval)) (img : image) :
  length fms = Z.to_nat average ->
  Forall (fun fm => shape (fst fm) = sh) fms ->
  reduce average (map fst fms) = Ok img ->
  (0 < average -> shape img = sh) /\
  (average <= 0 -> img = mk_ndarray [0%nat] []).
Proof.
  intros Hlen Hall. unfold reduce.
  destruct (Z.ltb_spec 0 average) as [Hpos | Hle].
  - destruct fms as [| [a ma] rest]; [simpl in Hlen; lia |].
    simpl map. unfold Np.mean_axis0.
    destruct (forallb _ _); [| discriminate]. intros [= <-]. simpl.
    apply Forall_cons in Hall as [Ha _]. split; [intros _; exact Ha | lia].
  - destruct fms as [| fm rest]; [| simpl in Hlen; lia].
    simpl. intros [= <-]. split; [lia | reflexivity].
Qed.

(** The image that [capture] returns has the shape of the driver's frames
    when [average > 0]; otherwise it is the array of shape [(0,)]. *)
Lemma capture_shape (exposure_us gain : Z) (gain_boost : bool) (average : Z)
    (fe : Float.float) (w w' : world D) (img : image) (ex gn : pyval) :
  exposure_us <> 0 -> Float.of_int exposure_us = Ok fe ->
  capture exposure_us gain gain_boost average w = (Ok (img, ex, gn), w') ->
  (0 < average -> shape img = sh) /\
  (average <= 0 -> img = mk_ndarray [0%nat] []).
Proof.
  intros Hz Hfe Hrun.
  destruct (configure_ok sh Hwb exposure_us gain gain_boost fe (acquire average) w Hz Hfe)
    as (w1 & conf & _ & _ & Hconf).
  destruct (cam_set_ok sh Hwb ContinuousCapture (PyBool true) w1
              ltac:(discriminate) ltac:(discriminate)) as (w2 & H2 & _).
  destruct (pull_frames_ok sh Hwb average w2) as (warm & fms & w3 & H3 & _ & Hlen & Hall).
  unfold capture in Hrun. rewrite Hconf in Hrun. unfold acquire in Hrun.
  rewrite (bind_ok _ _ _ _ _ H2), (bind_ok _ _ _ _ _ H3) in Hrun.
  apply bind_inv_ok in Hrun as (img0 & w4 & Hred & Hrun).
  unfold lift in Hred. injection Hred as Hred _.
  unfold read_back in Hrun.
  apply bind_inv_ok in Hrun as (e & w5 & _ & Hrun).
  apply bind_inv_ok in Hrun as (e_us & w6 & _ & Hrun).
  apply bind_inv_ok in Hrun as (g & w7 & _ & Hrun).
  unfold ret in Hrun. injection Hrun as <- _ _ _.
  exact (reduce_shape average fms img0 Hlen Hall Hred).
Qed.

End Shapes.

Section SweepRuns.
Context {D : Driver} (sh : list nat) (Hwb : well_behaved D sh).

(** One sweep point against a well-behaved driver: the artifact, and the
    driver calls behind it. *)
Lemma sweep_point_run (average : Z) (base_path : string) (gain_boost : bool)
    (gain exposure : Z) (fe : Float.float) (data : option captured) (w : world D) :
  exposure <> 0 -> Float.of_int exposure = Ok fe ->
  exists c w' evs,
    sweep_point average base_path gain_boost gain data exposure w = (Ok (Some c), w') /\
    stores (D:=D) exposure gain gain_boost average (mat_of c) /\
    files (fs w')
    = <[os_path_join base_path (Fmt.mat_name exposure gain gain_boost) := mat_of c]>
        (files (fs w)) /\
    dirs (fs w') = dirs (fs w) /\ heap w' = heap w /\ shown w' = shown w /\
    trace w' = trace w ++ evs /\
    length (pulled evs) = (1 + Z.to_nat average)%nat /\
    count is_enable evs = 1%nat /\ count is_disable evs = 1%nat /\
    (0 < average -> shape (fst (fst c)) = sh).
Proof.
  intros Hz Hfe. unfold sweep_point.
  destruct (extends_print w (MsgSweepPoint (Fmt.base_name exposure gain gain_boost)))
    as (w1 & H1 & E1).
  destruct (capture_ok sh Hwb exposure gain gain_boost average fe w1 Hz Hfe)
    as (conf & warm & fms & e_ms & gn & img & w2 & H2 & E2 & Hconf & Hlen & _).
  destruct E1 as (Ht1 & Hh1 & Hf1 & Hs1). destruct E2 as (Ht2 & Hh2 & Hf2 & Hs2).
  rewrite app_nil_r in Ht1.
  assert (Hback : calls_in read_back_calls
                    [EvGet Exposure (Ok (PyFloat e_ms)); EvGet Gain (Ok (PyInt gn))])
    by (unfold read_back_calls; calls_in_solve).
  eexists _, _, _.
  split; [| split; [| split; [| split; [| split; [| split; [| split; [| split;
    [| split; [| split]]]]]]]]].
  - erewrite bind_ok by eassumption. erewrite bind_ok by eassumption.
    unfold savemat, write_file. unfold bind at 1. reflexivity.
  - exists w1, w2, img, (Float.mul e_ms Float.f_1e3), gn. split; [exact H2 | reflexivity].
  - simpl. rewrite Hf2, Hf1. reflexivity.
  - simpl. rewrite Hf2, Hf1. reflexivity.
  - simpl. rewrite Hh2, Hh1. reflexivity.
  - simpl. rewrite Hs2, Hs1. reflexivity.
  - simpl. rewrite Ht2, Ht1. reflexivity.
  - rewrite (pulled_capture_ok conf (map Ok (warm :: fms)) (Ok tt) _ Hconf Hback).
    rewrite length_map. simpl. rewrite Hlen. reflexivity.
  - rewrite count_app, (count_config is_enable conf) by
      (first [intros ev Hev; apply config_not_stream, Hev | exact Hconf]).
    change (enable (Ok tt) :: ?l) with ([enable (Ok tt)] ++ l).
    rewrite !count_app, count_map_next by reflexivity. reflexivity.
  - rewrite count_app, (count_config is_disable conf) by
      (first [intros ev Hev; apply config_not_stream, Hev | exact Hconf]).
    change (enable (Ok tt) :: ?l) with ([enable (Ok tt)] ++ l).
    rewrite !count_app, count_map_next by reflexivity. reflexivity.
  - simpl. exact (proj1 (capture_shape sh Hwb _ _ _ _ _ _ _ _ _ _ Hz Hfe H2)).
Qed.

(** A list of valid sweep points, visited in order. *)
Lemma points_run (average : Z) (base_path : string) (ps : list (bool * Z * Z))
    (data : option captured) (w : world D) :
  Forall (fun p => valid_point p = true) ps ->
  exists data' w' evs,
    for_each ps (at_point average base_path) data w = (Ok data', w') /\
    dirs (fs w') = dirs (fs w) /\ heap w' = heap w /\
    trace w' = trace w ++ evs /\
    length (pulled evs) = (length ps * (1 + Z.to_nat average))%nat /\
    count is_enable evs = length ps /\ count is_disable evs = length ps /\
    (forall k, k ∉ point_path base_path <$> ps ->
               files (fs w') !! k = files (fs w) !! k) /\
    (forall k, k ∈ point_path base_path <$> ps ->
               exists p f, p ∈ ps /\ point_path base_path p = k /\
                           files (fs w') !! k = Some f /\
                           stores (D:=D) (snd p) (snd (fst p)) (fst (fst p)) average f) /\
    match last ps with
    | Some p => exists c, data' = Some c /\ shown w' = shown w /\
                          files (fs w') !! point_path base_path p = Some (mat_of c) /\
                          (0 < average -> shape (fst (fst c)) = sh)
    | None => data' = data /\ w' = w
    end.
Proof.
  intros Hv. revert data w. induction Hv as [| p ps Hp _ IH]; intros data w.
  - exists data, w, []. simpl. rewrite app_nil_r.
    repeat (split; [reflexivity |]).
    split; [intros k Hk; apply elem_of_nil in Hk; destruct Hk | auto].
  - apply valid_point_inv in Hp as (Hpos & _ & fe & Hfe).
    destruct (sweep_point_run average base_path (fst (fst p)) (snd (fst p)) (snd p)
                fe data w ltac:(lia) Hfe)
      as (c & w1 & evs1 & R1 & S1 & F1 & D1 & Hh1 & Hs1 & Ht1 & P1 & En1 & Di1 & Sh1).
    destruct (IH (Some c) w1)
      as (data' & w' & evs2 & R2 & D2 & Hh2 & Ht2 & P2 & En2 & Di2 & Hout & Hin & Hlast).
    exists data', w', (evs1 ++ evs2).
    split; [| split; [| split; [| split; [| split; [| split; [| split; [| split;
      [| split]]]]]]]].
    + simpl. unfold at_point at 1. erewrite bind_ok by exact R1. exact R2.
    + congruence.
    + congruence.
    + rewrite Ht2, Ht1, app_assoc. reflexivity.
    + rewrite pulled_app, length_app, P1, P2. simpl. lia.
    + rewrite count_app, En1, En2. reflexivity.
    + rewrite count_app, Di1, Di2. reflexivity.
    + intros k Hk. rewrite fmap_cons in Hk.
      apply not_elem_of_cons in Hk as [Hk1 Hk2].
      rewrite (Hout k Hk2), F1. apply lookup_insert_ne. intros Heq. apply Hk1.
      rewrite <- Heq. reflexivity.
    + intros k Hk.
      destruct (decide (k ∈ point_path base_path <$> ps)) as [Hk2 | Hk2].
      * destruct (Hin k Hk2) as (q & f & Hq & Hpath & Hf & Hst).
        exists q, f. split; [apply elem_of_cons; right; exact Hq | auto].
      * rewrite fmap_cons in Hk. apply elem_of_cons in Hk as [-> | Hk];
          [| contradiction].
        exists p, (mat_of c). split; [apply elem_of_cons; left; reflexivity |].
        split; [reflexivity |]. split; [| exact S1].
        rewrite (Hout _ Hk2), F1. apply lookup_insert_eq.
    + rewrite last_cons. destruct (last ps) as [q |].
      * destruct Hlast as (c' & -> & Hs2 & Hf & Sh2). exists c'.
        split; [reflexivity |]. split; [congruence | auto].
      * destruct Hlast as [-> ->]. exists c. split; [reflexivity |].
        split; [exact Hs1 |]. split; [| exact Sh1]. rewrite F1. apply lookup_insert_eq.
Qed.

End SweepRuns.

Section MainRuns.
Context {D : Driver} (sh : list nat) (Hwb : well_behaved D sh).
Context (l : loc) (d : gmap string pyval).
Hypothesis Hinfo : forall s, exists s', drv_get D Info s = (Ok (PyRef l), s').

Local Open Scope string_scope.

Lemma info_run (w : world D) :
  heap w !! l = Some d ->
  exists l1 w1,
    info w = (Ok (PyRef l1), w1) /\ heap w1 !! l1 = Some d /\
    fs w1 = fs w /\ shown w1 = shown w /\
    trace w1 = (trace w ++ [EvGet Info (Ok (PyRef l))])%list.
Proof.
  intros Hd. destruct (Hinfo (dev w)) as (s' & Hget).
  unfold info, bind, cam_get. rewrite Hget. simpl.
  unfold dict_copy, bind, dict_read. simpl. rewrite Hd. simpl.
  eexists _, _. split; [reflexivity |]. simpl.
  split; [apply lookup_insert_eq | auto].
Qed.

(** The constructor and the access to [camera.info]. *)
Lemma main_start {B} (k : pyval -> M D B) (w : world D) :
  heap w !! l = Some d ->
  exists l1 w2,
    bind camera_init (fun _ => bind info k) w = k (PyRef l1) w2 /\
    heap w2 !! l1 = Some d /\ fs w2 = fs w /\ shown w2 = shown w /\
    trace w2
    = (trace w ++ returned (init_script D) ++ [EvGet Info (Ok (PyRef l))])%list.
Proof.
  intros Hl.
  destruct (camera_init_emits w)
    as (r1 & w1 & evs1 & R1 & (Ht1 & Hh1 & Hf1 & Hs1) & Hshape).
  destruct (camera_init_ok sh Hwb w) as (w1' & evs' & R1' & _).
  rewrite R1 in R1'. injection R1' as -> _. subst evs1.
  destruct (info_run w1 ltac:(rewrite Hh1; exact Hl))
    as (l1 & w2 & R2 & Hl1 & Hf2 & Hs2 & Ht2).
  exists l1, w2. split; [| split; [exact Hl1 | split; [| split]]].
  - rewrite (bind_ok _ _ _ _ _ R1), (bind_ok _ _ _ _ _ R2). reflexivity.
  - congruence.
  - congruence.
  - rewrite Ht2, Ht1, <- app_assoc. reflexivity.
Qed.

(** Lines 112 to 121: up to the file [info.json]. *)
Lemma main_prefix (cfg : config) (serial_num : string) (w : world D) :
  heap w !! l = Some d -> d !! "serial_num" = Some (PyStr serial_num) ->
  exists w4,
    main_with cfg w
    = bind (sweep cfg (os_path_join "results" serial_num))
        (fun data => match data with
                     | Some c => imshow (fst (fst c))
                     | None => raise UnboundLocalError
                     end) w4 /\
    files (fs w4)
    = <[os_path_join (os_path_join "results" serial_num) "info.json" := JsonFile d]>
        (files (fs w)) /\
    dirs (fs w4) = {[os_path_join "results" serial_num]} ∪ dirs (fs w) /\
    shown w4 = shown w /\
    trace w4
    = (trace w ++ returned (init_script D) ++ [EvGet Info (Ok (PyRef l))])%list.
Proof.
  intros Hl Hserial. unfold main_with.
  match goal with
  | |- context [bind info ?k] =>
      destruct (main_start k w Hl) as (l1 & w2 & -> & Hl1 & Hf2 & Hs2 & Ht2)
  end.
  assert (R3 : dict_getitem (PyRef l1) "serial_num" w2 = (Ok (PyStr serial_num), w2)).
  { unfold dict_getitem, bind, dict_read. rewrite Hl1, Hserial. reflexivity. }
  rewrite (bind_ok _ _ _ _ _ R3). cbv beta iota zeta.
  set (base := os_path_join "results" serial_num).
  set (w3 := if bool_decide (base ∈ dirs (fs w2)) then w2
             else with_fs (mk_filesystem ({[base]} ∪ dirs (fs w2)) (files (fs w2))) w2).
  assert (Hh3 : heap w3 = heap w2) by (subst w3; case_bool_decide; reflexivity).
  assert (Hf3 : files (fs w3) = files (fs w2)) by (subst w3; case_bool_decide; reflexivity).
  assert (Hs3 : shown w3 = shown w2) by (subst w3; case_bool_decide; reflexivity).
  assert (Ht3 : trace w3 = trace w2) by (subst w3; case_bool_decide; reflexivity).
  assert (Hd3 : dirs (fs w3) = {[base]} ∪ dirs (fs w2)).
  { subst w3. case_bool_decide as Hb; [| reflexivity].
    apply leibniz_equiv. intros x. rewrite elem_of_union, elem_of_singleton.
    split; [auto | intros [-> | Hx]; assumption]. }
  exists (with_fs (mk_filesystem (dirs (fs w3))
                     (<[os_path_join base "info.json" := JsonFile d]> (files (fs w3)))) w3).
  split; [| split; [| split; [| split]]].
  - assert (Rd : os_path_isdir base w2 = (Ok (bool_decide (base ∈ dirs (fs w2))), w2))
      by reflexivity.
    rewrite (bind_ok _ _ _ _ _ Rd).
    assert (R4 : (if bool_decide (base ∈ dirs (fs w2)) then ret tt
                  else os_makedirs base) w2 = (Ok tt, w3))
      by (subst w3; case_bool_decide; reflexivity).
    rewrite (bind_ok _ _ _ _ _ R4).
    assert (R4' : dict_read (PyRef l1) w3 = (Ok d, w3))
      by (unfold dict_read; rewrite Hh3, Hl1; reflexivity).
    rewrite (bind_ok _ _ _ _ _ R4').
    unfold write_file at 1. unfold bind at 1. reflexivity.
  - simpl. rewrite Hf3, Hf2. reflexivity.
  - simpl. rewrite Hd3, Hf2. reflexivity.
  - simpl. congruence.
  - rewrite <- Ht2, <- Ht3. reflexivity.
Qed.

(** A whole run over valid sweep points. *)
Lemma main_with_run (cfg : config) (serial_num : string) (w : world D) :
  heap w !! l = Some d -> d !! "serial_num" = Some (PyStr serial_num) ->
  Forall (fun p => valid_point p = true) (sweep_points cfg) ->
  sweep_points cfg <> [] ->
  exists c p_last w' evs,
    main_with cfg w = (Ok tt, w') /\
    dirs (fs w') = {[os_path_join "results" serial_num]} ∪ dirs (fs w) /\
    files (fs w') !! os_path_join (os_path_join "results" serial_num) "info.json"
    = Some (JsonFile d) /\
    (forall p, p ∈ sweep_points cfg ->
       exists f, files (fs w') !! point_path (os_path_join "results" serial_num) p
                 = Some f /\
                 stores (D:=D) (snd p) (snd (fst p)) (fst (fst p)) (cfg_average cfg) f) /\
    (forall k, k <> os_path_join (os_path_join "results" serial_num) "info.json" ->
               k ∉ point_path (os_path_join "results" serial_num) <$> sweep_points cfg ->
               files (fs w') !! k = files (fs w) !! k) /\
    last (sweep_points cfg) = Some p_last /\
    files (fs w') !! point_path (os_path_join "results" serial_num) p_last
    = Some (mat_of c) /\
    shown w' = Some (fst (fst c)) /\
    (0 < cfg_average cfg -> shape (fst (fst c)) = sh)%Z /\
    events_of (main_with cfg) w
    = (returned (init_script D) ++ [EvGet Info (Ok (PyRef l))] ++ evs)%list /\
    length (pulled evs)
    = (length (sweep_points cfg) * (1 + Z.to_nat (cfg_average cfg)))%nat /\
    count is_enable evs = length (sweep_points cfg) /\
    count is_disable evs = length (sweep_points cfg).
Proof.
  intros Hl Hserial Hvalid Hne.
  destruct (main_prefix cfg serial_num w Hl Hserial)
    as (w4 & Hrun & F4 & D4 & Hs4 & Ht4).
  set (base := os_path_join "results" serial_num) in *.
  destruct (points_run sh Hwb (cfg_average cfg) base (sweep_points cfg) None w4 Hvalid)
    as (data' & w5 & evs & R5 & D5 & _ & Ht5 & P5 & En5 & Di5 & Hout & Hin & Hlast).
  destruct (last (sweep_points cfg)) as [p_last |] eqn:Elast.
  2:{ apply last_None in Elast. contradiction. }
  destruct Hlast as (c & -> & Hs5 & Hf5 & Sh5).
  assert (Hfinal : main_with cfg w = (Ok tt, with_shown (Some (fst (fst c))) w5)).
  { rewrite Hrun. unfold bind. rewrite sweep_as_points, R5. reflexivity. }
  exists c, p_last, (with_shown (Some (fst (fst c))) w5), evs.
  split; [exact Hfinal |].
  split; [simpl; congruence |].
  split.
  { simpl. rewrite Hout by
      (intros Hk; apply list_elem_of_fmap in Hk as (q & Hq & _);
       exact (info_json_not_point _ _ Hq)).
    rewrite F4. apply lookup_insert_eq. }
  split.
  { intros p Hp.
    destruct (Hin (point_path base p) (list_elem_of_fmap_2 _ _ _ Hp))
      as (q & f & Hq & Hpath & Hf & Hst).
    rewrite Forall_forall in Hvalid.
    apply point_path_inj in Hpath; [| apply Hvalid; assumption ..]. subst q.
    exists f. auto. }
  split.
  { intros k Hk1 Hk2. simpl. rewrite (Hout k Hk2), F4.
    apply lookup_insert_ne. congruence. }
  split; [reflexivity |].
  split; [exact Hf5 |].
  split; [reflexivity |].
  split; [exact Sh5 |].
  split; [| auto].
  unfold events_of. rewrite Hfinal. simpl.
  apply events_since_app. simpl. rewrite Ht5, Ht4, <- !app_assoc. reflexivity.
Qed.

End MainRuns.

Section MainProperties.
Context {D : Driver}.

Local Open Scope string_scope.

(** X9.  The sweep against a well-behaved driver, for any grid, on a file
    system and a display that raise no error.  When the driver's info dict
    names a serial number (a string), the exposures are positive and
    convertible to a float, the gains are not negative, [average] is positive
    and there is at least one sweep point, [main] ends normally.  Afterwards
    the directory [os.path.join('results', serial_num)] exists and no
    directory disappeared; [info.json] in it holds the items of the info
    dict; every sweep point has its artifact, which holds the fields that
    [capture] returned at that very point; different sweep points have
    different artifact paths; and every other path holds what it held
    before. *)
Theorem main_with_artifacts (sh : list nat) (l : loc) (d : gmap string pyval)
    (serial_num : string) (cfg : config) (w : world D) :
  well_behaved D sh ->
  (forall s, exists s', drv_get D Info s = (Ok (PyRef l), s')) ->
  heap w !! l = Some d -> d !! "serial_num" = Some (PyStr serial_num) ->
  Forall (fun e => valid_exposure e = true) (cfg_exposures cfg) ->
  Forall (fun g => (0 <= g)%Z) (cfg_gains cfg) ->
  (0 < cfg_average cfg)%Z ->
  sweep_points cfg <> [] ->
  let base := os_path_join "results" serial_num in
  exists w',
    main_with cfg w = (Ok tt, w') /\
    base ∈ dirs (fs w') /\ dirs (fs w) ⊆ dirs (fs w') /\
    files (fs w') !! os_path_join base "info.json" = Some (JsonFile d) /\
    (forall p, p ∈ sweep_points cfg ->
       exists f, files (fs w') !! point_path base p = Some f /\
                 stores (D:=D) (snd p) (snd (fst p)) (fst (fst p)) (cfg_average cfg) f) /\
    (forall p q, p ∈ sweep_points cfg -> q ∈ sweep_points cfg ->
                 point_path base p = point_path base q -> p = q) /\
    (forall k, k <> os_path_join base "info.json" ->
               k ∉ point_path base <$> sweep_points cfg ->
               files (fs w') !! k = files (fs w) !! k).
Proof.
  intros Hwb Hinfo Hl Hserial He Hg Havg Hne base.
  pose proof (valid_sweep_points cfg He Hg) as Hvalid.
  destruct (main_with_run sh Hwb l d Hinfo cfg serial_num w Hl Hserial Hvalid Hne)
    as (c & p_last & w' & evs & Hrun & Hd & Hi & Hp & Hk & _).
  exists w'. split; [exact Hrun |].
  split; [rewrite Hd; apply elem_of_union; left; apply elem_of_singleton; reflexivity |].
  split; [rewrite Hd; apply union_subseteq_r |]. split; [exact Hi |].
  split; [exact Hp |]. split; [| exact Hk].
  intros p q Hpin Hqin. rewrite Forall_forall in Hvalid.
  apply point_path_inj; apply Hvalid; assumption.
Qed.

(** X10.  What [main] displays at the end is the image of the last sweep point
    of the loops: the array stored in the artifact of that point, which has
    the shape of the driver's frames. *)
Theorem main_shows_last (sh : list nat) (l : loc) (d : gmap string pyval)
    (serial_num : string) (cfg : config) (w : world D) :
  well_behaved D sh ->
  (forall s, exists s', drv_get D Info s = (Ok (PyRef l), s')) ->
  heap w !! l = Some d -> d !! "serial_num" = Some (PyStr serial_num) ->
  Forall (fun e => valid_exposure e = true) (cfg_exposures cfg) ->
  Forall (fun g => (0 <= g)%Z) (cfg_gains cfg) ->
  (0 < cfg_average cfg)%Z ->
  sweep_points cfg <> [] ->
  exists c p w',
    main_with cfg w = (Ok tt, w') /\
    last (sweep_points cfg) = Some p /\
    files (fs w') !! point_path (os_path_join "results" serial_num) p
    = Some (mat_of c) /\
    shown w' = Some (fst (fst c)) /\
    shape (fst (fst c)) = sh.
Proof.
  intros Hwb Hinfo Hl Hserial He Hg Havg Hne.
  pose proof (valid_sweep_points cfg He Hg) as Hvalid.
  destruct (main_with_run sh Hwb l d Hinfo cfg serial_num w Hl Hserial Hvalid Hne)
    as (c & p_last & w' & evs & Hrun & _ & _ & _ & _ & Hlast & Hf & Hs & Hsh & _).
  exists c, p_last, w'. repeat (split; [assumption |]). exact (Hsh Havg).
Qed.

(** X11.  The driver calls of a whole run against a well-behaved driver: the
    calls of the constructor, one read of the info, and then, for [n] sweep
    points, [n] enables, [n] disables and [n * (1 + average)] frame pulls. *)
Theorem main_driver_calls (sh : list nat) (l : loc) (d : gmap string pyval)
    (serial_num : string) (cfg : config) (w : world D) :
  well_behaved D sh ->
  (forall s, exists s', drv_get D Info s = (Ok (PyRef l), s')) ->
  heap w !! l = Some d -> d !! "serial_num" = Some (PyStr serial_num) ->
  Forall (fun e => valid_exposure e = true) (cfg_exposures cfg) ->
  Forall (fun g => (0 <= g)%Z) (cfg_gains cfg) ->
  (0 < cfg_average cfg)%Z ->
  sweep_points cfg <> [] ->
  exists evs,
    events_of (main_with cfg) w
    = (returned (init_script D) ++ [EvGet Info (Ok (PyRef l))] ++ evs)%list /\
    length (pulled evs)
    = (length (sweep_points cfg) * (1 + Z.to_nat (cfg_average cfg)))%nat /\
    count is_enable evs = length (sweep_points cfg) /\
    count is_disable evs = length (sweep_points cfg).
Proof.
  intros Hwb Hinfo Hl Hserial He Hg Havg Hne.
  pose proof (valid_sweep_points cfg He Hg) as Hvalid.
  destruct (main_with_run sh Hwb l d Hinfo cfg serial_num w Hl Hserial Hvalid Hne)
    as (c & p_last & w' & evs & _ & _ & _ & _ & _ & _ & _ & _ & _ & Hev).
  exists evs. exact Hev.
Qed.

Lemma script_points_valid :
  Forall (fun p => valid_point p = true) (sweep_points script_config).
Proof. apply (bool_decide_unpack _). vm_compute. reflexivity. Qed.

(** X12.  [main] with the constants of the script, against a well-behaved driver
    whose info dict names a serial number: the run ends normally and leaves
    [info.json] and 132 artifacts, one for each of 2 boost flags, 6 gains and
    11 exposures, at 133 different paths; each artifact holds what [capture]
    returned at its sweep point with [average = 10]. *)
Theorem main_artifacts (sh : list nat) (l : loc) (d : gmap string pyval)
    (serial_num : string) (w : world D) :
  well_behaved D sh ->
  (forall s, exists s', drv_get D Info s = (Ok (PyRef l), s')) ->
  heap w !! l = Some d -> d !! "serial_num" = Some (PyStr serial_num) ->
  let base := os_path_join "results" serial_num in
  let points := sweep_points script_config in
  exists w',
    main w = (Ok tt, w') /\
    length points = 132%nat /\
    NoDup (os_path_join base "info.json" :: (point_path base <$> points)) /\
    files (fs w') !! os_path_join base "info.json" = Some (JsonFile d) /\
    (forall p, p ∈ points ->
       exists f, files (fs w') !! point_path base p = Some f /\
                 stores (D:=D) (snd p) (snd (fst p)) (fst (fst p)) 10 f) /\
    (forall k, k ∉ os_path_join base "info.json" :: (point_path base <$> points) ->
               files (fs w') !! k = files (fs w) !! k).
Proof.
  intros Hwb Hinfo Hl Hserial base points.
  assert (Hne : sweep_points script_config <> []) by discriminate.
  destruct (main_with_run sh Hwb l d Hinfo script_config serial_num w Hl Hserial
              script_points_valid Hne)
    as (c & p_last & w' & evs & Hrun & _ & Hi & Hp & Hk & _).
  exists w'. split; [exact Hrun |]. split; [reflexivity |].
  split; [| split; [exact Hi | split; [exact Hp |]]].
  - constructor.
    + intros Hin. apply list_elem_of_fmap in Hin as (q & Hq & _).
      exact (info_json_not_point _ _ Hq).
    + apply NoDup_point_paths; [exact script_points_valid |].
      apply (bool_decide_unpack _). vm_compute. reflexivity.
  - intros k Hk'. apply not_elem_of_cons in Hk' as [Hk1 Hk2]. apply Hk; assumption.
Qed.

(** X13.  A missing key.  When the info dict of the camera has no [serial_num],
    [main] raises [KeyError] right after reading the info: nothing is on disk
    or on the display that was not there, and the driver saw the calls of the
    constructor and the read of the info, and nothing else. *)
Theorem main_missing_serial (sh : list nat) (l : loc) (d : gmap string pyval)
    (cfg : config) (w : world D) :
  well_behaved D sh ->
  (forall s, exists s', drv_get D Info s = (Ok (PyRef l), s')) ->
  heap w !! l = Some d -> d !! "serial_num" = None ->
  exists w',
    main_with cfg w = (Raise KeyError, w') /\
    fs w' = fs w /\ shown w' = shown w /\
    events_of (main_with cfg) w
    = (returned (init_script D) ++ [EvGet Info (Ok (PyRef l))])%list.
Proof.
  intros Hwb Hinfo Hl Hserial.
  assert (Hrun : exists w', main_with cfg w = (Raise KeyError, w') /\
                   fs w' = fs w /\ shown w' = shown w /\
                   trace w' = (trace w ++ returned (init_script D)
                                 ++ [EvGet Info (Ok (PyRef l))])%list).
  { unfold main_with.
    match goal with
    | |- context [bind info ?k] =>
        destruct (main_start sh Hwb l d Hinfo k w Hl)
          as (l1 & w2 & -> & Hl1 & Hf2 & Hs2 & Ht2)
    end.
    assert (R3 : dict_getitem (PyRef l1) "serial_num" w2 = (Raise KeyError, w2)).
    { unfold dict_getitem, bind, dict_read. rewrite Hl1, Hserial. reflexivity. }
    rewrite (bind_raise _ _ _ _ _ R3). exists w2. auto. }
  destruct Hrun as (w' & Hrun & Hf & Hs & Ht).
  exists w'. split; [exact Hrun |]. split; [exact Hf |]. split; [exact Hs |].
  unfold events_of. rewrite Hrun. apply events_since_app, Ht.
Qed.

(** X14.  An empty grid.  When one of the three tuples that [main] iterates over
    is empty, so that there is no sweep point, [main] writes [info.json] and
    then raises [UnboundLocalError] at the final display, whose variable
    [data] was never assigned; no frame was captured. *)
Theorem main_empty_sweep (sh : list nat) (l : loc) (d : gmap string pyval)
    (serial_num : string) (cfg : config) (w : world D) :
  well_behaved D sh ->
  (forall s, exists s', drv_get D Info s = (Ok (PyRef l), s')) ->
  heap w !! l = Some d -> d !! "serial_num" = Some (PyStr serial_num) ->
  sweep_points cfg = [] ->
  let base := os_path_join "results" serial_num in
  exists w',
    main_with cfg w = (Raise UnboundLocalError, w') /\
    files (fs w') = <[os_path_join base "info.json" := JsonFile d]> (files (fs w)) /\
    base ∈ dirs (fs w') /\
    shown w' = shown w /\
    events_of (main_with cfg) w
    = (returned (init_script D) ++ [EvGet Info (Ok (PyRef l))])%list.
Proof.
  intros Hwb Hinfo Hl Hserial Hempty base.
  destruct (main_prefix sh Hwb l d Hinfo cfg serial_num w Hl Hserial)
    as (w4 & Hrun & F4 & D4 & Hs4 & Ht4).
  assert (Hfinal : main_with cfg w = (Raise UnboundLocalError, w4)).
  { rewrite Hrun. unfold bind. rewrite sweep_as_points, Hempty. reflexivity. }
  exists w4. split; [exact Hfinal |]. split; [exact F4 |].
  split; [rewrite D4; apply elem_of_union; left; apply elem_of_singleton; reflexivity |].
  split; [exact Hs4 |].
  unfold events_of. rewrite Hfinal. apply events_since_app, Ht4.
Qed.

End MainProperties.

(** ** Concrete runs for the further properties *)

Lemma capture_pull_count_witness :
  length (pulled (events_of (capture 100 0 false 2) (StandIn.world0 None))) = 3%nat.
Proof.
  apply (proj2 (capture_pull_count (StandIn.world0 None) 100 0 false 2)).
  vm_compute. reflexivity.
Defined.

Lemma capture_finally_outcome_witness :
  fst (capture 100 0 false 2 (StandIn.world0 (Some 2))) = Raise (DriverError 2).
Proof.
  apply (proj2 (capture_finally_outcome (StandIn.world0 (Some 2)) 100 0 false 2)
           (DriverError 2)); elem_of_concrete.
Defined.

Lemma capture_configuration_order_witness :
  exists pc fr fe rest,
    calls_in pixelclock_calls pc /\
    framerate 5000 = Ok fr /\
    Float.of_int 5000 = Ok fe /\
    events_of (capture 5000 20 true 2) (StandIn.world0 None)
    = pc ++ [EvSet Framerate fr (Ok tt);
             EvSet Exposure (PyFloat (Float.mul fe Float.f_1e_3)) (Ok tt);
             EvSet Gain (PyInt 20) (Ok tt);
             EvSet GainBoost (PyBool true) (Ok tt);
             enable (Ok tt)] ++ rest /\
    calls_in acquire_calls rest.
Proof.
  apply (capture_configuration_order (StandIn.world0 None) 5000 20 true 2 (Ok tt)).
  elem_of_concrete.
Defined.

Lemma capture_fail_fast_witness :
  let evs := events_of (capture 100 0 false 2) (StandIn.world0 (Some 2)) in
  drop 8 evs = [] \/
  exists x rd, EvNext (Raise (DriverError 2)) = EvNext (Raise x) /\
               drop 8 evs = [disable rd].
Proof.
  intros evs.
  apply (proj1 (capture_fail_fast (StandIn.world0 (Some 2)) 100 0 false 2)
           (take 7 evs) (EvNext (Raise (DriverError 2))) (drop 8 evs)).
  - vm_compute. reflexivity.
  - reflexivity.
Defined.

Lemma main_fail_fast_witness :
  let evs := events_of (main_with (mk_config [100] [0] [false] 1))
               (StandIn.world0 (Some 2)) in
  drop 17 evs = [] \/
  exists x rd, EvNext (Raise (DriverError 2)) = EvNext (Raise x) /\
               drop 17 evs = [disable rd].
Proof.
  intros evs.
  apply (proj1 (main_fail_fast (mk_config [100] [0] [false] 1) (StandIn.world0 (Some 2)))
           (take 16 evs) (EvNext (Raise (DriverError 2))) (drop 17 evs)).
  - vm_compute. reflexivity.
  - reflexivity.
Defined.

Lemma main_with_artifacts_witness :
  exists w',
    main_with (mk_config [100; 1000] [0; 20] [false] 1) (StandIn.world0 None)
    = (Ok tt, w') /\
    os_path_join "results" "4102776221" ∈ dirs (fs w') /\
    dirs (fs (StandIn.world0 None)) ⊆ dirs (fs w') /\
    files (fs w') !! os_path_join (os_path_join "results" "4102776221") "info.json"
    = Some (JsonFile StandIn.info_dict) /\
    (forall p, p ∈ sweep_points (mk_config [100; 1000] [0; 20] [false] 1) ->
       exists f, files (fs w') !! point_path (os_path_join "results" "4102776221") p
                 = Some f /\
                 stores (D:=StandIn.driver None) (snd p) (snd (fst p)) (fst (fst p)) 1 f) /\
    (forall p q, p ∈ sweep_points (mk_config [100; 1000] [0; 20] [false] 1) ->
                 q ∈ sweep_points (mk_config [100; 1000] [0; 20] [false] 1) ->
                 point_path (os_path_join "results" "4102776221") p
                 = point_path (os_path_join "results" "4102776221") q -> p = q) /\
    (forall k, k <> os_path_join (os_path_join "results" "4102776221") "info.json" ->
               k ∉ point_path (os_path_join "results" "4102776221")
                     <$> sweep_points (mk_config [100; 1000] [0; 20] [false] 1) ->
               files (fs w') !! k = files (fs (StandIn.world0 None)) !! k).
Proof.
  apply (main_with_artifacts [1%nat; 2%nat] StandIn.info_loc StandIn.info_dict
           "4102776221" (mk_config [100; 1000] [0; 20] [false] 1)
           (StandIn.world0 None)).
  - exact standin_well_behaved.
  - intros s. simpl. eauto.
  - reflexivity.
  - reflexivity.
  - apply (bool_decide_unpack _). vm_compute. reflexivity.
  - apply (bool_decide_unpack _). vm_compute. reflexivity.
  - reflexivity.
  - intros H. vm_compute in H. discriminate H.
Defined.

Lemma main_shows_last_witness :
  exists c p w',
    main_with (mk_config [100; 1000] [0; 20] [false] 1) (StandIn.world0 None)
    = (Ok tt, w') /\
    last (sweep_points (mk_config [100; 1000] [0; 20] [false] 1)) = Some p /\
    files (fs w') !! point_path (os_path_join "results" "4102776221") p
    = Some (mat_of c) /\
    shown w' = Some (fst (fst c)) /\
    shape (fst (fst c)) = [1%nat; 2%nat].
Proof.
  apply (main_shows_last [1%nat; 2%nat] StandIn.info_loc StandIn.info_dict
           "4102776221" (mk_config [100; 1000] [0; 20] [false] 1)
           (StandIn.world0 None)).
  - exact standin_well_behaved.
  - intros s. simpl. eauto.
  - reflexivity.
  - reflexivity.
  - apply (bool_decide_unpack _). vm_compute. reflexivity.
  - apply (bool_decide_unpack _). vm_compute. reflexivity.
  - reflexivity.
  - intros H. vm_compute in H. discriminate H.
Defined.

Lemma main_driver_calls_witness :
  exists evs,
    events_of (main_with (mk_config [100; 1000] [0; 20] [false] 1)) (StandIn.world0 None)
    = returned (init_script (StandIn.driver None))
      ++ [EvGet Info (Ok (PyRef StandIn.info_loc))] ++ evs /\
    length (pulled evs)
    = (length (sweep_points (mk_config [100; 1000]%Z [0; 20]%Z [false] 1%Z))
       * (1 + Z.to_nat 1%Z))%nat /\
    count is_enable evs = length (sweep_points (mk_config [100; 1000] [0; 20] [false] 1)) /\
    count is_disable evs = length (sweep_points (mk_config [100; 1000] [0; 20] [false] 1)).
Proof.
  apply (main_driver_calls [1%nat; 2%nat] StandIn.info_loc StandIn.info_dict
           "4102776221" (mk_config [100; 1000] [0; 20] [false] 1)
           (StandIn.world0 None)).
  - exact standin_well_behaved.
  - intros s. simpl. eauto.
  - reflexivity.
  - reflexivity.
  - apply (bool_decide_unpack _). vm_compute. reflexivity.
  - apply (bool_decide_unpack _). vm_compute. reflexivity.
  - reflexivity.
  - intros H. vm_compute in H. discriminate H.
Defined.

Lemma main_artifacts_witness :
  exists w',
    main (StandIn.world0 None) = (Ok tt, w') /\
    length (sweep_points script_config) = 132%nat /\
    NoDup (os_path_join (os_path_join "results" "4102776221") "info.json"
             :: (point_path (os_path_join "results" "4102776221")
                   <$> sweep_points script_config)) /\
    files (fs w') !! os_path_join (os_path_join "results" "4102776221") "info.json"
    = Some (JsonFile StandIn.info_dict) /\
    (forall p, p ∈ sweep_points script_config ->
       exists f, files (fs w') !! point_path (os_path_join "results" "4102776221") p
                 = Some f /\
                 stores (D:=StandIn.driver None) (snd p) (snd (fst p)) (fst (fst p)) 10 f) /\
    (forall k, k ∉ os_path_join (os_path_join "results" "4102776221") "info.json"
                     :: (point_path (os_path_join "results" "4102776221")
                           <$> sweep_points script_config) ->
               files (fs w') !! k = files (fs (StandIn.world0 None)) !! k).
Proof.
  apply (main_artifacts [1%nat; 2%nat] StandIn.info_loc StandIn.info_dict
           "4102776221" (StandIn.world0 None)).
  - exact standin_well_behaved.
  - intros s. simpl. eauto.
  - reflexivity.
  - reflexivity.
Defined.

Lemma main_missing_serial_witness :
  exists w',
    main_with script_config world_without_serial = (Raise KeyError, w') /\
    fs w' = fs world_without_serial /\ shown w' = shown world_without_serial /\
    events_of (main_with script_config) world_without_serial
    = returned (init_script (StandIn.driver None))
      ++ [EvGet Info (Ok (PyRef StandIn.info_loc))].
Proof.
  apply (main_missing_serial [1%nat; 2%nat] StandIn.info_loc
           {[ "model"%string := PyStr "UI-1240" ]} script_config
           world_without_serial).
  - exact standin_well_behaved.
  - intros s. simpl. eauto.
  - reflexivity.
  - reflexivity.
Defined.

Lemma main_empty_sweep_witness :
  exists w',
    main_with (mk_config [] [0; 20] [false; true] 10) (StandIn.world0 None)
    = (Raise UnboundLocalError, w') /\
    files (fs w')
    = <[os_path_join (os_path_join "results" "4102776221") "info.json"
        := JsonFile StandIn.info_dict]> (files (fs (StandIn.world0 None))) /\
    os_path_join "results" "4102776221" ∈ dirs (fs w') /\
    shown w' = shown (StandIn.world0 None) /\
    events_of (main_with (mk_config [] [0; 20] [false; true] 10)) (StandIn.world0 None)
    = returned (init_script (StandIn.driver None))
      ++ [EvGet Info (Ok (PyRef StandIn.info_loc))].
Proof.
  apply (main_empty_sweep [1%nat; 2%nat] StandIn.info_loc StandIn.info_dict
           "4102776221" (mk_config [] [0; 20] [false; true] 10)
           (StandIn.world0 None)).
  - exact standin_well_behaved.
  - intros s. simpl. eauto.
  - reflexivity.
  - reflexivity.
  - reflexivity.
Defined.

(** ** The terminal *)

Section QuietRules.
Context {D : Driver}.

Lemma same_stdout_refl (w : world D) : same_stdout w w.
Proof. reflexivity. Qed.

Lemma same_stdout_trans (w1 w2 w3 : world D) :
  same_stdout w1 w2 -> same_stdout w2 w3 -> same_stdout w1 w3.
Proof. unfold same_stdout. congruence. Qed.

Lemma quiet_open (nummem : Z) : preserves (D:=D) same_stdout (cam_open nummem).
Proof. intros w. unfold cam_open. destruct (drv_open D nummem (dev w)). reflexivity. Qed.

Lemma quiet_set (p : prop) (v : pyval) : preserves (D:=D) same_stdout (cam_set p v).
Proof. intros w. unfold cam_set. destruct (drv_set D p v (dev w)). reflexivity. Qed.

Lemma quiet_get (p : prop) : preserves (D:=D) same_stdout (cam_get p).
Proof. intros w. unfold cam_get. destruct (drv_get D p (dev w)). reflexivity. Qed.

Lemma quiet_next : preserves (D:=D) same_stdout cam_next.
Proof. intros w. unfold cam_next. destruct (drv_next D (dev w)). reflexivity. Qed.

Lemma quiet_dict_read (v : pyval) : preserves (D:=D) same_stdout (dict_read v).
Proof.
  intros w. unfold dict_read. destruct v; try reflexivity.
  destruct (heap w !! l); reflexivity.
Qed.

Lemma quiet_bind {A B} (m : M D A) (k : A -> M D B) :
  preserves same_stdout m -> (forall a, preserves same_stdout (k a)) ->
  preserves same_stdout (bind m k).
Proof. apply preserves_bind, same_stdout_trans. Qed.

(** What a computation printed, when what follows it prints nothing. *)
Lemma stdout_bind_quiet {A B} (m : M D A) (k : A -> M D B) (w : world D) :
  (forall a, preserves same_stdout (k a)) ->
  stdout (snd (bind m k w)) = stdout (snd (m w)).
Proof.
  intros Hk. unfold bind. destruct (m w) as [[a | e] w1]; [apply Hk | reflexivity].
Qed.

End QuietRules.

Ltac quiet_sp :=
  lazymatch goal with
  | |- preserves same_stdout (bind _ _) =>
      apply quiet_bind; [quiet_sp | intros ?; cbv beta; quiet_sp]
  | |- preserves same_stdout (cam_set _ _) => apply quiet_set
  | |- preserves same_stdout (cam_get _) => apply quiet_get
  | |- preserves same_stdout (cam_open _) => apply quiet_open
  | |- preserves same_stdout cam_next => apply quiet_next
  | |- preserves same_stdout (dict_read _) => apply quiet_dict_read
  | |- preserves same_stdout (try_finally _ _) =>
      apply preserves_try_finally; [apply same_stdout_trans | quiet_sp | quiet_sp]
  | |- preserves same_stdout (for_each _ _ _) =>
      apply preserves_for_each;
      [apply same_stdout_refl | apply same_stdout_trans
      | intros ? ?; cbv beta; quiet_sp]
  | |- preserves same_stdout (if ?b then _ else _) => destruct b; quiet_sp
  | |- preserves same_stdout (match ?x with _ => _ end) => destruct x; quiet_sp
  | |- preserves same_stdout _ => intros ?; reflexivity
  end.

Section Terminal.
Context {D : Driver}.

Lemma quiet_after_pixelclock (exposure_us gain : Z) (gain_boost : bool) (average : Z) :
  preserves (D:=D) same_stdout
    (set_framerate exposure_us ;;
     set_exposure_gain exposure_us gain gain_boost ;;
     acquire average).
Proof.
  unfold set_framerate, set_exposure_gain, acquire, pull_frames, read_back.
  quiet_sp.
Qed.

Lemma set_pixelclock_stdout (exposure_us : Z) (w : world D) :
  stdout (snd (set_pixelclock exposure_us w))
  = (stdout w
       ++ pixelclock_lines exposure_us (fst (drv_get D PixelclockRange (dev w))))%list.
Proof.
  unfold set_pixelclock, pixelclock_lines.
  destruct (1000 <? exposure_us).
  - unfold bind at 1. unfold cam_get at 1.
    destruct (drv_get D PixelclockRange (dev w)) as [[v | e] d1]; simpl;
      [| rewrite app_nil_r; reflexivity].
    unfold bind at 1. unfold lift at 1.
    destruct (Py.index0 v) as [lo | e]; simpl; [| rewrite app_nil_r; reflexivity].
    unfold bind at 1. unfold print at 1.
    match goal with
    | |- stdout (snd (?m ?w1)) = _ =>
        change (stdout (snd (m w1))) with (stdout (snd (bind (ret tt) (fun _ => m) w1)))
    end.
    rewrite stdout_bind_quiet; [reflexivity |].
    intros _. quiet_sp.
  - unfold bind at 1. unfold print at 1.
    pose proof (quiet_set (D:=D) Pixelclock (PyInt IDS_MAX_PIXEL_CLOCK)) as Hq.
    unfold preserves, same_stdout in Hq. rewrite Hq. reflexivity.
Qed.

Lemma capture_stdout (exposure_us gain : Z) (gain_boost : bool) (average : Z)
    (w : world D) :
  stdout (snd (capture exposure_us gain gain_boost average w))
  = (stdout w
       ++ pixelclock_lines exposure_us (fst (drv_get D PixelclockRange (dev w))))%list.
Proof.
  unfold capture. rewrite stdout_bind_quiet by (intros _; apply quiet_after_pixelclock).
  apply set_pixelclock_stdout.
Qed.

(** X15.  What a call of [capture] prints, whatever the driver does: one line with
    the constant 30 when [exposure_us <= 1000]; otherwise one line with the
    first element of the pixel clock range as the driver reports it to the
    first read, and no line at all when that read or the indexing raises. *)
Theorem capture_prints (w : world D)
    (exposure_us gain : Z) (gain_boost : bool) (average : Z) :
  printed (capture exposure_us gain gain_boost average) w
  = pixelclock_lines exposure_us (fst (drv_get D PixelclockRange (dev w))).
Proof. unfold printed. rewrite capture_stdout. apply drop_app_length. Qed.

End Terminal.

Section PrintRules.
Context {D : Driver}.

Lemma prints_ok_weaken {A} (m : M D A) (P Q : list message -> Prop) :
  prints_ok m P -> (forall out, P out -> Q out) -> prints_ok m Q.
Proof. intros Hm HPQ w. destruct (Hm w) as (out & Hs & HP). eauto. Qed.

Lemma prints_ok_raise {A} (e : exn) (Q : list message -> Prop) :
  prints_ok (D:=D) (A:=A) (raise e) Q.
Proof. intros w. exists []. split; [symmetry; apply app_nil_r | discriminate]. Qed.

Lemma prints_ok_print (m : message) :
  prints_ok (D:=D) (print m) (fun out => out = [m]).
Proof. intros w. exists [m]. auto. Qed.

Lemma prints_ok_bind {A B} (m : M D A) (k : A -> M D B)
    (P Q : list message -> Prop) :
  prints_ok m P -> (forall a, prints_ok (k a) Q) ->
  prints_ok (bind m k) (fun out => exists o1 o2, out = o1 ++ o2 /\ P o1 /\ Q o2).
Proof.
  intros Hm Hk w. unfold bind. destruct (Hm w) as (o1 & Hs1 & H1).
  destruct (m w) as [[a | e] w1]; simpl in *.
  - destruct (Hk a w1) as (o2 & Hs2 & H2). exists (o1 ++ o2).
    split; [rewrite Hs2, Hs1; symmetry; apply app_assoc |].
    intros Hok. exists o1, o2. auto.
  - exists o1. split; [exact Hs1 | discriminate].
Qed.

Lemma prints_ok_bind_quiet_l {A B} (m : M D A) (k : A -> M D B)
    (Q : list message -> Prop) :
  preserves same_stdout m -> (forall a, prints_ok (k a) Q) ->
  prints_ok (bind m k) Q.
Proof.
  intros Hm Hk w. unfold bind. specialize (Hm w).
  destruct (m w) as [[a | e] w1]; simpl in *.
  - destruct (Hk a w1) as (out & Hs & H). exists out. rewrite Hs, Hm. auto.
  - exists []. rewrite app_nil_r. split; [exact Hm | discriminate].
Qed.

Lemma prints_ok_bind_quiet_r {A B} (m : M D A) (k : A -> M D B)
    (P : list message -> Prop) :
  prints_ok m P -> (forall a, preserves same_stdout (k a)) ->
  prints_ok (bind m k) P.
Proof.
  intros Hm Hk w. unfold bind. destruct (Hm w) as (out & Hs & H).
  destruct (m w) as [[a | e] w1]; simpl in *.
  - exists out. rewrite (Hk a w1). auto.
  - exists out. split; [exact Hs | discriminate].
Qed.

Lemma prints_ok_for_each {A S} (xs : list A) (body : S -> A -> M D S) (s : S)
    (P : A -> list message -> Prop) :
  (forall s x, prints_ok (body s x) (P x)) ->
  prints_ok (for_each xs body s)
    (fun out => exists outs, Forall2 P xs outs /\ out = concat outs).
Proof.
  intros Hbody. revert s. induction xs as [| x xs IH]; intros s; simpl.
  - intros w. exists []. split; [symmetry; apply app_nil_r |].
    intros _. exists []. split; [constructor | reflexivity].
  - eapply prints_ok_weaken; [apply prints_ok_bind; [apply Hbody | exact IH] |].
    intros out (o1 & o2 & -> & H1 & outs & H2 & ->).
    exists (o1 :: outs). split; [constructor; assumption | reflexivity].
Qed.

Lemma is_ok_bind {A B} (m : M D A) (k : A -> M D B) (w : world D) :
  is_ok (fst (bind m k w)) = true ->
  exists a w1, m w = (Ok a, w1) /\ is_ok (fst (k a w1)) = true.
Proof.
  unfold bind. destruct (m w) as [[a | e] w1]; [eauto | discriminate].
Qed.

(** A call of [capture] that returns printed exactly one line. *)
Lemma prints_ok_capture (exposure_us gain : Z) (gain_boost : bool) (average : Z) :
  prints_ok (D:=D) (capture exposure_us gain gain_boost average)
    (fun out => exists lo,
         out = [MsgPixelClock (if 1000 <? exposure_us then lo
                               else PyInt IDS_MAX_PIXEL_CLOCK)]).
Proof.
  intros w. eexists. split; [apply capture_stdout |].
  intros Hok. unfold pixelclock_lines.
  destruct (1000 <? exposure_us) eqn:He; [| exists PyNone; reflexivity].
  unfold capture in Hok. apply is_ok_bind in Hok as (u & w1 & Hpc & _).
  assert (Hok : is_ok (fst (set_pixelclock exposure_us w)) = true)
    by (rewrite Hpc; reflexivity).
  unfold set_pixelclock in Hok. rewrite He in Hok.
  apply is_ok_bind in Hok as (v & w2 & Hget & Hok).
  apply is_ok_bind in Hok as (lo & w3 & Hidx & _).
  unfold cam_get in Hget. destruct (drv_get D PixelclockRange (dev w)) as [r d1].
  injection Hget as -> _. simpl.
  unfold lift in Hidx. injection Hidx as -> _. exists lo. reflexivity.
Qed.

Lemma prints_ok_at_point (average : Z) (base_path : string)
    (data : option captured) (p : bool * Z * Z) :
  prints_ok (D:=D) (at_point average base_path data p)
    (fun out => exists lo, out = point_lines p lo).
Proof.
  unfold at_point, sweep_point, savemat.
  eapply prints_ok_weaken.
  - apply prints_ok_bind; [apply prints_ok_print | intros _].
    apply prints_ok_bind_quiet_r; [apply prints_ok_capture | intros c].
    quiet_sp.
  - intros out (o1 & o2 & -> & -> & lo & ->). exists lo. reflexivity.
Qed.

Lemma concat_point_lines (ps : list (bool * Z * Z)) (outs : list (list message)) :
  Forall2 (fun p out => exists lo, out = point_lines p lo) ps outs ->
  exists los, length los = length ps /\ concat outs = sweep_lines ps los.
Proof.
  induction 1 as [| p out ps outs (lo & ->) _ (los & Hlen & IH)].
  - exists []. split; reflexivity.
  - exists (lo :: los). split; [simpl; congruence |].
    unfold sweep_lines in *. simpl. rewrite IH. reflexivity.
Qed.

Lemma prints_ok_sweep (cfg : config) (base_path : string) :
  prints_ok (D:=D) (sweep cfg base_path)
    (fun out => exists los, length los = length (sweep_points cfg) /\
                            out = sweep_lines (sweep_points cfg) los).
Proof.
  intros w. rewrite sweep_as_points.
  destruct (prints_ok_for_each (sweep_points cfg)
              (at_point (cfg_average cfg) base_path) None
              (fun p out => exists lo, out = point_lines p lo)
              (fun s x => prints_ok_at_point _ _ s x) w) as (out & Hs & H).
  exists out. split; [exact Hs |]. intros Hok.
  destruct (H Hok) as (outs & Houts & ->). apply concat_point_lines, Houts.
Qed.

Lemma prints_ok_main_with (cfg : config) :
  prints_ok (D:=D) (main_with cfg)
    (fun out => exists los, length los = length (sweep_points cfg) /\
                            out = sweep_lines (sweep_points cfg) los).
Proof.
  unfold main_with, camera_init, info, dict_copy, dict_getitem.
  apply prints_ok_bind_quiet_l; [quiet_sp | intros _].
  apply prints_ok_bind_quiet_l; [quiet_sp | intros cam_info].
  apply prints_ok_bind_quiet_l; [quiet_sp | intros serial].
  destruct serial; try apply prints_ok_raise.
  cbv zeta.
  apply prints_ok_bind_quiet_l; [quiet_sp | intros isdir].
  apply prints_ok_bind_quiet_l; [quiet_sp | intros _].
  apply prints_ok_bind_quiet_l; [quiet_sp | intros d].
  apply prints_ok_bind_quiet_l; [quiet_sp | intros _].
  apply prints_ok_bind_quiet_r; [apply prints_ok_sweep | intros data].
  quiet_sp.
Qed.

(** X16.  The terminal after a run of [main] that ends normally, against any
    driver: for every sweep point, in the order of the loops, the line with
    its name and then one pixel clock line, which shows the constant 30 when
    the exposure is at most 1000; and nothing else. *)
Theorem main_prints (cfg : config) (w : world D) :
  is_ok (fst (main_with cfg w)) = true ->
  exists los,
    length los = length (sweep_points cfg) /\
    printed (main_with cfg) w = sweep_lines (sweep_points cfg) los.
Proof.
  intros Hok. destruct (prints_ok_main_with cfg w) as (out & Hs & H).
  destruct (H Hok) as (los & Hlen & ->).
  exists los. split; [exact Hlen |].
  unfold printed. rewrite Hs. apply drop_app_length.
Qed.

End PrintRules.

Lemma main_prints_witness :
  exists los,
    length los = length (sweep_points (mk_config [100; 5000] [0; 20] [false] 1)) /\
    printed (main_with (mk_config [100; 5000] [0; 20] [false] 1)) (StandIn.world0 None)
    = sweep_lines (sweep_points (mk_config [100; 5000] [0; 20] [false] 1)) los.
Proof.
  apply (main_prints (mk_config [100; 5000] [0; 20] [false] 1) (StandIn.world0 None)).
  vm_compute. reflexivity.
Defined.

(** The four sweep points of a small grid on the terminal. *)
Example main_prints_run :
  printed (main_with (mk_config [100; 5000] [0; 20] [false] 1)) (StandIn.world0 None)
  = [MsgSweepPoint "exp_0000100_gain_000_boost_False"; MsgPixelClock (PyInt 30);
     MsgSweepPoint "exp_0005000_gain_000_boost_False"; MsgPixelClock (PyInt 5);
     MsgSweepPoint "exp_0000100_gain_020_boost_False"; MsgPixelClock (PyInt 30);
     MsgSweepPoint "exp_0005000_gain_020_boost_False"; MsgPixelClock (PyInt 5)].
Proof. vm_compute. reflexivity. Qed.

(** ** The shape of the returned image *)

Section ImageShape.
Context {D : Driver}.

(** X17.  Against a well-behaved driver whose frames have the shape [sh], a call
    of [capture] whose configuration succeeds returns an image of the shape
    [sh] when [average > 0].  An [average] that is zero or negative is not
    rejected: the call then pulls the warm-up frame only and returns the
    array of shape [(0,)] without any pixel. *)
Theorem capture_image_shape (sh : list nat) (w : world D)
    (exposure_us gain : Z) (gain_boost : bool) (average : Z) (fe : Float.float) :
  well_behaved D sh ->
  exposure_us <> 0 -> Float.of_int exposure_us = Ok fe ->
  exists img ex gn w',
    capture exposure_us gain gain_boost average w = (Ok (img, ex, gn), w') /\
    (0 < average -> shape img = sh) /\
    (average <= 0 ->
     img = mk_ndarray [0%nat] [] /\ length (pulled (events_since w w')) = 1%nat).
Proof.
  intros Hwb Hz Hfe.
  destruct (capture_ok sh Hwb exposure_us gain gain_boost average fe w Hz Hfe)
    as (conf & warm & fms & e_ms & gn & img & w' & Hrun & Hext & Hconf & Hlen & _).
  destruct (capture_shape sh Hwb _ _ _ _ _ _ _ _ _ _ Hz Hfe Hrun) as [Hpos Hle].
  exists img, (PyFloat (Float.mul e_ms Float.f_1e3)), (PyInt gn), w'.
  split; [exact Hrun |]. split; [exact Hpos |].
  intros Havg. split; [exact (Hle Havg) |].
  rewrite (events_since_extends _ _ _ Hext).
  rewrite (pulled_capture_ok conf (map Ok (warm :: fms)) (Ok tt) _ Hconf)
    by (unfold read_back_calls; calls_in_solve).
  rewrite length_map. simpl. rewrite Hlen. f_equal. lia.
Qed.

End ImageShape.

Lemma capture_image_shape_witness :
  exists img ex gn w',
    capture 100 0 false (-3) (StandIn.world0 None) = (Ok (img, ex, gn), w') /\
    (0 < -3 -> shape img = [1%nat; 2%nat]) /\
    (-3 <= 0 ->
     img = mk_ndarray [0%nat] [] /\
     length (pulled (events_since (StandIn.world0 None) w')) = 1%nat).
Proof.
  apply (capture_image_shape [1%nat; 2%nat] (StandIn.world0 None) 100 0 false (-3)
           (Float.of_Z 100)).
  - exact standin_well_behaved.
  - lia.
  - vm_compute. reflexivity.
Defined.
